(** * Module page generator: a shallow embedding of [generate_modules.py]

    The generator walks a fixed table of documentation modules, reads each
    module's [README.md], extracts three fragments from it by substring
    search, renders them into an HTML template and writes one [index.html]
    per module.

    Python strings are sequences of Unicode code points: a character is a
    code point in [N] and a string is a list of them.  The file system is a
    finite map from paths to nodes, and the driver runs in a small
    state-and-exception monad over the file system and the console.

    The driver is embedded twice, with the same text: over the calls of
    the operating system as they go when nothing fails beyond what the
    files show, and, in [Faulty], over the same calls under an environment
    that may fail each of them (a missing permission, a full disk, a
    closed console).  The statements about completed runs are made on the
    first; the statements about runs that abort are made on the second,
    and a run of the second that completes is a run of the first. *)

From Stdlib Require Import Ascii String ZArith Lia Permutation.
From stdpp Require Import base option list strings pretty gmap fin_maps.

Local Open Scope Z_scope.
Local Open Scope list_scope.

(** ** Strings *)

Module Str.

Abbreviation char := N (only parsing).
Abbreviation str := (list N) (only parsing).

(** String constants are written as Rocq literals.  The backtick, which
    the program text never uses, stands for the quotation mark U+0022. *)
Definition code (a : ascii) : char :=
  if Ascii.eqb a "`"%char then 34%N else N_of_ascii a.

Fixpoint lit (s : string) : str :=
  match s with
  | EmptyString => []
  | String a s' => code a :: lit s'
  end.

Definition NL : str := [10%N].

(** [str.startswith] *)
Fixpoint startswith (prefix s : str) : bool :=
  match prefix, s with
  | [], _ => true
  | _ :: _, [] => false
  | a :: prefix', b :: s' => N.eqb a b && startswith prefix' s'
  end.

(** Offset of the first occurrence of [sub] in [s]. *)
Fixpoint index_of (sub s : str) : option nat :=
  if startswith sub s then Some O
  else match s with
       | [] => None
       | _ :: s' => S <$> index_of sub s'
       end.

(** [sub in s] *)
Definition contains (sub s : str) : bool :=
  match index_of sub s with Some _ => true | None => false end.

(** Python normalises a slice bound: a negative bound counts from the end,
    and every bound is clamped to [0 .. len]. *)
Definition clamp (n i : Z) : Z :=
  if i <? 0 then Z.max 0 (i + n) else Z.min i n.

(** [s.find(sub, start)]: the lowest index at or after [start], or -1. *)
Definition find (sub s : str) (start : Z) : Z :=
  let n := Z.of_nat (length s) in
  let st := if start <? 0 then Z.max 0 (start + n) else start in
  if n <? st then -1
  else match index_of sub (drop (Z.to_nat st) s) with
       | Some i => st + Z.of_nat i
       | None => -1
       end.

(** [s[a:b]] *)
Definition slice (s : str) (a b : Z) : str :=
  let n := Z.of_nat (length s) in
  let a' := clamp n a in
  let b' := clamp n b in
  take (Z.to_nat (b' - a')) (drop (Z.to_nat a') s).

(** [s.replace(old, new)]: every non-overlapping occurrence, left to right.
    [skip] counts the characters of a matched occurrence still to be
    consumed. *)
Fixpoint replace_go (old new : str) (skip : nat) (s : str) : str :=
  match s with
  | [] => []
  | c :: s' =>
      match skip with
      | S k => replace_go old new k s'
      | O =>
          if startswith old s
          then new ++ replace_go old new (length old - 1) s'
          else c :: replace_go old new 0 s'
      end
  end.

Definition replace (old new s : str) : str :=
  match old with
  | [] => new ++ flat_map (fun c => c :: new) s
  | _ :: _ => replace_go old new 0 s
  end.

(** [s.split(sep)] for a non-empty separator; [cur] is the piece being
    collected. *)
Fixpoint split_go (sep : str) (skip : nat) (cur : str) (s : str) : list str :=
  match s with
  | [] => [cur]
  | c :: s' =>
      match skip with
      | S k => split_go sep k cur s'
      | O =>
          if startswith sep s
          then cur :: split_go sep (length sep - 1) [] s'
          else split_go sep 0 (cur ++ [c]) s'
      end
  end.

Definition split (sep s : str) : list str := split_go sep 0 [] s.

(** [sep.join(pieces)] *)
Fixpoint join (sep : str) (pieces : list str) : str :=
  match pieces with
  | [] => []
  | [p] => p
  | p :: rest => p ++ sep ++ join sep rest
  end.

(** The characters [str.strip()] removes: the code points for which
    [str.isspace] holds. *)
Definition isspace (c : char) : bool :=
  ((9 <=? c) && (c <=? 13) || (28 <=? c) && (c <=? 32)
   || (c =? 133) || (c =? 160) || (c =? 5760)
   || (8192 <=? c) && (c <=? 8202)
   || (c =? 8232) || (c =? 8233) || (c =? 8239) || (c =? 8287)
   || (c =? 12288))%N.

Fixpoint lstrip (s : str) : str :=
  match s with
  | [] => []
  | c :: s' => if isspace c then lstrip s' else s
  end.

Definition rstrip (s : str) : str := rev (lstrip (rev s)).

Definition strip (s : str) : str := rstrip (lstrip s).

(** Truth value of a string: non-empty. *)
Definition truthy (s : str) : bool :=
  match s with [] => false | _ :: _ => true end.

(** [str.upper()] maps every code point through the full Unicode
    upper-case mapping, which may yield up to three code points.  The
    Unicode table belongs to the Python runtime, so the mapping is a
    parameter of the model. *)
Definition upper (to_upper_full : char -> str) (s : str) : str :=
  flat_map to_upper_full s.

(** The mapping on ASCII text: a small letter becomes the capital letter,
    every other code point is left alone.  The examples use it; it agrees
    with Python on every text of ASCII characters. *)
Definition ascii_upper (c : char) : char :=
  if ((97 <=? c) && (c <=? 122))%N then (c - 32)%N else c.

Definition ascii_to_upper (c : char) : str := [ascii_upper c].

(** [re.sub] with [re.MULTILINE] for a pattern made of the anchor [^], a
    literal prefix without a newline and one greedy group of arbitrary
    characters, and a template that puts the group between [open] and
    [close].  The anchor matches at the start of the text and after every
    newline, and the group matches everything up to the next newline, so
    a match is a whole line that starts with the prefix: the substitution
    acts line by line. *)
Definition heading_line (prefix open close line : str) : str :=
  if startswith prefix line
  then open ++ drop (length prefix) line ++ close
  else line.

Definition re_sub_heading (prefix open close text : str) : str :=
  join NL (map (heading_line prefix open close) (split NL text)).

End Str.

Import Str.

(** ** Content extraction and conversion *)

(** [markdown_to_html], the body of its paragraph loop. *)
Definition html_paragraph (p : str) : str :=
  if truthy (strip p) && negb (startswith (lit "<") p)
  then lit "<p>" ++ strip p ++ lit "</p>"
  else p.

(** [markdown_to_html], its two header substitutions. *)
Definition convert_headers (text : str) : str :=
  let text := re_sub_heading (lit "### ") (lit "<h3>") (lit "</h3>") text in
  re_sub_heading (lit "## ") (lit "<h2>") (lit "</h2>") text.

Definition markdown_to_html (text : str) : str :=
  let text := convert_headers text in
  let paragraphs := split (NL ++ NL) text in
  let html_paragraphs := map html_paragraph paragraphs in
  join NL html_paragraphs.

(** The marker and the fallback sentence of [extract_overview]. *)
Definition overview_marker : str := lit "## Overview".

Definition overview_fallback : str :=
  lit "<p>Comprehensive system documentation available in the repository.</p>".

Definition extract_overview (content : str) : str :=
  if contains overview_marker content then
    let start := find overview_marker content 0 in
    let end_ := find (lit "##") content (start + 1) in
    let end_ := if end_ =? -1 then Z.of_nat (length content) else end_ in
    let overview :=
      strip (replace overview_marker [] (slice content start end_)) in
    markdown_to_html overview
  else overview_fallback.

(** The two fragments [extract_features] can return. *)
Definition features_advanced : str :=
  lit "<div class='features-list'><p>Advanced features and capabilities documented in detail.</p></div>".

Definition features_fallback : str :=
  lit "<div class='features-list'><p>Production-ready features with enterprise-grade capabilities.</p></div>".

Definition extract_features (content : str) : str :=
  let features_html := lit "<div class='features-list'>" in
  let features_html :=
    if contains (lit "## Key Features") content
       || contains (lit "### Features") content
    then features_html ++ lit "<p>Advanced features and capabilities documented in detail.</p>"
    else features_html ++ lit "<p>Production-ready features with enterprise-grade capabilities.</p>" in
  features_html ++ lit "</div>".

(** The two fragments [extract_api_endpoints] can return. *)
Definition api_documented : str :=
  lit "<div class='api-endpoints'><p>Complete API documentation with endpoints, parameters, and examples.</p></div>".

Definition api_fallback : str :=
  lit "<div class='api-endpoints'><p>API documentation available in the comprehensive module documentation.</p></div>".

Section Extract_api.

Variable to_upper_full : char -> str.

Definition extract_api_endpoints (content : str) : str :=
  let api_html := lit "<div class='api-endpoints'>" in
  let api_html :=
    if contains (lit "API") (upper to_upper_full content)
       || contains (lit "ENDPOINT") (upper to_upper_full content)
    then api_html ++ lit "<p>Complete API documentation with endpoints, parameters, and examples.</p>"
    else api_html ++ lit "<p>API documentation available in the comprehensive module documentation.</p>" in
  api_html ++ lit "</div>".

End Extract_api.

(** ** The module table and the page template *)

Record module_info := {
  title : str;
  description : str;
  icon : str;
  category : str
}.

(** A Python dict keeps its keys in insertion order and holds each key
    once: the table is the list of its items. *)
Definition MODULE_MAPPING : list (str * module_info) := [
  (lit "01-firstuse",
   {| title := lit "First Use Guide";
      description := lit "Complete getting started guide for PARVYOM Metanode deployment and initial setup";
      icon := lit "fas fa-play-circle";
      category := lit "getting-started" |});
  (lit "02-toolkit",
   {| title := lit "Development Toolkit";
      description := lit "Comprehensive development tools and utilities for PARVYOM Metanode ecosystem";
      icon := lit "fas fa-toolbox";
      category := lit "development" |});
  (lit "03-httpcg-client",
   {| title := lit "HttpCG Client";
      description := lit "Next-generation HTTP client with quantum-safe security and Web2-Web3 bridging";
      icon := lit "fas fa-globe";
      category := lit "networking" |});
  (lit "04-httpcg-gateway",
   {| title := lit "HttpCG Gateway";
      description := lit "Enterprise gateway with protocol transformation and security enforcement";
      icon := lit "fas fa-shield-alt";
      category := lit "networking" |});
  (lit "05-docklock-enc-orchestration",
   {| title := lit "DockLock ENC Orchestration";
      description := lit "Container orchestration with execution network clusters and security isolation";
      icon := lit "fas fa-cubes";
      category := lit "infrastructure" |});
  (lit "10-bpi-core",
   {| title := lit "BPI Core System";
      description := lit "Foundational BPI infrastructure with consensus, validation, and transaction processing";
      icon := lit "fas fa-microchip";
      category := lit "core" |});
  (lit "11-bpi-ledger",
   {| title := lit "BPI Ledger";
      description := lit "Distributed ledger technology with immutable records and cryptographic proofs";
      icon := lit "fas fa-book";
      category := lit "core" |});
  (lit "25-merkle-trees",
   {| title := lit "Merkle Trees";
      description := lit "Multi-architecture Merkle tree system with ZIPLOCK-JSON rollups and ZK accumulators";
      icon := lit "fas fa-tree";
      category := lit "cryptography" |});
  (lit "27-network-protocols",
   {| title := lit "Network Protocols";
      description := lit "XTMP protocol for high-performance BPI communication and HTTP Cage transformation";
      icon := lit "fas fa-network-wired";
      category := lit "networking" |});
  (lit "31-security-auditing",
   {| title := lit "Security Auditing";
      description := lit "Unified audit system with immutable trails and cross-system security monitoring";
      icon := lit "fas fa-search";
      category := lit "security" |});
  (lit "32-performance-optimization",
   {| title := lit "Performance Optimization";
      description := lit "Criterion-based benchmarking with real-world performance testing and optimization";
      icon := lit "fas fa-tachometer-alt";
      category := lit "performance" |});
  (lit "33-operations-maintenance",
   {| title := lit "Operations & Maintenance";
      description := lit "CLI maintenance system with advanced database operations and multi-cloud infrastructure";
      icon := lit "fas fa-tools";
      category := lit "operations" |});
  (lit "34-compliance-regulatory",
   {| title := lit "Compliance & Regulatory";
      description := lit "Multi-framework compliance with SOC 2, ISO 27001, GDPR, HIPAA, and PCI DSS support";
      icon := lit "fas fa-gavel";
      category := lit "compliance" |});
  (lit "39-iot-edge-computing",
   {| title := lit "IoT & Edge Computing";
      description := lit "Ultra-lightweight IoT protocols with edge computing and device orchestration";
      icon := lit "fas fa-microchip";
      category := lit "iot" |});
  (lit "40-blockchain-infrastructure",
   {| title := lit "Blockchain Infrastructure";
      description := lit "Enterprise-grade blockchain core with IBFT consensus and validator infrastructure";
      icon := lit "fas fa-link";
      category := lit "blockchain" |})
].

(** The page template of [create_module_page], cut at its three content
    slots. *)
Definition page_upto_overview (module_info : module_info) : str :=
  lit "<!DOCTYPE html>
<html lang=`en`>
<head>
    <meta charset=`UTF-8`>
    <meta name=`viewport` content=`width=device-width, initial-scale=1.0`>
    <title>" ++
  title module_info ++
  lit " - PARVYOM Metanode</title>
    <meta name=`description` content=`" ++
  description module_info ++
  lit "`>
    
    <!-- Fonts -->
    <link href=`https://fonts.googleapis.com/css2?family=Inter:wght@300;400;500;600;700&display=swap` rel=`stylesheet`>
    <link href=`https://cdnjs.cloudflare.com/ajax/libs/font-awesome/6.4.0/css/all.min.css` rel=`stylesheet`>
    
    <!-- Styles -->
    <link rel=`stylesheet` href=`../../assets/css/main.css`>
    <link rel=`stylesheet` href=`../../assets/css/components.css`>
    <link rel=`stylesheet` href=`../../assets/css/responsive.css`>
</head>
<body>
    <!-- Navigation Header -->
    <nav class=`navbar`>
        <div class=`nav-container`>
            <div class=`nav-brand`>
                <i class=`fas fa-cube nav-icon`></i>
                <span class=`nav-title`>PARVYOM Metanode</span>
                <span class=`nav-subtitle`>" ++
  title module_info ++
  lit "</span>
            </div>
            
            <div class=`nav-menu`>
                <a href=`../../` class=`nav-link`>Home</a>
                <a href=`../` class=`nav-link`>Modules</a>
                <a href=`#overview` class=`nav-link`>Overview</a>
                <a href=`#features` class=`nav-link`>Features</a>
                <a href=`#api` class=`nav-link`>API</a>
                <a href=`https://github.com/GlobalSushrut/PARVYOM-metanode` class=`nav-link github-link` target=`_blank`>
                    <i class=`fab fa-github`></i> GitHub
                </a>
            </div>
        </div>
    </nav>

    <!-- Hero Section -->
    <section class=`hero module-hero`>
        <div class=`container`>
            <div class=`hero-content`>
                <div class=`module-icon " ++
  category module_info ++
  lit "-icon large`>
                    <i class=`" ++
  icon module_info ++
  lit "`></i>
                </div>
                <h1>" ++
  title module_info ++
  lit "</h1>
                <p>" ++
  description module_info ++
  lit "</p>
                <div class=`hero-badges`>
                    <span class=`badge production`>Production Ready</span>
                    <span class=`badge security`>Enterprise Grade</span>
                    <span class=`badge performance`>High Performance</span>
                </div>
            </div>
        </div>
    </section>

    <!-- Overview Section -->
    <section id=`overview` class=`content-section`>
        <div class=`container`>
            <h2>System Overview</h2>
            <div class=`overview-content`>
                ".

Definition page_overview_to_features : str :=
  lit "
            </div>
        </div>
    </section>

    <!-- Features Section -->
    <section id=`features` class=`features-section`>
        <div class=`container`>
            <h2>Key Features</h2>
            <div class=`features-content`>
                ".

Definition page_features_to_api : str :=
  lit "
            </div>
        </div>
    </section>

    <!-- API Section -->
    <section id=`api` class=`api-section`>
        <div class=`container`>
            <h2>API Reference</h2>
            <div class=`api-content`>
                ".

Definition page_after_api : str :=
  lit "
            </div>
        </div>
    </section>

    <!-- Footer -->
    <footer class=`footer`>
        <div class=`container`>
            <div class=`footer-content`>
                <div class=`footer-section`>
                    <h3>PARVYOM Metanode</h3>
                    <p>Revolutionary enterprise blockchain infrastructure with AI, IoT, and quantum-safe security.</p>
                </div>
                <div class=`footer-section`>
                    <h4>Documentation</h4>
                    <ul>
                        <li><a href=`../../`>Overview</a></li>
                        <li><a href=`../../#architecture`>Architecture</a></li>
                        <li><a href=`../`>Modules</a></li>
                        <li><a href=`../../#deployment`>Deployment</a></li>
                    </ul>
                </div>
            </div>
            <div class=`footer-bottom`>
                <p>&copy; 2024 PARVYOM Metanode. Enterprise-grade blockchain infrastructure.</p>
            </div>
        </div>
    </footer>

    <!-- Scripts -->
    <script src=`../../assets/js/main.js`></script>
</body>
</html>".

Definition html_content (module_info : module_info)
    (overview features api_endpoints : str) : str :=
  page_upto_overview module_info ++ overview ++
  page_overview_to_features ++ features ++
  page_features_to_api ++ api_endpoints ++
  page_after_api.

(** ** The file system and the console *)

Module OS.

(** A path is resolved component by component.  Symbolic links and the
    components [.] and [..] are not modelled: the program builds its paths
    from two absolute roots and plain names. *)
Abbreviation path := (list (list N)) (only parsing).

(** A regular file holds text, as [read()] returns it, or bytes that are
    not valid UTF-8.  The files form a tree: an operation looks at the
    parent or the ancestors of a path where the system call does. *)
Inductive node :=
  | Dir
  | File (data : option str).

(** The exceptions of a run.  The first five are raised for what the
    files show.  The others are raised for what they do not show, and only
    by the environment of [Faulty] below: a missing permission, another
    failure of the operating system such as a full disk, or any other
    exception, given by its name. *)
Inductive exn :=
  | FileExistsError
  | FileNotFoundError
  | IsADirectoryError
  | NotADirectoryError
  | UnicodeDecodeError
  | PermissionError
  | OSError
  | Other (name : str).

Record world := World {
  files : gmap path node;
  stdout : list str
}.

Inductive outcome (A : Type) :=
  | Return (a : A)
  | Raise (e : exn).

Arguments Return {A} a.
Arguments Raise {A} e.

(** A computation runs on the world and returns or raises; the world it
    leaves behind is kept in both cases. *)
Definition io (A : Type) : Type := world -> outcome A * world.

Definition ret {A} (a : A) : io A := fun w => (Return a, w).

Definition bind {A B} (m : io A) (k : A -> io B) : io B :=
  fun w =>
    match m w with
    | (Return a, w') => k a w'
    | (Raise e, w') => (Raise e, w')
    end.

(** [print(line)] *)
Definition print (line : str) : io unit :=
  fun w => (Return tt, World (files w) (stdout w ++ [line])).

Definition endswith (suffix s : str) : bool :=
  startswith (rev suffix) (rev s).

(** [os.path.join(a, b)] *)
Definition os_path_join (a b : str) : str :=
  if startswith (lit "/") b then b
  else if negb (truthy a) || endswith (lit "/") a then a ++ b
  else a ++ lit "/" ++ b.

(** The components of a path string, split at [/], the empty ones
    dropped.  This is how the system resolves the paths the driver
    builds, which are absolute and made of plain names; the statements
    about files are made on such paths only. *)
Definition components (p : str) : path :=
  List.filter truthy (split (lit "/") p).

(** The node a path resolves to; the root is a directory. *)
Definition stat (f : gmap path node) (p : path) : option node :=
  match p with
  | [] => Some Dir
  | _ :: _ => f !! p
  end.

Definition parent (p : path) : path := removelast p.

End OS.

Import OS.

Declare Scope io_scope.
Delimit Scope io_scope with io.
Notation "'do' x <- m ; k" := (bind m (fun x => k))
  (at level 10, x name, m at level 100, k at level 200, only parsing)
  : io_scope.
Notation "m ;; k" := (bind m (fun _ => k))
  (at level 100, k at level 200, only parsing, right associativity)
  : io_scope.
Local Open Scope io_scope.

(** The calls of the operating system, as they go when nothing fails
    beyond what the files show.  [Faulty] below gives the same calls under
    an environment that fails them. *)

(** [os.path.exists(name)] *)
Definition os_path_exists (name : str) : io bool :=
  fun w =>
    (Return (truthy name &&
             match stat (files w) (components name) with
             | Some _ => true
             | None => false
             end), w).

(** [os.makedirs(name, exist_ok=True)] creates the missing directories
    from the root downwards.  A regular file in the way raises
    [FileExistsError] when it is the last component and
    [NotADirectoryError] otherwise. *)
Fixpoint makedirs_walk (above below : path) (f : gmap path node)
    : outcome unit * gmap path node :=
  match below with
  | [] => (Return tt, f)
  | c :: below' =>
      let p := above ++ [c] in
      match f !! p with
      | Some Dir => makedirs_walk p below' f
      | Some (File _) =>
          (Raise match below' with
                 | [] => FileExistsError
                 | _ :: _ => NotADirectoryError
                 end, f)
      | None => makedirs_walk p below' (<[p := Dir]> f)
      end
  end.

Definition os_makedirs (name : str) : io unit :=
  fun w =>
    let '(r, f) := makedirs_walk [] (components name) (files w) in
    (r, World f (stdout w)).

(** [open(name, 'r', encoding='utf-8')] followed by [f.read()] *)
Definition read_text (name : str) : io str :=
  fun w =>
    match stat (files w) (components name) with
    | Some (File (Some text)) => (Return text, w)
    | Some (File None) => (Raise UnicodeDecodeError, w)
    | Some Dir => (Raise IsADirectoryError, w)
    | None => (Raise FileNotFoundError, w)
    end.

(** [open(name, 'w', encoding='utf-8')] followed by [f.write(text)]: the
    file is created or overwritten.  Here the call fails only before it
    changes anything; a writing that fails after the file was opened, and
    so created or truncated, is the [write_fault] of [Faulty]. *)
Definition write_text (name : str) (text : str) : io unit :=
  fun w =>
    let p := components name in
    match stat (files w) p with
    | Some Dir => (Raise IsADirectoryError, w)
    | _ =>
        match stat (files w) (parent p) with
        | Some Dir =>
            (Return tt, World (<[p := File (Some text)]> (files w)) (stdout w))
        | Some (File _) => (Raise NotADirectoryError, w)
        | None => (Raise FileNotFoundError, w)
        end
    end.

(** ** Page generation and the driver *)

Section Generator.

Variable to_upper_full : char -> str.

(** The page for a document text: the part of [create_module_page] after
    the README has been read. *)
Definition page_of_content (module_info : module_info) (content : str) : str :=
  let overview := extract_overview content in
  let features := extract_features content in
  let api_endpoints := extract_api_endpoints to_upper_full content in
  html_content module_info overview features api_endpoints.

Definition create_module_page (folder_name : str) (module_info : module_info)
    (doc_path : str) : io str :=
  let readme_path := os_path_join doc_path (lit "README.md") in
  do readme_exists <- os_path_exists readme_path;
  do content <- (if readme_exists : bool then read_text readme_path else ret []);
  ret (page_of_content module_info content).

Definition docs_dir : str := lit "/home/umesh/documentation".
Definition output_dir : str := lit "/home/umesh/metanode/docs/modules".

Definition generated_line (module_info : module_info) : str :=
  [9989%N] ++ lit " Generated: " ++ title module_info.

Definition missing_line (folder_name : str) : str :=
  [9888%N; 65039%N] ++ lit "  Missing: " ++ folder_name.

Definition summary_line (generated_count : nat) : str :=
  [127881%N] ++ lit " Generated " ++ lit (pretty generated_count)
  ++ lit " module pages successfully!".

(** The loop of [main] over the items of the table. *)
Fixpoint generate_modules (table : list (str * module_info))
    (generated_count : nat) : io nat :=
  match table with
  | [] => ret generated_count
  | (folder_name, module_info) :: table' =>
      let doc_path := os_path_join docs_dir folder_name in
      do doc_exists <- os_path_exists doc_path;
      if doc_exists : bool then
        let module_dir :=
          os_path_join output_dir (replace (lit "-") (lit "-") folder_name) in
        os_makedirs module_dir ;;
        do html <- create_module_page folder_name module_info doc_path;
        let output_file := os_path_join module_dir (lit "index.html") in
        write_text output_file html ;;
        print (generated_line module_info) ;;
        generate_modules table' (generated_count + 1)
      else
        print (missing_line folder_name) ;;
        generate_modules table' generated_count
  end.

Definition rule : str := List.repeat 61%N 50.

(** [main], with the table it iterates over as an argument. *)
Definition main_on (table : list (str * module_info)) : io unit :=
  print ([128640%N] ++ lit " PARVYOM Metanode Module Page Generator") ;;
  print rule ;;
  do generated_count <- generate_modules table 0;
  print rule ;;
  print (summary_line generated_count) ;;
  print ([128203%N] ++ lit " Next steps:") ;;
  print (lit "   1. Review generated pages") ;;
  print (lit "   2. Commit and push to GitHub Pages") ;;
  print (lit "   3. Test on live website").

Definition main : io unit := main_on MODULE_MAPPING.

End Generator.

(** ** Vocabulary of the statements *)

(** [sub] occurs in [s] as a contiguous substring. *)
Definition occurs_in (sub s : str) : Prop :=
  exists pre post, s = pre ++ sub ++ post.

(** The first occurrence of [sub] in [s] starts right after [pre]. *)
Definition first_after (pre sub s : str) : Prop :=
  (exists post, s = pre ++ sub ++ post) /\
  forall pre' post', s = pre' ++ sub ++ post' -> (length pre <= length pre')%nat.

Definition starts_with (prefix s : str) : Prop :=
  exists rest, s = prefix ++ rest.

(** No line of [text] is a level-2 or level-3 header line. *)
Definition no_heading_lines (text : str) : Prop :=
  Forall (fun line => ~ starts_with (lit "### ") line
                      /\ ~ starts_with (lit "## ") line)
         (split NL text).

(** What the paragraph loop does to a paragraph [p], giving [o]. *)
Definition paragraph_rule (p o : str) : Prop :=
  (strip p <> [] -> ~ starts_with (lit "<") p ->
     o = lit "<p>" ++ strip p ++ lit "</p>")
  /\ (starts_with (lit "<") p -> o = p)
  /\ (strip p = [] -> o = p).

(** What the statements assume of Python's upper-case mapping: an ASCII
    code point is mapped to one code point, a small letter to its capital
    and every other one to itself. *)
Definition ascii_faithful (to_upper_full : char -> str) : Prop :=
  forall c, (c < 128)%N -> to_upper_full c = [ascii_upper c].

(** A text of ASCII characters. *)
Definition ascii_text (s : str) : Prop := Forall (fun c => (c < 128)%N) s.

(** The end-to-end scenario of the specification. *)
Definition scenario : str :=
  lit "## Overview" ++ NL ++ lit "This system does X." ++ NL ++ NL
  ++ lit "## Other".

(** The text around the overview slot of the page template. *)
Definition overview_open : str :=
  lit "<div class=`overview-content`>
                ".

Definition overview_close : str :=
  lit "
            </div>".

(** ** Vocabulary of the driver *)

(** A plain name: non-empty and without a slash. *)
Definition simple_name (k : str) : bool :=
  truthy k && forallb (fun c => negb (N.eqb 47 c)) k.

Definition docs_path : path := components docs_dir.
Definition out_path : path := components output_dir.

(** The paths the driver touches for the module [k]: its source folder,
    its README, its output directory and its page. *)
Definition src_of (k : str) : path := docs_path ++ [k].
Definition readme_of (k : str) : path := docs_path ++ [k; lit "README.md"].
Definition dir_of (k : str) : path := out_path ++ [k].
Definition page_path (k : str) : path := out_path ++ [k; lit "index.html"].

(** The directories [makedirs_walk above below] visits. *)
Fixpoint dirs_of (above below : path) : list path :=
  match below with
  | [] => []
  | c :: below' => (above ++ [c]) :: dirs_of (above ++ [c]) below'
  end.

Definition dirs (k : str) : list path := dirs_of [] (dir_of k).

Definition has_source (f : gmap path node) (k : str) : bool :=
  match f !! src_of k with Some _ => true | None => false end.

(** The modules of a table whose source folder exists. *)
Definition with_source (f : gmap path node) (table : list (str * module_info))
    : list (str * module_info) :=
  List.filter (fun entry => has_source f entry.1) table.

(** What [create_module_page] reads: the README text, nothing when there
    is no README, or the exception of a README that cannot be read. *)
Definition readme_text (f : gmap path node) (k : str) : outcome str :=
  match f !! readme_of k with
  | None => Return []
  | Some (File (Some text)) => Return text
  | Some (File None) => Raise UnicodeDecodeError
  | Some Dir => Raise IsADirectoryError
  end.

Definition document (f : gmap path node) (k : str) : str :=
  match readme_text f k with Return text => text | Raise _ => [] end.

(** The line the loop prints for an entry of the table. *)
Definition progress_line (f : gmap path node) (entry : str * module_info) : str :=
  if has_source f entry.1 then generated_line entry.2
  else missing_line entry.1.

(** Nothing stands in the way of generating the page of [k]. *)
Definition can_generate (f : gmap path node) (k : str) : Prop :=
  (forall q, q ∈ dirs k -> f !! q = None \/ f !! q = Some Dir)
  /\ (exists text, readme_text f k = Return text)
  /\ f !! page_path k <> Some Dir.

(** The files [f1] left by generating the pages of the modules [gen],
    starting from the files [f]. *)
Definition generated (to_upper_full : char -> str) (f : gmap path node)
    (gen : list (str * module_info)) (f1 : gmap path node) : Prop :=
  (forall k info q, (k, info) ∈ gen -> q ∈ dirs k -> f1 !! q = Some Dir)
  /\ (forall k info, (k, info) ∈ gen ->
        f1 !! page_path k
        = Some (File (Some (page_of_content to_upper_full info (document f k)))))
  /\ (forall q, (forall k info, (k, info) ∈ gen -> (q ∉ dirs k) /\ q <> page_path k) ->
        f1 !! q = f !! q).

(** The body of the loop of [main] for one entry; it tells whether a page
    was generated. *)
Definition module_step (to_upper_full : char -> str) (folder_name : str)
    (module_info : module_info) : io bool :=
  let doc_path := os_path_join docs_dir folder_name in
  do doc_exists <- os_path_exists doc_path;
  if doc_exists : bool then
    let module_dir :=
      os_path_join output_dir (replace (lit "-") (lit "-") folder_name) in
    os_makedirs module_dir ;;
    do html <- create_module_page to_upper_full folder_name module_info doc_path;
    let output_file := os_path_join module_dir (lit "index.html") in
    write_text output_file html ;;
    print (generated_line module_info) ;;
    ret true
  else
    print (missing_line folder_name) ;;
    ret false.

(** The loop body on the paths of a module with a plain name: what it
    does to the files, and the line it prints. *)
Definition step_files (to_upper_full : char -> str) (k : str)
    (info : module_info) (f : gmap path node) : outcome bool * gmap path node :=
  match f !! src_of k with
  | None => (Return false, f)
  | Some _ =>
      match makedirs_walk [] (dir_of k) f with
      | (Raise e, f1) => (Raise e, f1)
      | (Return _, f1) =>
          match readme_text f1 k with
          | Raise e => (Raise e, f1)
          | Return text =>
              match f1 !! page_path k with
              | Some Dir => (Raise IsADirectoryError, f1)
              | _ =>
                  match f1 !! dir_of k with
                  | Some Dir =>
                      (Return true,
                       <[page_path k :=
                           File (Some (page_of_content to_upper_full info text))]> f1)
                  | Some (File _) => (Raise NotADirectoryError, f1)
                  | None => (Raise FileNotFoundError, f1)
                  end
              end
          end
      end
  end.

Definition step_lines (k : str) (info : module_info) (r : outcome bool)
    : list str :=
  match r with
  | Return true => [generated_line info]
  | Return false => [missing_line k]
  | Raise _ => []
  end.

(** The loop on the files: its outcome, the files it leaves and the lines
    it prints. *)
Fixpoint run_files (to_upper_full : char -> str)
    (table : list (str * module_info)) (n : nat) (f : gmap path node)
    : outcome nat * gmap path node * list str :=
  match table with
  | [] => (Return n, f, [])
  | (k, info) :: table' =>
      match step_files to_upper_full k info f with
      | (Return b, f1) =>
          let '(r, f2, lines) :=
            run_files to_upper_full table' (if b : bool then n + 1 else n)%nat f1 in
          (r, f2, step_lines k info (Return b) ++ lines)
      | (Raise e, f1) => (Raise e, f1, [])
      end
  end.

(** The lines [main] prints before and after the loop. *)
Definition opening_lines : list str :=
  [[128640%N] ++ lit " PARVYOM Metanode Module Page Generator"; rule].

Definition closing_lines (generated_count : nat) : list str :=
  [rule; summary_line generated_count; [128203%N] ++ lit " Next steps:";
   lit "   1. Review generated pages";
   lit "   2. Commit and push to GitHub Pages";
   lit "   3. Test on live website"].

(** Checks on a table: its keys are plain names, and no key occurs
    twice. *)
Fixpoint eqb_str (a b : str) : bool :=
  match a, b with
  | [], [] => true
  | x :: a', y :: b' => N.eqb x y && eqb_str a' b'
  | _, _ => false
  end.

Fixpoint distinct (keys : list str) : bool :=
  match keys with
  | [] => true
  | key :: keys' =>
      forallb (fun key' => negb (eqb_str key key')) keys' && distinct keys'
  end.

Definition well_keyed (table : list (str * module_info)) : Prop :=
  Forall (fun entry => simple_name entry.1 = true) table /\ NoDup table.*1.

(** File systems for the examples: a tree given by its path strings. *)
Definition tree (entries : list (str * node)) : gmap path node :=
  list_to_map (map (fun entry => (components entry.1, entry.2)) entries).

(** Two modules have a source folder, one of them with a README. *)
Definition two_modules : world :=
  World (tree [
    (lit "/home", Dir);
    (lit "/home/umesh", Dir);
    (lit "/home/umesh/documentation", Dir);
    (lit "/home/umesh/documentation/01-firstuse", Dir);
    (lit "/home/umesh/documentation/02-toolkit", Dir);
    (lit "/home/umesh/documentation/02-toolkit/README.md",
     File (Some (lit "# Toolkit" ++ NL ++ NL ++ lit "## Overview" ++ NL
                 ++ lit "Tools and an API." ++ NL)))
  ]) [].

(** The same, but a regular file stands where the output directory of the
    first module would be created. *)
Definition blocked : world :=
  World (tree [
    (lit "/home", Dir);
    (lit "/home/umesh", Dir);
    (lit "/home/umesh/documentation", Dir);
    (lit "/home/umesh/documentation/01-firstuse", Dir);
    (lit "/home/umesh/documentation/02-toolkit", Dir);
    (lit "/home/umesh/metanode", Dir);
    (lit "/home/umesh/metanode/docs", Dir);
    (lit "/home/umesh/metanode/docs/modules", Dir);
    (lit "/home/umesh/metanode/docs/modules/01-firstuse",
     File (Some (lit "not a directory")))
  ]) [].

(** ** Vocabulary of the further properties *)

(** What the two header substitutions of [markdown_to_html] do to one
    line. *)
Definition convert_line (line : str) : str :=
  if startswith (lit "### ") line
  then lit "<h3>" ++ drop 4 line ++ lit "</h3>"
  else if startswith (lit "## ") line
       then lit "<h2>" ++ drop 3 line ++ lit "</h2>"
       else line.

(** The text before the features slot and before the API slot of the page
    template; [overview_close] follows each of the three slots. *)
Definition features_open : str :=
  lit "<div class=`features-content`>
                ".

Definition api_open : str :=
  lit "<div class=`api-content`>
                ".

Definition ends_with (suffix s : str) : Prop :=
  exists pre, s = pre ++ suffix.

(** What stands in the way of the page of [k], and the exception it
    raises. *)
Definition blocked_by (f : gmap path node) (k : str) (e : exn) : Prop :=
  (exists d, f !! dir_of k = Some (File d) /\ e = FileExistsError)
  \/ (exists q d, q ∈ dirs k /\ q <> dir_of k /\ f !! q = Some (File d)
                  /\ e = NotADirectoryError)
  \/ (f !! readme_of k = Some Dir /\ e = IsADirectoryError)
  \/ (f !! readme_of k = Some (File None) /\ e = UnicodeDecodeError)
  \/ (f !! page_path k = Some Dir /\ e = IsADirectoryError).

(** ** The environment and its faults *)

Module Faulty.

(** A run meets more than the files show: a permission is missing, the
    disk is full, the console is closed.  The environment tells, for every
    call that reaches the operating system, whether the call fails, and
    with which exception: the [mkdir] of a path that is not a directory
    yet; opening or reading a file; opening a file for writing, which
    leaves the file as it was; writing to it and closing it, which leaves
    the file created or truncated, with whatever had been written; and a
    [print], counted by the lines on the console, which holds the lines
    of the [print]s that returned.  A call that the environment lets
    through does what the files say.  The files are what [stat] shows:
    [os.path.exists] never raises.  In one run every such call is made at
    most once for a path, and a failed call ends the run, so that faults
    given by the path lose no run. *)
Record env := Env {
  mkdir_fault : path -> option exn;
  read_fault : path -> option exn;
  open_fault : path -> option exn;
  write_fault : path -> option (exn * option str);
  print_fault : nat -> option exn
}.

(** The environment without faults. *)
Definition quiet : env :=
  Env (fun _ => None) (fun _ => None) (fun _ => None) (fun _ => None)
      (fun _ => None).

Section Faults.

Variable E : env.

(** [print(line)] *)
Definition print (line : str) : io unit :=
  fun w =>
    match print_fault E (length (stdout w)) with
    | Some e => (Raise e, w)
    | None => print line w
    end.

(** [os.makedirs(name, exist_ok=True)]: an error of the [mkdir] of an
    existing directory is swallowed, and the directories made before a
    failing [mkdir] stay. *)
Fixpoint makedirs_walk (above below : path) (f : gmap path node)
    : outcome unit * gmap path node :=
  match below with
  | [] => (Return tt, f)
  | c :: below' =>
      let p := above ++ [c] in
      match f !! p with
      | Some Dir => makedirs_walk p below' f
      | Some (File _) =>
          match mkdir_fault E p with
          | Some e => (Raise e, f)
          | None =>
              (Raise match below' with
                     | [] => FileExistsError
                     | _ :: _ => NotADirectoryError
                     end, f)
          end
      | None =>
          match mkdir_fault E p with
          | Some e => (Raise e, f)
          | None => makedirs_walk p below' (<[p := Dir]> f)
          end
      end
  end.

Definition os_makedirs (name : str) : io unit :=
  fun w =>
    let '(r, f) := makedirs_walk [] (components name) (files w) in
    (r, World f (stdout w)).

(** [open(name, 'r', encoding='utf-8')] followed by [f.read()] *)
Definition read_text (name : str) : io str :=
  fun w =>
    match read_fault E (components name) with
    | Some e => (Raise e, w)
    | None => read_text name w
    end.

(** [open(name, 'w', encoding='utf-8')] followed by [f.write(text)] and the
    closing of the file. *)
Definition write_text (name : str) (text : str) : io unit :=
  fun w =>
    let p := components name in
    match open_fault E p with
    | Some e => (Raise e, w)
    | None =>
        match write_text name text w with
        | (Raise e, w') => (Raise e, w')
        | (Return _, w') =>
            match write_fault E p with
            | Some (e, d) =>
                (Raise e, World (<[p := File d]> (files w)) (stdout w))
            | None => (Return tt, w')
            end
        end
    end.

Variable to_upper_full : char -> str.

Definition create_module_page (folder_name : str) (module_info : module_info)
    (doc_path : str) : io str :=
  let readme_path := os_path_join doc_path (lit "README.md") in
  do readme_exists <- os_path_exists readme_path;
  do content <- (if readme_exists : bool then read_text readme_path else ret []);
  ret (page_of_content to_upper_full module_info content).

(** The loop of [main] over the items of the table. *)
Fixpoint generate_modules (table : list (str * module_info))
    (generated_count : nat) : io nat :=
  match table with
  | [] => ret generated_count
  | (folder_name, module_info) :: table' =>
      let doc_path := os_path_join docs_dir folder_name in
      do doc_exists <- os_path_exists doc_path;
      if doc_exists : bool then
        let module_dir :=
          os_path_join output_dir (replace (lit "-") (lit "-") folder_name) in
        os_makedirs module_dir ;;
        do html <- create_module_page folder_name module_info doc_path;
        let output_file := os_path_join module_dir (lit "index.html") in
        write_text output_file html ;;
        print (generated_line module_info) ;;
        generate_modules table' (generated_count + 1)
      else
        print (missing_line folder_name) ;;
        generate_modules table' generated_count
  end.

(** [main], with the table it iterates over as an argument. *)
Definition main_on (table : list (str * module_info)) : io unit :=
  print ([128640%N] ++ lit " PARVYOM Metanode Module Page Generator") ;;
  print rule ;;
  do generated_count <- generate_modules table 0;
  print rule ;;
  print (summary_line generated_count) ;;
  print ([128203%N] ++ lit " Next steps:") ;;
  print (lit "   1. Review generated pages") ;;
  print (lit "   2. Commit and push to GitHub Pages") ;;
  print (lit "   3. Test on live website").

Definition main : io unit := main_on MODULE_MAPPING.

(** The body of the loop for one entry. *)
Definition module_step (folder_name : str) (module_info : module_info)
    : io bool :=
  let doc_path := os_path_join docs_dir folder_name in
  do doc_exists <- os_path_exists doc_path;
  if doc_exists : bool then
    let module_dir :=
      os_path_join output_dir (replace (lit "-") (lit "-") folder_name) in
    os_makedirs module_dir ;;
    do html <- create_module_page folder_name module_info doc_path;
    let output_file := os_path_join module_dir (lit "index.html") in
    write_text output_file html ;;
    print (generated_line module_info) ;;
    ret true
  else
    print (missing_line folder_name) ;;
    ret false.

(** The lines of a list, printed one after the other. *)
Fixpoint prints (lines : list str) : io unit :=
  match lines with
  | [] => ret tt
  | line :: lines' => print line ;; prints lines'
  end.

(** What [create_module_page] reads under the environment. *)
Definition readme_text (f : gmap path node) (k : str) : outcome str :=
  match f !! readme_of k with
  | None => Return []
  | Some _ =>
      match read_fault E (readme_of k) with
      | Some e => Raise e
      | None => readme_text f k
      end
  end.

(** The loop body on the paths of a module with a plain name, with [n]
    lines on the console: its outcome, the files it leaves and the lines
    it prints. *)
Definition step_files (k : str) (info : module_info) (f : gmap path node)
    (n : nat) : outcome bool * gmap path node * list str :=
  match f !! src_of k with
  | None =>
      match print_fault E n with
      | Some e => (Raise e, f, [])
      | None => (Return false, f, [missing_line k])
      end
  | Some _ =>
      match makedirs_walk [] (dir_of k) f with
      | (Raise e, f1) => (Raise e, f1, [])
      | (Return _, f1) =>
          match readme_text f1 k with
          | Raise e => (Raise e, f1, [])
          | Return text =>
              match open_fault E (page_path k) with
              | Some e => (Raise e, f1, [])
              | None =>
                  match f1 !! page_path k with
                  | Some Dir => (Raise IsADirectoryError, f1, [])
                  | _ =>
                      match f1 !! dir_of k with
                      | Some Dir =>
                          match write_fault E (page_path k) with
                          | Some (e, d) =>
                              (Raise e, <[page_path k := File d]> f1, [])
                          | None =>
                              let f2 :=
                                <[page_path k :=
                                    File (Some (page_of_content to_upper_full
                                                  info text))]> f1 in
                              match print_fault E n with
                              | Some e => (Raise e, f2, [])
                              | None => (Return true, f2, [generated_line info])
                              end
                          end
                      | Some (File _) => (Raise NotADirectoryError, f1, [])
                      | None => (Raise FileNotFoundError, f1, [])
                      end
                  end
              end
          end
      end
  end.

End Faults.

End Faulty.

(** ** Vocabulary of the runs under an environment *)

(** The environment fails a call of the step for [k]: the [mkdir] of a
    path on the way that is not a directory yet, the reading of the
    README, the opening of the page or the writing of it. *)
Definition faulted_by (E : Faulty.env) (f : gmap path node) (k : str)
    (e : exn) : Prop :=
  (exists q, q ∈ dirs k /\ f !! q <> Some Dir
             /\ Faulty.mkdir_fault E q = Some e)
  \/ (f !! readme_of k <> None /\ Faulty.read_fault E (readme_of k) = Some e)
  \/ Faulty.open_fault E (page_path k) = Some e
  \/ (exists d, Faulty.write_fault E (page_path k) = Some (e, d)).

(** What a run may have done to a path [q]: nothing; created it as a
    directory towards the page of a module with a source folder; or
    written the page of such a module there, unless the writing failed and
    left the file with something else. *)
Definition touched (E : Faulty.env) (to_upper_full : char -> str)
    (f f1 : gmap path node) (table : list (str * module_info)) (q : path)
    : Prop :=
  f1 !! q = f !! q
  \/ (f !! q = None /\ f1 !! q = Some Dir
      /\ exists k info, (k, info) ∈ table /\ has_source f k = true
                        /\ q ∈ dirs k)
  \/ (exists k info,
        (k, info) ∈ table /\ has_source f k = true /\ q = page_path k
        /\ (f1 !! q
            = Some (File (Some (page_of_content to_upper_full info
                                  (document f k))))
            \/ exists e d, Faulty.write_fault E q = Some (e, d)
                           /\ f1 !! q = Some (File d))).

(** All that a complete run prints. *)
Definition all_lines (f : gmap path node) (table : list (str * module_info))
    : list str :=
  opening_lines ++ map (progress_line f) table
  ++ closing_lines (length (with_source f table)).

(** Environments for the examples: nothing can be created, and the disk
    is full when the page of one module is written. *)
Fixpoint eqb_path (p q : path) : bool :=
  match p, q with
  | [], [] => true
  | a :: p', b :: q' => eqb_str a b && eqb_path p' q'
  | _, _ => false
  end.

Definition read_only : Faulty.env :=
  Faulty.Env (fun _ => Some PermissionError) (fun _ => None)
             (fun _ => Some PermissionError) (fun _ => None) (fun _ => None).

Definition disk_full_at (k : str) : Faulty.env :=
  Faulty.Env (fun _ => None) (fun _ => None) (fun _ => None)
             (fun p => if eqb_path p (page_path k)
                       then Some (OSError, Some []) else None)
             (fun _ => None).

(** ** Properties of the string operations *)

Lemma startswith_app (p r : str) : startswith p (p ++ r) = true.
Proof.
  induction p as [|a p IH]; simpl; [done|].
  by rewrite N.eqb_refl, IH.
Qed.

Lemma startswith_inv (p s : str) :
  startswith p s = true -> s = p ++ drop (length p) s.
Proof.
  revert s; induction p as [|a p IH]; intros [|b s]; simpl; try done.
  intros [Hab Hps]%andb_prop. apply N.eqb_eq in Hab as ->.
  f_equal. by apply IH.
Qed.

Lemma startswith_iff (p s : str) : startswith p s = true <-> starts_with p s.
Proof.
  split.
  - intros H. exists (drop (length p) s). by apply startswith_inv.
  - intros [r ->]. apply startswith_app.
Qed.

Lemma index_of_here (sub s : str) :
  startswith sub s = true -> index_of sub s = Some O.
Proof. destruct s; simpl; by intros ->. Qed.

Lemma index_of_app (sub pre post : str) :
  exists i, index_of sub (pre ++ sub ++ post) = Some i.
Proof.
  induction pre as [|c pre [i IH]]; simpl.
  - exists O. apply index_of_here, startswith_app.
  - destruct (startswith sub (c :: pre ++ sub ++ post)); [by exists O|].
    exists (S i). by rewrite IH.
Qed.

Lemma index_of_Some (sub s : str) (i : nat) :
  index_of sub s = Some i ->
  s = take i s ++ sub ++ drop (i + length sub) s.
Proof.
  revert i; induction s as [|c s IH]; intros i; simpl.
  - destruct (startswith sub []) eqn:E; [|done].
    intros [= <-]. apply startswith_inv in E. by rewrite E at 1.
  - destruct (startswith sub (c :: s)) eqn:E.
    + intros [= <-]. apply startswith_inv in E. by rewrite E at 1.
    + destruct (index_of sub s) as [j|]; [|done].
      intros [= <-]. simpl. f_equal. by apply IH.
Qed.

Lemma contains_occurs (sub s : str) : contains sub s = true <-> occurs_in sub s.
Proof.
  unfold contains, occurs_in. split.
  - destruct (index_of sub s) as [i|] eqn:E; [|done]. intros _.
    apply index_of_Some in E. eauto.
  - intros (pre & post & ->).
    by destruct (index_of_app sub pre post) as [i ->].
Qed.

Lemma contains_false (sub s : str) : contains sub s = false <-> ~ occurs_in sub s.
Proof.
  rewrite <- contains_occurs. by destruct (contains sub s).
Qed.

Lemma endswith_app (suffix a b : str) :
  endswith suffix b = true -> endswith suffix (a ++ b) = true.
Proof.
  unfold endswith. intros H. apply startswith_inv in H.
  rewrite rev_app_distr, H, <- app_assoc. apply startswith_app.
Qed.

Lemma endswith_inv (suffix s : str) :
  endswith suffix s = true -> exists pre, s = pre ++ suffix.
Proof.
  unfold endswith. intros H. apply startswith_inv in H.
  exists (rev (drop (length (rev suffix)) (rev s))).
  rewrite <- (rev_involutive s), H at 1.
  by rewrite rev_app_distr, rev_involutive.
Qed.

Lemma occurs_in_refl (s : str) : occurs_in s s.
Proof. exists [], []. by rewrite app_nil_r. Qed.

Lemma occurs_in_trans (a b c : str) :
  occurs_in a b -> occurs_in b c -> occurs_in a c.
Proof.
  intros (p & q & ->) (p' & q' & ->). exists (p' ++ p), (q ++ q').
  by rewrite <- !app_assoc.
Qed.

Lemma occurs_in_app_l (x p s : str) : occurs_in x s -> occurs_in x (p ++ s).
Proof. intros (a & b & ->). exists (p ++ a), b. by rewrite <- app_assoc. Qed.

Lemma occurs_in_app_r (x s q : str) : occurs_in x s -> occurs_in x (s ++ q).
Proof. intros (a & b & ->). exists a, (b ++ q). by rewrite <- !app_assoc. Qed.

(** ** The page template around the overview slot *)

Lemma page_upto_overview_open (info : module_info) :
  exists pre, page_upto_overview info = pre ++ overview_open.
Proof.
  apply endswith_inv. unfold page_upto_overview.
  repeat lazymatch goal with
         | |- endswith _ (_ ++ _) = true => apply endswith_app
         end.
  vm_compute. reflexivity.
Qed.

Lemma page_overview_to_features_close :
  exists post, page_overview_to_features = overview_close ++ post.
Proof. apply startswith_iff. vm_compute. reflexivity. Qed.

Lemma page_overview_slot (to_upper_full : char -> str) (info : module_info)
    (content : str) :
  occurs_in (overview_open ++ extract_overview content ++ overview_close)
            (page_of_content to_upper_full info content).
Proof.
  destruct (page_upto_overview_open info) as [pre Hpre].
  destruct page_overview_to_features_close as [post Hpost].
  unfold page_of_content, html_content. rewrite Hpre, Hpost.
  exists pre. eexists. rewrite <- !app_assoc. reflexivity.
Qed.

(** ** The extractors *)

(** C1, as amended: on the scenario document the section is cut from the
    marker up to the next [##], the marker itself is removed before the
    conversion, and the overview is the single paragraph
    [<p>This system does X.</p>], without any heading. *)
Theorem extract_overview_scenario :
  slice scenario 0 (find (lit "##") scenario 1)
  = lit "## Overview" ++ NL ++ lit "This system does X." ++ NL ++ NL
  /\ extract_overview scenario = lit "<p>This system does X.</p>".
Proof. split; vm_compute; reflexivity. Qed.

(** C1, as stated, fails: the overview of the scenario document is not
    [<h2>Overview</h2>] followed by the paragraph. *)
Lemma extract_overview_scenario_no_heading :
  extract_overview scenario
  <> lit "<h2>Overview</h2>" ++ NL ++ lit "<p>This system does X.</p>".
Proof. vm_compute. discriminate. Qed.

(** C3: a document without the marker [## Overview] gets the fallback
    sentence, which then stands verbatim in the overview section of the
    page. *)
Theorem extract_overview_without_marker (to_upper_full : char -> str)
    (info : module_info) (content : str) :
  ~ occurs_in overview_marker content ->
  extract_overview content = overview_fallback
  /\ occurs_in (overview_open ++ overview_fallback ++ overview_close)
               (page_of_content to_upper_full info content).
Proof.
  intros Hno. apply contains_false in Hno.
  assert (extract_overview content = overview_fallback) as E.
  { unfold extract_overview. by rewrite Hno. }
  split; [done|]. rewrite <- E. apply page_overview_slot.
Qed.

Lemma extract_overview_without_marker_witness :
  ~ occurs_in overview_marker (lit "# Notes")
  /\ extract_overview (lit "# Notes") = overview_fallback
  /\ occurs_in (overview_open ++ overview_fallback ++ overview_close)
       (page_of_content ascii_to_upper
          {| title := lit "T"; description := lit "D";
             icon := lit "I"; category := lit "C" |} (lit "# Notes")).
Proof.
  assert (~ occurs_in overview_marker (lit "# Notes")) as H.
  { apply contains_false. vm_compute. reflexivity. }
  split; [exact H|].
  exact (extract_overview_without_marker ascii_to_upper _ _ H).
Defined.

Lemma extract_api_endpoints_cases (to_upper_full : char -> str) (content : str) :
  extract_api_endpoints to_upper_full content
  = if contains (lit "API") (upper to_upper_full content)
       || contains (lit "ENDPOINT") (upper to_upper_full content)
    then api_documented else api_fallback.
Proof.
  unfold extract_api_endpoints. destruct (_ || _); vm_compute; reflexivity.
Qed.

Lemma api_documented_not_fallback : api_documented <> api_fallback.
Proof. vm_compute. discriminate. Qed.

(** On ASCII text the test is a case-insensitive search: the fragment is
    the documentation sentence exactly when some substring of the text
    reads [API] or [ENDPOINT] once its small letters are capitalised. *)
Lemma upper_ascii_map (s : str) : upper ascii_to_upper s = ascii_upper <$> s.
Proof.
  unfold upper. induction s as [|c s IH]; [done|].
  cbn [flat_map]. rewrite IH. reflexivity.
Qed.

Lemma occurs_in_upper_ascii (word content : str) :
  occurs_in word (upper ascii_to_upper content)
  <-> exists w, occurs_in w content /\ upper ascii_to_upper w = word.
Proof.
  rewrite upper_ascii_map. split.
  - intros (pre & post & (a & rest & -> & Hrest & ->)%fmap_app_inv).
    symmetry in Hrest. apply fmap_app_inv in Hrest as (w & b & -> & -> & ->).
    exists w. split; [by exists a, b | apply upper_ascii_map].
  - intros (w & (a & b & ->) & <-). rewrite !fmap_app, upper_ascii_map.
    by do 2 eexists.
Qed.

Lemma extract_api_endpoints_ascii (content : str) :
  extract_api_endpoints ascii_to_upper content = api_documented
  <-> exists w, occurs_in w content
                /\ (upper ascii_to_upper w = lit "API"
                    \/ upper ascii_to_upper w = lit "ENDPOINT").
Proof.
  rewrite extract_api_endpoints_cases.
  pose proof api_documented_not_fallback.
  split.
  - destruct (contains (lit "API") _) eqn:E1.
    + intros _. apply contains_occurs, occurs_in_upper_ascii in E1 as (w & ? & ?).
      exists w. auto.
    + destruct (contains (lit "ENDPOINT") _) eqn:E2; [|simpl; congruence].
      intros _. apply contains_occurs, occurs_in_upper_ascii in E2 as (w & ? & ?).
      exists w. auto.
  - intros (w & Hw & [E|E]).
    + assert (contains (lit "API") (upper ascii_to_upper content) = true) as ->
        by (apply contains_occurs, occurs_in_upper_ascii; eauto).
      done.
    + assert (contains (lit "ENDPOINT") (upper ascii_to_upper content) = true)
        as -> by (apply contains_occurs, occurs_in_upper_ascii; eauto).
      by rewrite orb_true_r.
Qed.

Example extract_api_endpoints_examples :
  extract_api_endpoints ascii_to_upper (lit "See the endpoint list.")
  = api_documented
  /\ extract_api_endpoints ascii_to_upper (lit "A rapid start.")
     = api_documented
  /\ extract_api_endpoints ascii_to_upper (lit "Nothing to see.")
     = api_fallback.
Proof. repeat split; vm_compute; reflexivity. Qed.

Lemma extract_features_cases (content : str) :
  extract_features content
  = if contains (lit "## Key Features") content
       || contains (lit "### Features") content
    then features_advanced else features_fallback.
Proof.
  unfold extract_features.
  by destruct (contains (lit "## Key Features") content || contains _ content).
Qed.

Lemma features_advanced_not_fallback : features_advanced <> features_fallback.
Proof. vm_compute. discriminate. Qed.

Lemma extract_features_advanced (content : str) :
  extract_features content = features_advanced
  <-> occurs_in (lit "## Key Features") content
      \/ occurs_in (lit "### Features") content.
Proof.
  rewrite extract_features_cases, <- !contains_occurs.
  pose proof features_advanced_not_fallback as Hne.
  destruct (contains (lit "## Key Features") content);
    destruct (contains (lit "### Features") content); cbn [orb];
    intuition congruence.
Qed.

Lemma extract_api_endpoints_documented (to_upper_full : char -> str)
    (content : str) :
  extract_api_endpoints to_upper_full content = api_documented
  <-> occurs_in (lit "API") (upper to_upper_full content)
      \/ occurs_in (lit "ENDPOINT") (upper to_upper_full content).
Proof.
  rewrite extract_api_endpoints_cases, <- !contains_occurs.
  pose proof api_documented_not_fallback as Hne.
  destruct (contains (lit "API") (upper to_upper_full content));
    destruct (contains (lit "ENDPOINT") (upper to_upper_full content));
    cbn [orb]; intuition congruence.
Qed.

Lemma upper_app (up : char -> str) (a b : str) :
  upper up (a ++ b) = upper up a ++ upper up b.
Proof. unfold upper. apply flat_map_app. Qed.

Lemma occurs_in_upper (up : char -> str) (x pre content post : str) :
  occurs_in x (upper up content) ->
  occurs_in x (upper up (pre ++ content ++ post)).
Proof.
  intros H. rewrite !upper_app. by apply occurs_in_app_l, occurs_in_app_r.
Qed.

Lemma upper_ascii_text (up : char -> str) (s : str) :
  Forall (fun c => up c = [ascii_upper c]) s ->
  upper up s = ascii_upper <$> s.
Proof.
  induction 1 as [|c s Hc _ IH]; [done|].
  unfold upper in *. simpl. by rewrite Hc, IH.
Qed.

(** ** Upper-casing and the case of ASCII letters *)

Lemma upper_ascii_faithful (to_upper_full : char -> str) (s : str) :
  ascii_faithful to_upper_full -> ascii_text s ->
  upper to_upper_full s = ascii_upper <$> s.
Proof.
  intros Hup Hs. apply upper_ascii_text.
  eapply Forall_impl; [exact Hs|]. intros c Hc. by apply Hup.
Qed.

Lemma ascii_upper_ascii (c : N) : (ascii_upper c < 128)%N -> (c < 128)%N.
Proof.
  unfold ascii_upper.
  destruct (N.leb_spec 97 c); destruct (N.leb_spec c 122); simpl; lia.
Qed.

Lemma ascii_word (w : str) : ascii_text (ascii_upper <$> w) -> ascii_text w.
Proof.
  unfold ascii_text. rewrite Forall_fmap. intros H.
  eapply Forall_impl; [exact H|]. intros c. apply ascii_upper_ascii.
Qed.

Lemma ascii_text_check (s : str) :
  forallb (fun c => (c <? 128)%N) s = true -> ascii_text s.
Proof.
  induction s as [|c s IH]; cbn [forallb]; [constructor|].
  intros [Hc Hs]%andb_prop. constructor; [by apply N.ltb_lt | by apply IH].
Qed.

(** Under a mapping that is faithful on ASCII, a word found in the text is
    found, capitalised, in the upper-cased text. *)
Lemma occurs_in_upper_word (to_upper_full : char -> str) (w content : str) :
  ascii_faithful to_upper_full -> ascii_text (ascii_upper <$> w) ->
  occurs_in w content ->
  occurs_in (ascii_upper <$> w) (upper to_upper_full content).
Proof.
  intros Hup Hw (a & b & ->). rewrite !upper_app.
  rewrite (upper_ascii_faithful _ w Hup) by by apply ascii_word.
  by do 2 eexists.
Qed.

Lemma ascii_words : ascii_text (lit "API") /\ ascii_text (lit "ENDPOINT").
Proof. split; apply ascii_text_check; vm_compute; reflexivity. Qed.

(** On ASCII text the upper-cased text holds a word exactly when the text
    holds one of its spellings in small and capital letters. *)
Lemma occurs_in_upper_text (to_upper_full : char -> str) (word content : str) :
  ascii_faithful to_upper_full -> ascii_text content ->
  occurs_in word (upper to_upper_full content)
  <-> exists w, occurs_in w content /\ ascii_upper <$> w = word.
Proof.
  intros Hup Hc. rewrite (upper_ascii_faithful _ _ Hup Hc), <- upper_ascii_map.
  rewrite occurs_in_upper_ascii.
  split; intros (w & Hw & E); exists w; by rewrite upper_ascii_map in *.
Qed.

(** C4: for the upper-case mapping of Python, which is faithful on ASCII,
    the API fragment is the documentation sentence exactly when the
    upper-cased text contains [API] or [ENDPOINT], and otherwise the
    fallback sentence.  The comparison ignores the case of the letters:
    every spelling of the two words in small and capital letters, found
    anywhere in the text, gives the documentation sentence, and on a text
    of ASCII characters nothing else does. *)
Theorem extract_api_endpoints_iff (to_upper_full : char -> str) (content : str) :
  ascii_faithful to_upper_full ->
  (extract_api_endpoints to_upper_full content = api_documented
   <-> occurs_in (lit "API") (upper to_upper_full content)
       \/ occurs_in (lit "ENDPOINT") (upper to_upper_full content))
  /\ (extract_api_endpoints to_upper_full content = api_documented
      \/ extract_api_endpoints to_upper_full content = api_fallback)
  /\ (forall w, occurs_in w content ->
        ascii_upper <$> w = lit "API" \/ ascii_upper <$> w = lit "ENDPOINT" ->
        extract_api_endpoints to_upper_full content = api_documented)
  /\ (ascii_text content ->
      (extract_api_endpoints to_upper_full content = api_documented
       <-> exists w, occurs_in w content
                     /\ (ascii_upper <$> w = lit "API"
                         \/ ascii_upper <$> w = lit "ENDPOINT"))).
Proof.
  intros Hup. destruct ascii_words as [Hapi Hend].
  split; [apply extract_api_endpoints_documented|]. split; [|split].
  - rewrite extract_api_endpoints_cases. destruct (_ || _); auto.
  - intros w Hw Hword. apply extract_api_endpoints_documented.
    destruct Hword as [E|E]; [left | right]; rewrite <- E;
      apply occurs_in_upper_word; try done; by rewrite E.
  - intros Hc. rewrite extract_api_endpoints_documented.
    rewrite !(occurs_in_upper_text _ _ _ Hup Hc). split.
    + intros [(w & Hw & E)|(w & Hw & E)]; exists w; auto.
    + intros (w & Hw & [E|E]); [left | right]; by exists w.
Qed.

Lemma extract_api_endpoints_iff_witness :
  let content := lit "Lists every EndPoint of the service." in
  ascii_faithful ascii_to_upper
  /\ (extract_api_endpoints ascii_to_upper content = api_documented
      <-> occurs_in (lit "API") (upper ascii_to_upper content)
          \/ occurs_in (lit "ENDPOINT") (upper ascii_to_upper content))
  /\ (extract_api_endpoints ascii_to_upper content = api_documented
      \/ extract_api_endpoints ascii_to_upper content = api_fallback)
  /\ (forall w, occurs_in w content ->
        ascii_upper <$> w = lit "API" \/ ascii_upper <$> w = lit "ENDPOINT" ->
        extract_api_endpoints ascii_to_upper content = api_documented)
  /\ (ascii_text content ->
      (extract_api_endpoints ascii_to_upper content = api_documented
       <-> exists w, occurs_in w content
                     /\ (ascii_upper <$> w = lit "API"
                         \/ ascii_upper <$> w = lit "ENDPOINT"))).
Proof.
  intros content.
  assert (ascii_faithful ascii_to_upper) as H by (intros c _; reflexivity).
  split; [exact H|].
  exact (extract_api_endpoints_iff ascii_to_upper content H).
Defined.

(** C8: on every string, the empty one included, each extractor returns a
    fragment, and the fixed fallback text is what it returns without its
    markers: [extract_overview] without [## Overview], [extract_features]
    exactly when the text holds neither [## Key Features] nor
    [### Features], and [extract_api_endpoints] exactly when the
    upper-cased text holds neither [API] nor [ENDPOINT], which on a text
    of ASCII characters means that no spelling of the two words occurs in
    it.  The extractors are functions of strings: every operation they
    use is defined on every string, so no input makes them raise. *)
Theorem extractors_total (to_upper_full : char -> str) (content : str) :
  ascii_faithful to_upper_full ->
  (occurs_in overview_marker content
   \/ extract_overview content = overview_fallback)
  /\ (extract_features content = features_advanced
      \/ extract_features content = features_fallback)
  /\ (extract_api_endpoints to_upper_full content = api_documented
      \/ extract_api_endpoints to_upper_full content = api_fallback)
  /\ extract_overview [] = overview_fallback
  /\ extract_features [] = features_fallback
  /\ extract_api_endpoints to_upper_full [] = api_fallback
  /\ (~ occurs_in overview_marker content ->
      extract_overview content = overview_fallback)
  /\ (extract_features content = features_fallback
      <-> ~ occurs_in (lit "## Key Features") content
          /\ ~ occurs_in (lit "### Features") content)
  /\ (extract_api_endpoints to_upper_full content = api_fallback
      <-> ~ occurs_in (lit "API") (upper to_upper_full content)
          /\ ~ occurs_in (lit "ENDPOINT") (upper to_upper_full content))
  /\ (ascii_text content ->
      (extract_api_endpoints to_upper_full content = api_fallback
       <-> forall w, occurs_in w content ->
                     ascii_upper <$> w <> lit "API"
                     /\ ascii_upper <$> w <> lit "ENDPOINT")).
Proof.
  intros Hup.
  assert (extract_api_endpoints to_upper_full content = api_fallback
          <-> ~ occurs_in (lit "API") (upper to_upper_full content)
              /\ ~ occurs_in (lit "ENDPOINT") (upper to_upper_full content))
    as Hapi.
  { rewrite <- !contains_false, extract_api_endpoints_cases.
    pose proof api_documented_not_fallback as Hne.
    destruct (contains (lit "API") (upper to_upper_full content));
      destruct (contains (lit "ENDPOINT") (upper to_upper_full content));
      cbn [orb]; intuition congruence. }
  split; [|split; [|split; [|split; [|split; [|split; [|split; [|split;
    [|split]]]]]]]].
  - destruct (contains overview_marker content) eqn:E.
    + left. by apply contains_occurs.
    + right. unfold extract_overview. by rewrite E.
  - rewrite extract_features_cases. destruct (_ || _); auto.
  - rewrite extract_api_endpoints_cases. destruct (_ || _); auto.
  - vm_compute. reflexivity.
  - vm_compute. reflexivity.
  - reflexivity.
  - intros H%contains_false. unfold extract_overview. by rewrite H.
  - rewrite <- !contains_false, extract_features_cases.
    pose proof features_advanced_not_fallback as Hne.
    destruct (contains (lit "## Key Features") content);
      destruct (contains (lit "### Features") content); cbn [orb];
      intuition congruence.
  - exact Hapi.
  - intros Hc. rewrite Hapi, !(occurs_in_upper_text _ _ _ Hup Hc). split.
    + intros [H1 H2] w Hw. split; intros E; [apply H1 | apply H2]; by exists w.
    + intros H. split; intros (w & Hw & E); by destruct (H w Hw).
Qed.

Lemma extractors_total_witness :
  let content := lit "# Notes" ++ NL ++ lit "Nothing is documented here." in
  ascii_faithful ascii_to_upper
  /\ (occurs_in overview_marker content
      \/ extract_overview content = overview_fallback)
  /\ (extract_features content = features_advanced
      \/ extract_features content = features_fallback)
  /\ (extract_api_endpoints ascii_to_upper content = api_documented
      \/ extract_api_endpoints ascii_to_upper content = api_fallback)
  /\ extract_overview [] = overview_fallback
  /\ extract_features [] = features_fallback
  /\ extract_api_endpoints ascii_to_upper [] = api_fallback
  /\ (~ occurs_in overview_marker content ->
      extract_overview content = overview_fallback)
  /\ (extract_features content = features_fallback
      <-> ~ occurs_in (lit "## Key Features") content
          /\ ~ occurs_in (lit "### Features") content)
  /\ (extract_api_endpoints ascii_to_upper content = api_fallback
      <-> ~ occurs_in (lit "API") (upper ascii_to_upper content)
          /\ ~ occurs_in (lit "ENDPOINT") (upper ascii_to_upper content))
  /\ (ascii_text content ->
      (extract_api_endpoints ascii_to_upper content = api_fallback
       <-> forall w, occurs_in w content ->
                     ascii_upper <$> w <> lit "API"
                     /\ ascii_upper <$> w <> lit "ENDPOINT")).
Proof.
  intros content.
  assert (ascii_faithful ascii_to_upper) as H by (intros c _; reflexivity).
  split; [exact H|].
  exact (extractors_total ascii_to_upper content H).
Defined.

(** ** Splitting and joining *)

Lemma split_go_nonempty (sep : str) (k : nat) (cur s : str) :
  split_go sep k cur s <> [].
Proof.
  revert k cur; induction s as [|c s IH]; intros [|k] cur; simpl; try done.
  destruct (startswith sep (c :: s)); [done | apply IH].
Qed.

Lemma join_cons (sep p : str) (rest : list str) :
  rest <> [] -> join sep (p :: rest) = p ++ sep ++ join sep rest.
Proof. by destruct rest. Qed.

Lemma join_split_go (sep : str) (k : nat) (cur s : str) :
  sep <> [] -> (k <= length s)%nat ->
  join sep (split_go sep k cur s) = cur ++ drop k s.
Proof.
  intros Hsep. revert k cur; induction s as [|c s IH]; intros k cur Hk.
  - destruct k; simpl in *; [by rewrite app_nil_r | lia].
  - destruct k as [|k]; simpl.
    + destruct (startswith sep (c :: s)) eqn:E.
      * rewrite join_cons by apply split_go_nonempty.
        apply startswith_inv in E.
        destruct sep as [|a sep]; [done|]. simpl in E. injection E as -> E.
        replace (length (a :: sep) - 1)%nat with (length sep)
          by (simpl; lia).
        rewrite IH.
        -- simpl. by rewrite <- E.
        -- rewrite E, length_app. lia.
      * rewrite IH by lia. by rewrite <- app_assoc.
    + apply IH. simpl in Hk. lia.
Qed.

Lemma join_split (sep s : str) : sep <> [] -> join sep (split sep s) = s.
Proof. intros H. unfold split. rewrite join_split_go by (done || lia). done. Qed.

(** A text without the first character of the separator is one piece. *)
Lemma split_go_absent (c : N) (sep cur s : str) :
  c ∉ s -> split_go (c :: sep) 0 cur s = [cur ++ s].
Proof.
  revert cur; induction s as [|x s IH]; intros cur Hc; simpl.
  - by rewrite app_nil_r.
  - apply not_elem_of_cons in Hc as [Hx Hs].
    destruct (N.eqb_spec c x) as [->|_]; [done|]. simpl.
    rewrite IH by done. by rewrite <- app_assoc.
Qed.

Lemma split_absent (c : N) (sep s : str) : c ∉ s -> split (c :: sep) s = [s].
Proof. apply split_go_absent. Qed.

Lemma split_go_char_app (c : N) (cur a b : str) :
  split_go [c] 0 cur (a ++ c :: b)
  = split_go [c] 0 cur a ++ split_go [c] 0 [] b.
Proof.
  revert cur; induction a as [|x a IH]; intros cur; simpl.
  - by rewrite N.eqb_refl.
  - destruct (N.eqb c x); simpl; by rewrite IH.
Qed.

Lemma map_heading_line_id (prefix open close : str) (lines : list str) :
  Forall (fun line => ~ starts_with prefix line) lines ->
  map (heading_line prefix open close) lines = lines.
Proof.
  induction 1 as [|line lines Hline _ IH]; simpl; [done|].
  rewrite IH. f_equal. unfold heading_line.
  destruct (startswith prefix line) eqn:E; [|done].
  by apply startswith_iff in E.
Qed.

Lemma re_sub_heading_id (prefix open close text : str) :
  Forall (fun line => ~ starts_with prefix line) (split NL text) ->
  re_sub_heading prefix open close text = text.
Proof.
  intros H. unfold re_sub_heading.
  rewrite map_heading_line_id by done. by apply join_split.
Qed.

Lemma convert_headers_id (text : str) :
  no_heading_lines text -> convert_headers text = text.
Proof.
  intros H. unfold convert_headers.
  rewrite (re_sub_heading_id (lit "### ")).
  - apply re_sub_heading_id. eapply Forall_impl; [exact H|]. by intros ? [].
  - eapply Forall_impl; [exact H|]. by intros ? [].
Qed.

Lemma re_sub_heading_line (prefix open close line : str) :
  10%N ∉ line ->
  re_sub_heading prefix open close line = heading_line prefix open close line.
Proof.
  intros H. unfold re_sub_heading, NL. by rewrite split_absent.
Qed.

Lemma split_go_char_pieces (c : N) (cur s : str) :
  c ∉ cur -> Forall (fun piece => c ∉ piece) (split_go [c] 0 cur s).
Proof.
  revert cur; induction s as [|x s IH]; intros cur Hcur; simpl.
  - by constructor.
  - destruct (N.eqb_spec c x) as [->|Hne]; simpl.
    + constructor; [done|]. apply IH, not_elem_of_nil.
    + apply IH. rewrite not_elem_of_app, list_elem_of_singleton. split; [done|].
      congruence.
Qed.

Lemma split_char_pieces (c : N) (s : str) :
  Forall (fun piece => c ∉ piece) (split [c] s).
Proof. apply split_go_char_pieces, not_elem_of_nil. Qed.

Lemma split_join_char (c : N) (pieces : list str) :
  pieces <> [] -> Forall (fun piece => c ∉ piece) pieces ->
  split [c] (join [c] pieces) = pieces.
Proof.
  intros Hne H. induction H as [|p rest Hp Hrest IH]; [done|].
  destruct rest as [|p' rest].
  - simpl. by apply split_absent.
  - rewrite join_cons by done. unfold split in *.
    change (p ++ [c] ++ join [c] (p' :: rest))
      with (p ++ c :: join [c] (p' :: rest)).
    rewrite split_go_char_app, IH by done.
    by rewrite split_go_absent.
Qed.

Lemma heading_line_no_newline (prefix open close line : str) :
  10%N ∉ open -> 10%N ∉ close -> 10%N ∉ line ->
  10%N ∉ heading_line prefix open close line.
Proof.
  intros Ho Hc Hl. unfold heading_line.
  destruct (startswith prefix line); [|done].
  rewrite !not_elem_of_app. repeat split; try done.
  intros H. apply Hl. rewrite <- (take_drop (length prefix) line).
  apply elem_of_app. by right.
Qed.

Lemma convert_line_passes (line : str) :
  heading_line (lit "## ") (lit "<h2>") (lit "</h2>")
    (heading_line (lit "### ") (lit "<h3>") (lit "</h3>") line)
  = convert_line line.
Proof.
  unfold convert_line, heading_line.
  destruct (startswith (lit "### ") line); [reflexivity|].
  reflexivity.
Qed.

Lemma html_paragraph_rule (p : str) : paragraph_rule p (html_paragraph p).
Proof.
  unfold paragraph_rule, html_paragraph.
  destruct (startswith (lit "<") p) eqn:E.
  - rewrite andb_false_r. apply startswith_iff in E. by repeat split.
  - assert (~ starts_with (lit "<") p) by (by rewrite <- startswith_iff, E).
    destruct (strip p); simpl; by repeat split.
Qed.

(** ** The converter *)

(** A text put together from literals and newline-free parts has no
    newline. *)
Ltac no_newline :=
  rewrite ?not_elem_of_app; repeat split;
  (done
   || (cbn; rewrite ?elem_of_cons, elem_of_nil; intuition discriminate)).

Lemma no_heading_lines_check (text : str) :
  forallb (fun line => negb (startswith (lit "### ") line)
                       && negb (startswith (lit "## ") line))
          (split NL text) = true ->
  no_heading_lines text.
Proof.
  unfold no_heading_lines.
  induction (split NL text) as [|line lines IH]; cbn [forallb].
  - constructor.
  - intros [[H3 H2]%andb_prop Hrest]%andb_prop. constructor; [|by apply IH].
    apply negb_true_iff in H3, H2. by rewrite <- !startswith_iff, H3, H2.
Qed.

Lemma not_elem_of_check (c : N) (s : str) :
  forallb (fun x => negb (N.eqb c x)) s = true -> c ∉ s.
Proof.
  induction s as [|x s IH]; simpl.
  - intros _. apply not_elem_of_nil.
  - intros [Hx Hs]%andb_prop. apply not_elem_of_cons. split; [|by apply IH].
    intros ->. by rewrite N.eqb_refl in Hx.
Qed.





(** C6, as amended: the output is the paragraphs joined by newlines, where
    a paragraph that is not blank and does not start with [<] is replaced
    by its trimmed text between [<p>] and [</p>], and a paragraph that
    starts with [<] or is blank (empty or whitespace only) is left as it
    is. *)
Theorem markdown_to_html_paragraphs (text : str) :
  exists outs,
    markdown_to_html text = join NL outs
    /\ Forall2 paragraph_rule (split (NL ++ NL) (convert_headers text)) outs.
Proof.
  exists (map html_paragraph (split (NL ++ NL) (convert_headers text))).
  split; [done|].
  induction (split (NL ++ NL) (convert_headers text)) as [|p ps IH]; simpl;
    constructor; [apply html_paragraph_rule | exact IH].
Qed.

(** C6, as stated, fails: a paragraph of one space is not empty and does
    not start with a tag, yet it is left unwrapped; and the text of a
    wrapped paragraph is trimmed. *)
Lemma blank_paragraph_left_unwrapped :
  let text := lit "a " ++ NL ++ NL ++ lit " " ++ NL ++ NL ++ lit "b" in
  split (NL ++ NL) (convert_headers text) = [lit "a "; lit " "; lit "b"]
  /\ markdown_to_html text
     = lit "<p>a</p>" ++ NL ++ lit " " ++ NL ++ lit "<p>b</p>".
Proof. split; vm_compute; reflexivity. Qed.

(** ** The overview section *)

Lemma index_of_first_after (pre sub s : str) :
  first_after pre sub s -> index_of sub s = Some (length pre).
Proof.
  intros [[post ->] Hmin]. induction pre as [|c pre IH].
  - simpl. apply index_of_here, startswith_app.
  - simpl. destruct (startswith sub (c :: pre ++ sub ++ post)) eqn:E.
    + apply startswith_inv in E.
      specialize (Hmin [] _ E). simpl in Hmin. lia.
    + rewrite IH; [done|]. intros pre' post' Heq.
      specialize (Hmin (c :: pre') post'). simpl in Hmin.
      rewrite Heq in Hmin. specialize (Hmin eq_refl). lia.
Qed.

Lemma spaces_no_hash (ws : str) :
  Forall (fun c => isspace c = true) ws -> 35%N ∉ ws.
Proof.
  induction 1 as [|c ws Hc _ IH]; [apply not_elem_of_nil|].
  apply not_elem_of_cons. split; [|done].
  intros <-. by vm_compute in Hc.
Qed.

Lemma index_of_hashes_skip (body rest : str) :
  35%N ∉ body ->
  index_of (lit "##") (body ++ rest)
  = (fun i => length body + i)%nat <$> index_of (lit "##") rest.
Proof.
  induction body as [|c body IH]; simpl app.
  - intros _. by destruct (index_of _ rest).
  - intros [Hc Hbody]%not_elem_of_cons.
    change (index_of (lit "##") (c :: body ++ rest))
      with (if N.eqb 35 c && startswith [35%N] (body ++ rest) then Some O
            else S <$> index_of (lit "##") (body ++ rest)).
    destruct (N.eqb_spec 35 c) as [|_]; [done|].
    rewrite IH by done. simpl. by destruct (index_of _ rest).
Qed.

Lemma index_of_hashes_after_marker (s : str) :
  index_of (lit "##") (lit "# Overview" ++ s)
  = (fun i => 10 + i)%nat <$> index_of (lit "##") s.
Proof. cbn. by destruct (index_of _ s). Qed.

Lemma replace_go_skip (old new p s : str) :
  replace_go old new (length p) (p ++ s) = replace_go old new 0 s.
Proof. induction p as [|c p IH]; simpl; [by destruct s | done]. Qed.

Lemma replace_go_here (a : N) (old new s : str) :
  replace_go (a :: old) new 0 ((a :: old) ++ s)
  = new ++ replace_go (a :: old) new 0 s.
Proof.
  simpl. rewrite N.eqb_refl, startswith_app. simpl.
  by rewrite Nat.sub_0_r, replace_go_skip.
Qed.

Lemma replace_go_absent (a : N) (old new s : str) :
  a ∉ s -> replace_go (a :: old) new 0 s = s.
Proof.
  induction s as [|x s IH]; simpl; [done|].
  intros [Hx Hs]%not_elem_of_cons.
  destruct (N.eqb_spec a x) as [->|_]; [done|]. simpl. by rewrite IH.
Qed.

Lemma lstrip_spaces (ws : str) :
  Forall (fun c => isspace c = true) ws -> lstrip ws = [].
Proof. induction 1 as [|c ws Hc _ IH]; simpl; [done|]. by rewrite Hc. Qed.

Lemma slice_middle (pre mid post : str) :
  slice (pre ++ mid ++ post) (Z.of_nat (length pre))
        (Z.of_nat (length pre + length mid)) = mid.
Proof.
  unfold slice, clamp. rewrite !length_app.
  destruct (Z.ltb_spec (Z.of_nat (length pre)) 0); [lia|].
  destruct (Z.ltb_spec (Z.of_nat (length pre + length mid)) 0); [lia|].
  rewrite !Z.min_l by lia.
  replace (Z.to_nat (Z.of_nat (length pre))) with (length pre) by lia.
  replace (Z.to_nat (_ - _)) with (length mid) by lia.
  by rewrite drop_app_length, take_app_length.
Qed.

(** The overview of a document whose first marker is followed by a body
    without [#], up to the next [##] or the end of the text. *)
Lemma extract_overview_section (pre body rest : str) :
  first_after pre overview_marker (pre ++ overview_marker ++ body ++ rest) ->
  35%N ∉ body ->
  rest = [] \/ starts_with (lit "##") rest ->
  extract_overview (pre ++ overview_marker ++ body ++ rest)
  = markdown_to_html (strip body).
Proof.
  intros Hfirst Hbody Hrest.
  set (content := pre ++ overview_marker ++ body ++ rest).
  assert (length content
          = (length pre + 11 + length body + length rest)%nat) as Hlen.
  { unfold content. rewrite !length_app.
    change (length overview_marker) with 11%nat. lia. }
  assert (find overview_marker content 0 = Z.of_nat (length pre)) as Hstart.
  { unfold find. change (0 <? 0) with false. cbv iota.
    destruct (Z.ltb_spec (Z.of_nat (length content)) 0); [lia|].
    change (drop (Z.to_nat 0) content) with content.
    by rewrite (index_of_first_after pre). }
  assert ((if find (lit "##") content (Z.of_nat (length pre) + 1) =? -1
           then Z.of_nat (length content)
           else find (lit "##") content (Z.of_nat (length pre) + 1))
          = Z.of_nat (length pre + length (overview_marker ++ body))) as Hend.
  { unfold find.
    destruct (Z.ltb_spec (Z.of_nat (length pre) + 1) 0); [lia|].
    destruct (Z.ltb_spec (Z.of_nat (length content))
                (Z.of_nat (length pre) + 1)); [lia|].
    replace (Z.to_nat (Z.of_nat (length pre) + 1))
      with (length (pre ++ [35%N])) by (rewrite length_app; simpl; lia).
    replace content
      with ((pre ++ [35%N]) ++ lit "# Overview" ++ body ++ rest)
      by (unfold content; by rewrite <- app_assoc).
    rewrite drop_app_length, index_of_hashes_after_marker,
      index_of_hashes_skip by done.
    rewrite !length_app. change (length overview_marker) with 11%nat.
    change (length (lit "# Overview")) with 10%nat.
    destruct Hrest as [->|[r ->]].
    - simpl. lia.
    - rewrite (index_of_here (lit "##")) by apply startswith_app. simpl.
      match goal with
      | |- context [?a =? -1] => destruct (Z.eqb_spec a (-1))
      end; lia. }
  unfold extract_overview.
  replace (contains overview_marker content) with true
    by (symmetry; apply contains_occurs; by do 2 eexists).
  rewrite Hstart, Hend. unfold content.
  rewrite (app_assoc overview_marker body rest), slice_middle.
  unfold replace. change overview_marker with (35%N :: lit "# Overview").
  rewrite replace_go_here, replace_go_absent by done.
  reflexivity.
Qed.

(** C10: when only whitespace stands between the first marker and the
    next [##] (or the end of the text), the overview is the empty string,
    not the fallback sentence, and the overview section of the page holds
    nothing. *)
Theorem extract_overview_blank_section (to_upper_full : char -> str)
    (info : module_info) (pre ws rest : str) :
  first_after pre overview_marker (pre ++ overview_marker ++ ws ++ rest) ->
  Forall (fun c => isspace c = true) ws ->
  rest = [] \/ starts_with (lit "##") rest ->
  extract_overview (pre ++ overview_marker ++ ws ++ rest) = []
  /\ extract_overview (pre ++ overview_marker ++ ws ++ rest)
     <> overview_fallback
  /\ occurs_in (overview_open ++ overview_close)
       (page_of_content to_upper_full info
          (pre ++ overview_marker ++ ws ++ rest)).
Proof.
  intros Hfirst Hws Hrest.
  assert (extract_overview (pre ++ overview_marker ++ ws ++ rest) = []) as E.
  { rewrite extract_overview_section by (done || by apply spaces_no_hash).
    unfold strip. by rewrite lstrip_spaces. }
  split; [done|]. split; [by rewrite E|].
  pose proof (page_overview_slot to_upper_full info
                (pre ++ overview_marker ++ ws ++ rest)) as H.
  by rewrite E in H.
Qed.

Lemma index_of_le (sub pre post : str) (i : nat) :
  index_of sub (pre ++ sub ++ post) = Some i -> (i <= length pre)%nat.
Proof.
  revert i; induction pre as [|c pre IH]; intros i; simpl.
  - rewrite index_of_here by apply startswith_app. intros [= <-]. lia.
  - destruct (startswith sub (c :: pre ++ sub ++ post)).
    + intros [= <-]. lia.
    + destruct (index_of sub (pre ++ sub ++ post)) as [j|]; [|done].
      intros [= <-]. specialize (IH j eq_refl). lia.
Qed.

Lemma first_after_check (pre sub post : str) :
  index_of sub (pre ++ sub ++ post) = Some (length pre) ->
  first_after pre sub (pre ++ sub ++ post).
Proof.
  intros H. split; [by exists post|].
  intros pre' post' Heq. rewrite Heq in H. by apply index_of_le in H.
Qed.

Lemma spaces_check (ws : str) :
  forallb isspace ws = true -> Forall (fun c => isspace c = true) ws.
Proof.
  induction ws as [|c ws IH]; cbn [forallb]; [constructor|].
  intros [Hc Hws]%andb_prop. constructor; [done | by apply IH].
Qed.

Lemma extract_overview_blank_section_witness :
  let pre := lit "# Title" ++ NL in
  let ws := NL ++ lit "  " ++ NL in
  let rest := lit "## Next" in
  let info := {| title := lit "T"; description := lit "D";
                 icon := lit "I"; category := lit "C" |} in
  first_after pre overview_marker (pre ++ overview_marker ++ ws ++ rest)
  /\ Forall (fun c => isspace c = true) ws
  /\ (rest = [] \/ starts_with (lit "##") rest)
  /\ extract_overview (pre ++ overview_marker ++ ws ++ rest) = []
  /\ extract_overview (pre ++ overview_marker ++ ws ++ rest)
     <> overview_fallback
  /\ occurs_in (overview_open ++ overview_close)
       (page_of_content ascii_to_upper info
          (pre ++ overview_marker ++ ws ++ rest)).
Proof.
  intros pre ws rest info.
  assert (first_after pre overview_marker
            (pre ++ overview_marker ++ ws ++ rest)) as H1
    by (apply first_after_check; vm_compute; reflexivity).
  assert (Forall (fun c => isspace c = true) ws) as H2
    by (apply spaces_check; vm_compute; reflexivity).
  assert (rest = [] \/ starts_with (lit "##") rest) as H3
    by (right; apply startswith_iff; vm_compute; reflexivity).
  split; [exact H1|]. split; [exact H2|]. split; [exact H3|].
  exact (extract_overview_blank_section ascii_to_upper info pre ws rest
           H1 H2 H3).
Defined.

(** ** Paths *)

Lemma components_app (a b : str) :
  components (a ++ lit "/" ++ b) = components a ++ components b.
Proof.
  unfold components, split. change (lit "/" ++ b) with (47%N :: b).
  change (lit "/") with [47%N].
  by rewrite split_go_char_app, List.filter_app.
Qed.

Lemma simple_name_inv (k : str) :
  simple_name k = true -> truthy k = true /\ 47%N ∉ k.
Proof.
  unfold simple_name. intros [H1 H2]%andb_prop. split; [done|].
  by apply not_elem_of_check.
Qed.

Lemma components_simple (k : str) : simple_name k = true -> components k = [k].
Proof.
  intros [H1 H2]%simple_name_inv. unfold components.
  change (lit "/") with [47%N]. rewrite split_absent by done.
  simpl. by rewrite H1.
Qed.

Lemma replace_same (c : N) (s : str) : replace [c] [c] s = s.
Proof.
  unfold replace. induction s as [|x s IH]; simpl; [done|].
  destruct (N.eqb_spec c x) as [->|_]; simpl; by rewrite IH.
Qed.

Lemma startswith_slash_simple (k : str) :
  simple_name k = true -> startswith (lit "/") k = false.
Proof.
  intros [H1 H2]%simple_name_inv. destruct k as [|x k]; [done|].
  apply not_elem_of_cons in H2 as [H2 _].
  change (N.eqb 47 x && true = false).
  by destruct (N.eqb_spec 47 x).
Qed.

Lemma endswith_slash_simple (a k : str) :
  simple_name k = true -> endswith (lit "/") (a ++ k) = false.
Proof.
  intros [H1 H2]%simple_name_inv.
  destruct (endswith (lit "/") (a ++ k)) eqn:E; [|done].
  apply endswith_inv in E as [pre E]. exfalso. apply H2.
  destruct k as [|x k] using rev_ind; [done|].
  rewrite app_assoc in E. apply app_inj_tail in E as [_ ->].
  apply elem_of_app. right. by apply list_elem_of_singleton.
Qed.

Lemma os_path_join_plain (a b : str) :
  truthy a = true -> endswith (lit "/") a = false ->
  startswith (lit "/") b = false ->
  os_path_join a b = a ++ lit "/" ++ b.
Proof. unfold os_path_join. by intros -> -> ->. Qed.

Lemma stat_app_cons (f : gmap path node) (p : path) (c : str) (r : path) :
  stat f (p ++ c :: r) = f !! (p ++ c :: r).
Proof. by destruct p. Qed.

Lemma truthy_app (a b : str) : truthy a = true -> truthy (a ++ b) = true.
Proof. by destruct a. Qed.

Section Module_paths.

Variable k : str.
Hypothesis k_simple : simple_name k = true.

Lemma doc_path_simple : os_path_join docs_dir k = docs_dir ++ lit "/" ++ k.
Proof.
  apply os_path_join_plain; [done | done |].
  by apply startswith_slash_simple.
Qed.

Lemma module_dir_simple :
  os_path_join output_dir (replace (lit "-") (lit "-") k)
  = output_dir ++ lit "/" ++ k.
Proof.
  change (lit "-") with [45%N]. rewrite replace_same.
  apply os_path_join_plain; [done | done |].
  by apply startswith_slash_simple.
Qed.

Lemma file_in_simple (root name : str) :
  truthy root = true -> simple_name name = true ->
  os_path_join (root ++ lit "/" ++ k) name
  = (root ++ lit "/" ++ k) ++ lit "/" ++ name.
Proof.
  intros Hroot Hname. apply os_path_join_plain.
  - by destruct root.
  - rewrite app_assoc. by apply endswith_slash_simple.
  - by apply startswith_slash_simple.
Qed.

Lemma components_src : components (docs_dir ++ lit "/" ++ k) = src_of k.
Proof.
  rewrite components_app, (components_simple k) by exact k_simple.
  unfold src_of, docs_path. reflexivity.
Qed.

Lemma components_dir : components (output_dir ++ lit "/" ++ k) = dir_of k.
Proof.
  rewrite components_app, (components_simple k) by exact k_simple.
  unfold dir_of, out_path. reflexivity.
Qed.

Lemma components_readme :
  components ((docs_dir ++ lit "/" ++ k) ++ lit "/" ++ lit "README.md")
  = readme_of k.
Proof.
  rewrite components_app, components_src. unfold src_of, readme_of.
  by rewrite <- app_assoc.
Qed.

Lemma components_page :
  components ((output_dir ++ lit "/" ++ k) ++ lit "/" ++ lit "index.html")
  = page_path k.
Proof.
  rewrite components_app, components_dir. unfold dir_of, page_path.
  by rewrite <- app_assoc.
Qed.

Lemma parent_page_path : parent (page_path k) = dir_of k.
Proof.
  unfold parent, page_path, dir_of.
  by rewrite removelast_app.
Qed.

Lemma module_step_simple (to_upper_full : char -> str) (info : module_info)
    (w : world) :
  module_step to_upper_full k info w
  = let '(r, f1) := step_files to_upper_full k info (files w) in
    (r, World f1 (stdout w ++ step_lines k info r)).
Proof.
  unfold module_step, step_files, step_lines.
  rewrite doc_path_simple, module_dir_simple, !file_in_simple by done.
  unfold bind, os_path_exists, os_makedirs, create_module_page, bind,
    os_path_exists, read_text, write_text, print, ret.
  rewrite !file_in_simple by done.
  rewrite components_src, components_dir, components_readme, components_page.
  rewrite parent_page_path.
  rewrite !truthy_app by (rewrite ?truthy_app by reflexivity; reflexivity).
  unfold readme_text, src_of, readme_of, page_path, dir_of.
  destruct w as [f out]; cbn [files stdout]. rewrite stat_app_cons.
  destruct (f !! (docs_path ++ [k])); cbn [andb files stdout];
    [|reflexivity].
  destruct (makedirs_walk [] (out_path ++ [k]) f) as [[[]|e] f1];
    cbn [files stdout]; [|by rewrite app_nil_r].
  rewrite !stat_app_cons.
  destruct (f1 !! (docs_path ++ [k; lit "README.md"])) as [[|[text|]]|] eqn:E;
    cbn [andb files stdout]; rewrite ?stat_app_cons, ?E, ?app_nil_r;
    try reflexivity.
  - cbn [files stdout]; rewrite ?stat_app_cons.
    destruct (f1 !! (out_path ++ [k; lit "index.html"])) as [[|?]|];
      [by rewrite app_nil_r| |];
      destruct (f1 !! (out_path ++ [k])) as [[|?]|];
      rewrite ?app_nil_r; reflexivity.
  - cbn [files stdout]; rewrite ?stat_app_cons.
    destruct (f1 !! (out_path ++ [k; lit "index.html"])) as [[|?]|];
      [by rewrite app_nil_r| |];
      destruct (f1 !! (out_path ++ [k])) as [[|?]|];
      rewrite ?app_nil_r; reflexivity.
Qed.

End Module_paths.

(** ** The loop, one entry at a time *)

Lemma generate_modules_cons (to_upper_full : char -> str) (k : str)
    (info : module_info) (table : list (str * module_info)) (n : nat)
    (w : world) :
  generate_modules to_upper_full ((k, info) :: table) n w
  = match module_step to_upper_full k info w with
    | (Return b, w') =>
        generate_modules to_upper_full table (if b : bool then n + 1 else n)%nat w'
    | (Raise e, w') => (Raise e, w')
    end.
Proof.
  cbn [generate_modules]. unfold module_step, bind, ret.
  destruct (os_path_exists (os_path_join docs_dir k) w) as [[[]|e] w1];
    [| |reflexivity].
  - destruct (os_makedirs _ w1) as [[[]|e] w2]; [|reflexivity].
    destruct (create_module_page _ _ _ _ w2) as [[html|e] w3]; [|reflexivity].
    destruct (write_text _ _ w3) as [[[]|e] w4]; [|reflexivity].
    destruct (print _ w4) as [[[]|e] w5]; reflexivity.
  - destruct (print _ w1) as [[[]|e] w2]; reflexivity.
Qed.

(** ** Creating directories *)

Lemma dirs_of_longer (a b : path) (q : path) :
  q ∈ dirs_of a b -> (length a < length q)%nat.
Proof.
  revert a; induction b as [|c b IH]; intros a; simpl.
  - by intros ?%elem_of_nil.
  - intros [->|H]%elem_of_cons.
    + rewrite length_app. simpl. lia.
    + apply IH in H. rewrite length_app in H. simpl in H. lia.
Qed.

Lemma dirs_of_not_above (a b : path) (c : str) :
  a ++ [c] ∉ dirs_of (a ++ [c]) b.
Proof. intros H%dirs_of_longer. lia. Qed.

Lemma makedirs_walk_effect (a b : path) (f f1 : gmap path node)
    (r : outcome unit) :
  makedirs_walk a b f = (r, f1) ->
  forall q, f1 !! q = f !! q
            \/ (q ∈ dirs_of a b /\ f !! q = None /\ f1 !! q = Some Dir).
Proof.
  revert a f; induction b as [|c b IH]; intros a f; simpl.
  - intros [= <- <-] q. by left.
  - destruct (f !! (a ++ [c])) as [[|data]|] eqn:E.
    + intros H q. destruct (IH _ _ H q) as [?|(? & ? & ?)]; [by left|].
      right. by rewrite elem_of_cons; auto.
    + intros [= <- <-] q. by left.
    + intros H q. destruct (decide (q = a ++ [c])) as [->|Hq].
      * destruct (IH _ _ H (a ++ [c])) as [E1|(_ & E1 & _)].
        -- rewrite lookup_insert_eq in E1. right.
           by rewrite elem_of_cons; auto.
        -- by rewrite lookup_insert_eq in E1.
      * destruct (IH _ _ H q) as [E1|(? & E1 & ?)];
          rewrite lookup_insert_ne in E1 by done; [by left|].
        right. by rewrite elem_of_cons; auto.
Qed.

Lemma makedirs_walk_Return (a b : path) (f f1 : gmap path node) :
  makedirs_walk a b f = (Return tt, f1) ->
  forall q, q ∈ dirs_of a b ->
            f1 !! q = Some Dir /\ (f !! q = None \/ f !! q = Some Dir).
Proof.
  revert a f; induction b as [|c b IH]; intros a f; simpl.
  - by intros _ q ?%elem_of_nil.
  - destruct (f !! (a ++ [c])) as [[|data]|] eqn:E; [| done |].
    + intros H q [->|Hq]%elem_of_cons; [|by eapply IH].
      destruct (makedirs_walk_effect _ _ _ _ _ H (a ++ [c]))
        as [E1|(?%dirs_of_not_above & _)]; [|done].
      rewrite E1. auto.
    + intros H q [->|Hq]%elem_of_cons.
      * destruct (makedirs_walk_effect _ _ _ _ _ H (a ++ [c]))
          as [E1|(?%dirs_of_not_above & _)]; [|done].
        rewrite lookup_insert_eq in E1. auto.
      * destruct (IH _ _ H q Hq) as [? E1]. split; [done|].
        rewrite lookup_insert_ne in E1; [done|].
        intros <-. by apply dirs_of_not_above in Hq.
Qed.

(** Creating the directories again, on any files that agree with the
    result on the visited directories, changes nothing and ends the same
    way. *)
Lemma makedirs_walk_agree (a b : path) (f f1 : gmap path node)
    (r : outcome unit) :
  makedirs_walk a b f = (r, f1) ->
  forall F, (forall q, q ∈ dirs_of a b -> F !! q = f1 !! q) ->
            makedirs_walk a b F = (r, F).
Proof.
  revert a f; induction b as [|c b IH]; intros a f; simpl.
  - by intros [= <- <-] F _.
  - intros H F HF.
    assert (F !! (a ++ [c]) = f1 !! (a ++ [c])) as EF
      by (apply HF, elem_of_cons; auto).
    assert (forall q, q ∈ dirs_of (a ++ [c]) b -> F !! q = f1 !! q) as HF'
      by (intros q Hq; apply HF, elem_of_cons; auto).
    destruct (f !! (a ++ [c])) as [[|data]|] eqn:E.
    + destruct (makedirs_walk_effect _ _ _ _ _ H (a ++ [c]))
        as [E1|(?%dirs_of_not_above & _)]; [|done].
      rewrite EF, E1, E. by eapply IH.
    + injection H as <- <-. by rewrite EF, E.
    + destruct (makedirs_walk_effect _ _ _ _ _ H (a ++ [c]))
        as [E1|(?%dirs_of_not_above & _)]; [|done].
      rewrite lookup_insert_eq in E1. rewrite EF, E1. by eapply IH.
Qed.

Lemma makedirs_walk_succeeds (a b : path) (f : gmap path node) :
  (forall q, q ∈ dirs_of a b -> f !! q = None \/ f !! q = Some Dir) ->
  exists f1, makedirs_walk a b f = (Return tt, f1).
Proof.
  revert a f; induction b as [|c b IH]; intros a f Hf; simpl.
  - by eexists.
  - assert (a ++ [c] ∈ dirs_of a (c :: b)) as Hin by (simpl; apply elem_of_cons; auto).
    destruct (Hf _ Hin) as [E|E]; rewrite E.
    + apply IH. intros q Hq. rewrite lookup_insert_ne.
      * apply Hf. simpl. apply elem_of_cons; auto.
      * intros <-. by apply dirs_of_not_above in Hq.
    + apply IH. intros q Hq. apply Hf. simpl. apply elem_of_cons; auto.
Qed.

(** ** The paths of different modules *)

Ltac paths_differ :=
  let H := fresh in
  intros H; vm_compute in H;
  repeat first
    [ discriminate H
    | by apply elem_of_nil in H
    | apply (proj1 (elem_of_cons _ _ _)) in H;
      destruct H as [H|H]; [discriminate H|] ].

Lemma src_not_dir (k k' : str) : src_of k ∉ dirs k'.
Proof. paths_differ. Qed.

Lemma src_not_page (k k' : str) : src_of k <> page_path k'.
Proof. paths_differ. Qed.

Lemma readme_not_dir (k k' : str) : readme_of k ∉ dirs k'.
Proof. paths_differ. Qed.

Lemma readme_not_page (k k' : str) : readme_of k <> page_path k'.
Proof. paths_differ. Qed.

Lemma page_not_dir (k k' : str) : page_path k ∉ dirs k'.
Proof. paths_differ. Qed.

Lemma page_path_inj (k k' : str) : page_path k = page_path k' -> k = k'.
Proof. unfold page_path. by intros [= ->]%app_inv_head. Qed.

Lemma dir_of_in_dirs (k : str) : dir_of k ∈ dirs k.
Proof. vm_compute. repeat constructor. Qed.

(** From here on the two roots are used through the lemmas above only. *)
#[global] Opaque docs_path out_path.

(** ** One module *)

Section Step.

Variable to_upper_full : char -> str.
Variables (k : str) (info : module_info).

Lemma step_files_skip (f : gmap path node) :
  f !! src_of k = None -> step_files to_upper_full k info f = (Return false, f).
Proof. unfold step_files. by intros ->. Qed.

(** A step only creates directories on the way to the module's output
    directory and writes the module's page. *)
Lemma step_files_effect (f f1 : gmap path node) (r : outcome bool) :
  step_files to_upper_full k info f = (r, f1) ->
  forall q, f1 !! q = f !! q
            \/ (q ∈ dirs k /\ f !! q = None /\ f1 !! q = Some Dir)
            \/ q = page_path k.
Proof.
  unfold step_files. intros H q.
  destruct (f !! src_of k); [|injection H as <- <-; by left].
  destruct (makedirs_walk [] (dir_of k) f) as [rw f'] eqn:Ew.
  pose proof (makedirs_walk_effect _ _ _ _ _ Ew q) as Hq.
  assert (f1 = f' \/ exists x, f1 = <[page_path k := x]> f') as [->|[x ->]].
  { destruct rw as [[]|e]; [|injection H as <- <-; by left].
    destruct (readme_text f' k); [|injection H as <- <-; by left].
    destruct (f' !! page_path k) as [[|?]|];
      [injection H as <- <-; by left | |];
      destruct (f' !! dir_of k) as [[|?]|]; injection H as <- <-; eauto. }
  - tauto.
  - destruct (decide (q = page_path k)) as [->|Hne]; [by auto|].
    rewrite lookup_insert_ne by done. tauto.
Qed.

Lemma step_files_Return (f f1 : gmap path node) (b : bool) :
  f !! src_of k <> None ->
  step_files to_upper_full k info f = (Return b, f1) ->
  b = true
  /\ can_generate f k
  /\ (forall q, q ∈ dirs k -> f1 !! q = Some Dir)
  /\ f1 !! page_path k
     = Some (File (Some (page_of_content to_upper_full info (document f k))))
  /\ (forall q, q ∉ dirs k -> q <> page_path k -> f1 !! q = f !! q).
Proof.
  unfold step_files. intros Hsrc H.
  destruct (f !! src_of k); [clear Hsrc|done].
  destruct (makedirs_walk [] (dir_of k) f) as [[[]|e] f'] eqn:Ew; [|done].
  assert (forall q, q ∉ dirs k -> f' !! q = f !! q) as Hsame.
  { intros q Hq.
    by destruct (makedirs_walk_effect _ _ _ _ _ Ew q) as [?|[? _]]. }
  assert (readme_text f' k = readme_text f k) as Hreadme.
  { unfold readme_text. by rewrite Hsame by apply readme_not_dir. }
  destruct (readme_text f' k) as [text|e] eqn:Et; [|done].
  assert (f1 = <[page_path k :=
                   File (Some (page_of_content to_upper_full info text))]> f'
          /\ b = true /\ f' !! page_path k <> Some Dir) as (-> & -> & Hpage).
  { destruct (f' !! page_path k) as [[|?]|]; [discriminate H| |];
      destruct (f' !! dir_of k) as [[|?]|];
      try discriminate H; by injection H as <- <-. }
  split; [done|]. split; [|split; [|split]].
  - split; [|split].
    + intros q Hq. exact (proj2 (makedirs_walk_Return _ _ _ _ Ew q Hq)).
    + by exists text.
    + by rewrite <- (Hsame (page_path k)) by apply page_not_dir.
  - intros q Hq. rewrite lookup_insert_ne.
    + exact (proj1 (makedirs_walk_Return _ _ _ _ Ew q Hq)).
    + intros <-. by apply page_not_dir in Hq.
  - rewrite lookup_insert_eq. unfold document. by rewrite <- Hreadme.
  - intros q Hq Hne. rewrite lookup_insert_ne by done. by apply Hsame.
Qed.

Lemma step_files_succeeds (f : gmap path node) :
  f !! src_of k <> None -> can_generate f k ->
  exists f1, step_files to_upper_full k info f = (Return true, f1).
Proof.
  unfold step_files. intros Hsrc (Hdirs & [text Htext] & Hpage).
  destruct (f !! src_of k); [clear Hsrc|done].
  destruct (makedirs_walk_succeeds [] (dir_of k) f Hdirs) as [f' Ew].
  rewrite Ew.
  assert (forall q, q ∉ dirs k -> f' !! q = f !! q) as Hsame.
  { intros q Hq.
    by destruct (makedirs_walk_effect _ _ _ _ _ Ew q) as [?|[? _]]. }
  assert (readme_text f' k = Return text) as ->.
  { rewrite <- Htext. unfold readme_text.
    by rewrite Hsame by apply readme_not_dir. }
  rewrite <- (Hsame (page_path k)) in Hpage by apply page_not_dir.
  destruct (makedirs_walk_Return _ _ _ _ Ew (dir_of k) (dir_of_in_dirs k))
    as [-> _].
  destruct (f' !! page_path k) as [[|?]|]; [done| |]; by eexists.
Qed.

(** Running a step again, on any files that agree with its result on what
    the step reads, changes nothing and ends the same way. *)
Lemma step_files_replay (f f1 : gmap path node) (r : outcome bool) :
  step_files to_upper_full k info f = (r, f1) ->
  forall F,
    F !! src_of k = f1 !! src_of k ->
    (f !! src_of k <> None ->
     forall q, q ∈ dirs k \/ q = readme_of k \/ q = page_path k ->
               F !! q = f1 !! q) ->
    step_files to_upper_full k info F = (r, F).
Proof.
  intros H F Hsrc HF.
  assert (f1 !! src_of k = f !! src_of k) as Esrc.
  { destruct (step_files_effect _ _ _ H (src_of k)) as [?|[[? _]|?]];
      [done | by apply src_not_dir in H0 | by apply src_not_page in H0]. }
  rewrite Esrc in Hsrc. revert H. unfold step_files. rewrite Hsrc.
  destruct (f !! src_of k) as [n|]; [|by intros [= <- <-]].
  specialize (HF ltac:(done)).
  destruct (makedirs_walk [] (dir_of k) f) as [rw f'] eqn:Ew.
  intros H.
  assert (f1 = f' \/ exists x, f1 = <[page_path k := x]> f') as Hf1.
  { destruct rw as [[]|e]; [|injection H as <- <-; by left].
    destruct (readme_text f' k); [|injection H as <- <-; by left].
    destruct (f' !! page_path k) as [[|?]|];
      [injection H as <- <-; by left | |];
      destruct (f' !! dir_of k) as [[|?]|]; injection H as <- <-; eauto. }
  assert (forall q, q <> page_path k -> f1 !! q = f' !! q) as Hf1'.
  { intros q Hq. destruct Hf1 as [->|[x ->]]; [done|].
    by rewrite lookup_insert_ne. }
  rewrite (makedirs_walk_agree _ _ _ _ _ Ew F).
  2:{ intros q Hq. rewrite HF by auto. apply Hf1'.
      intros ->. by apply page_not_dir in Hq. }
  destruct rw as [[]|e]; [|by injection H as <- <-].
  assert (readme_text F k = readme_text f' k) as ->.
  { unfold readme_text. rewrite HF by auto. rewrite Hf1'; [done|].
    apply readme_not_page. }
  destruct (readme_text f' k) as [text|e]; [|by injection H as <- <-].
  rewrite (HF (dir_of k)) by (left; apply dir_of_in_dirs).
  rewrite (Hf1' (dir_of k)).
  2:{ intros E. apply (page_not_dir k k). rewrite <- E. apply dir_of_in_dirs. }
  pose proof (HF (page_path k) ltac:(auto)) as HFp. rewrite HFp.
  destruct (f' !! page_path k) as [[|?]|] eqn:Ep.
  - injection H as <- <-. by rewrite Ep.
  - destruct (f' !! dir_of k) as [[|?]|]; injection H as <- <-;
      rewrite ?Ep, ?lookup_insert_eq; try done.
    rewrite lookup_insert_eq in HFp. by rewrite insert_id.
  - destruct (f' !! dir_of k) as [[|?]|]; injection H as <- <-;
      rewrite ?Ep, ?lookup_insert_eq; try done.
    rewrite lookup_insert_eq in HFp. by rewrite insert_id.
Qed.

End Step.

(** ** The whole table *)

Section Run.

Variable to_upper_full : char -> str.

Lemma run_files_effect (table : list (str * module_info)) (n : nat)
    (f f1 : gmap path node) (r : outcome nat) (lines : list str) :
  run_files to_upper_full table n f = (r, f1, lines) ->
  forall q, f1 !! q = f !! q
            \/ (f !! q = None /\ f1 !! q = Some Dir
                /\ exists k info, (k, info) ∈ table /\ q ∈ dirs k)
            \/ (exists k info, (k, info) ∈ table /\ q = page_path k).
Proof.
  revert n f f1 r lines.
  induction table as [|[k info] table IH]; intros n f f1 r lines; simpl.
  - intros [= <- <- <-] q. by left.
  - destruct (step_files to_upper_full k info f) as [[b|e] f'] eqn:Es.
    2:{ intros [= <- <- <-] q.
        destruct (step_files_effect _ _ _ _ _ _ Es q) as [?|[(? & ? & ?)|?]];
          [by left | | ].
        - right; left. repeat split; try done. exists k, info.
          split; [apply elem_of_cons; auto | done].
        - right; right. exists k, info. split; [apply elem_of_cons; auto | done]. }
    destruct (run_files to_upper_full table _ f') as [[r' f2] lines'] eqn:Er.
    intros [= <- <- <-] q.
    assert (forall k' info', (k', info') ∈ table -> (k', info') ∈ (k, info) :: table)
      as Hin by (intros; apply elem_of_cons; auto).
    destruct (step_files_effect _ _ _ _ _ _ Es q) as [E1|[(Hq & E1 & E2)|E1]].
    + destruct (IH _ _ _ _ _ Er q) as [E3|[(E3 & E4 & k' & i' & ? & ?)|(k' & i' & ? & ?)]].
      * left. congruence.
      * right; left. rewrite <- E1. repeat split; try done. exists k', i'. auto.
      * right; right. exists k', i'. auto.
    + destruct (IH _ _ _ _ _ Er q) as [E3|[(E3 & E4 & k' & i' & ? & ?)|(k' & i' & ? & ?)]].
      * right; left. repeat split; try congruence. exists k, info.
        split; [apply elem_of_cons; auto | done].
      * congruence.
      * right; right. exists k', i'. auto.
    + right; right. exists k, info. split; [apply elem_of_cons; auto | done].
Qed.

Lemma run_files_src (table : list (str * module_info)) (n : nat)
    (f f1 : gmap path node) (r : outcome nat) (lines : list str) (k : str) :
  run_files to_upper_full table n f = (r, f1, lines) ->
  f1 !! src_of k = f !! src_of k.
Proof.
  intros H.
  destruct (run_files_effect _ _ _ _ _ _ H (src_of k))
    as [?|[(_ & _ & k' & i' & _ & Hq)|(k' & i' & _ & Hq)]]; [done | |].
  - by apply src_not_dir in Hq.
  - by apply src_not_page in Hq.
Qed.

Lemma run_files_readme (table : list (str * module_info)) (n : nat)
    (f f1 : gmap path node) (r : outcome nat) (lines : list str) (k : str) :
  run_files to_upper_full table n f = (r, f1, lines) ->
  f1 !! readme_of k = f !! readme_of k.
Proof.
  intros H.
  destruct (run_files_effect _ _ _ _ _ _ H (readme_of k))
    as [?|[(_ & _ & k' & i' & _ & Hq)|(k' & i' & _ & Hq)]]; [done | |].
  - by apply readme_not_dir in Hq.
  - by apply readme_not_page in Hq.
Qed.

Lemma run_files_keeps_dir (table : list (str * module_info)) (n : nat)
    (f f1 : gmap path node) (r : outcome nat) (lines : list str)
    (k : str) (q : path) :
  run_files to_upper_full table n f = (r, f1, lines) ->
  q ∈ dirs k -> f !! q = Some Dir -> f1 !! q = Some Dir.
Proof.
  intros H Hq Hdir.
  destruct (run_files_effect _ _ _ _ _ _ H q)
    as [?|[(? & _)|(k' & i' & _ & ->)]]; [congruence | congruence |].
  by apply page_not_dir in Hq.
Qed.

Lemma run_files_keeps_page (table : list (str * module_info)) (n : nat)
    (f f1 : gmap path node) (r : outcome nat) (lines : list str) (k : str) :
  run_files to_upper_full table n f = (r, f1, lines) ->
  k ∉ table.*1 ->
  f1 !! page_path k = f !! page_path k.
Proof.
  intros H Hk.
  destruct (run_files_effect _ _ _ _ _ _ H (page_path k))
    as [?|[(_ & _ & k' & i' & _ & Hq)|(k' & i' & Hin & Hq)]]; [done | |].
  - by apply page_not_dir in Hq.
  - apply page_path_inj in Hq as ->. exfalso. apply Hk.
    apply list_elem_of_fmap. by exists (k', i').
Qed.

(** Running the loop again on the files it left changes nothing and ends
    the same way, with the same lines. *)
Lemma run_files_replay (table : list (str * module_info)) (n : nat)
    (f f1 : gmap path node) (r : outcome nat) (lines : list str) :
  NoDup table.*1 ->
  run_files to_upper_full table n f = (r, f1, lines) ->
  run_files to_upper_full table n f1 = (r, f1, lines).
Proof.
  revert n f f1 r lines.
  induction table as [|[k info] table IH]; intros n f f1 r lines Hnd; simpl.
  - by intros [= <- <- <-].
  - apply NoDup_cons in Hnd as [Hk Hnd].
    destruct (step_files to_upper_full k info f) as [[b|e] f'] eqn:Es.
    2:{ intros [= <- <- <-].
        by rewrite (step_files_replay _ _ _ _ _ _ Es f'). }
    destruct (run_files to_upper_full table _ f') as [[r' f2] lines'] eqn:Er.
    intros [= <- <- <-].
    rewrite (step_files_replay _ _ _ _ _ _ Es f2).
    + by rewrite (IH _ _ _ _ _ Hnd Er).
    + by eapply run_files_src.
    + intros Hsrc q Hq.
      destruct (step_files_Return _ _ _ _ _ _ Hsrc Es) as (_ & _ & Hd & _).
      destruct Hq as [Hq|[->| ->]].
      * rewrite (Hd q Hq). by eapply run_files_keeps_dir; [| |apply Hd].
      * by eapply run_files_readme.
      * by eapply run_files_keeps_page.
Qed.

End Run.

Section Run_result.

Variable to_upper_full : char -> str.

Lemma elem_of_with_source (f : gmap path node)
    (table : list (str * module_info)) (entry : str * module_info) :
  entry ∈ with_source f table <-> entry ∈ table /\ has_source f entry.1 = true.
Proof.
  unfold with_source. rewrite !list_elem_of_In. apply List.filter_In.
Qed.

Lemma has_source_true (f : gmap path node) (k : str) :
  has_source f k = true <-> f !! src_of k <> None.
Proof. unfold has_source. by destruct (f !! src_of k). Qed.

Section One_step.

Variables (k : str) (info : module_info) (f f' : gmap path node).
Variable r : outcome bool.
Hypothesis step : step_files to_upper_full k info f = (r, f').

Lemma step_src (k' : str) : f' !! src_of k' = f !! src_of k'.
Proof.
  destruct (step_files_effect _ _ _ _ _ _ step (src_of k'))
    as [?|[(Hq & _)|Hq]]; [done | |].
  - by apply src_not_dir in Hq.
  - by apply src_not_page in Hq.
Qed.

Lemma step_has_source (k' : str) : has_source f' k' = has_source f k'.
Proof. unfold has_source. by rewrite step_src. Qed.

Lemma step_with_source (table : list (str * module_info)) :
  with_source f' table = with_source f table.
Proof.
  unfold with_source. apply List.filter_ext. intros entry.
  apply step_has_source.
Qed.

Lemma step_readme_text (k' : str) : readme_text f' k' = readme_text f k'.
Proof.
  unfold readme_text.
  destruct (step_files_effect _ _ _ _ _ _ step (readme_of k'))
    as [->|[(Hq & _)|Hq]]; [done | |].
  - by apply readme_not_dir in Hq.
  - by apply readme_not_page in Hq.
Qed.

Lemma step_document (k' : str) : document f' k' = document f k'.
Proof. unfold document. by rewrite step_readme_text. Qed.

Lemma step_page (k' : str) : k' <> k -> f' !! page_path k' = f !! page_path k'.
Proof.
  intros Hne.
  destruct (step_files_effect _ _ _ _ _ _ step (page_path k'))
    as [?|[(Hq & _)|Hq]]; [done | |].
  - by apply page_not_dir in Hq.
  - by apply page_path_inj in Hq.
Qed.

Lemma step_can_generate (k' : str) :
  k' <> k -> can_generate f' k' <-> can_generate f k'.
Proof.
  intros Hne. unfold can_generate.
  rewrite step_readme_text, step_page by done.
  split; intros (Hd & Ht & Hp); (split; [|done]); intros q Hq;
    (destruct (step_files_effect _ _ _ _ _ _ step q)
      as [E|[(_ & E1 & E2)|E]];
     [ | | subst q; by apply page_not_dir in Hq]).
  - rewrite <- E. auto.
  - auto.
  - rewrite E. auto.
  - auto.
Qed.

End One_step.

Lemma run_files_Return (table : list (str * module_info)) (n m : nat)
    (f f1 : gmap path node) (lines : list str) :
  NoDup table.*1 ->
  run_files to_upper_full table n f = (Return m, f1, lines) ->
  m = (n + length (with_source f table))%nat
  /\ (forall k info, (k, info) ∈ with_source f table -> can_generate f k)
  /\ generated to_upper_full f (with_source f table) f1
  /\ lines = map (progress_line f) table.
Proof.
  revert n m f f1 lines.
  induction table as [|[k info] table IH]; intros n m f f1 lines Hnd; simpl.
  - intros [= <- <- <-]. split; [lia|]. split; [by intros ? ? ?%elem_of_nil|].
    split; [|done]. split; [|split];
      [by intros ? ? ? ?%elem_of_nil | by intros ? ? ?%elem_of_nil | done].
  - apply NoDup_cons in Hnd as [Hk Hnd]. cbn [fst] in Hk.
    destruct (step_files to_upper_full k info f) as [[b|e] f'] eqn:Es; [|done].
    destruct (run_files to_upper_full table _ f') as [[r' f2] lines'] eqn:Er.
    intros [= -> <- <-].
    destruct (IH _ _ _ _ _ Hnd Er) as (Hm & Hcan & (Gd & Gp & Go) & Hlines).
    rewrite (step_with_source _ _ _ _ _ Es) in Hm, Hcan, Gd, Gp, Go.
    assert (forall k' info', (k', info') ∈ with_source f table -> k' <> k) as Hne.
    { intros k' info' [Hin _]%elem_of_with_source ->. apply Hk.
      apply list_elem_of_fmap. by exists (k, info'). }
    assert (map (progress_line f') table = map (progress_line f) table) as El.
    { apply map_ext. intros entry. unfold progress_line.
      by rewrite (step_has_source _ _ _ _ _ Es). }
    rewrite El in Hlines. unfold progress_line at 1. cbn [fst snd].
    destruct (has_source f k) eqn:Hsrc.
    + apply has_source_true in Hsrc.
      destruct (step_files_Return _ _ _ _ _ _ Hsrc Es)
        as (-> & Hgen & Hd & Hp & Ho).
      split; [simpl; lia|]. split; [|split].
      * intros k' info' [[= -> ->]|Hin]%elem_of_cons; [done|].
        apply (step_can_generate _ _ _ _ _ Es); [by eapply Hne | by eapply Hcan].
      * split; [|split].
        -- intros k' info' q [[= -> ->]|Hin]%elem_of_cons Hq.
           ++ eapply run_files_keeps_dir; [exact Er | exact Hq | by apply Hd].
           ++ by eapply Gd.
        -- intros k' info' [[= -> ->]|Hin]%elem_of_cons.
           ++ by rewrite (run_files_keeps_page _ _ _ _ _ _ _ _ Er Hk).
           ++ rewrite (Gp _ _ Hin). by rewrite (step_document _ _ _ _ _ Es).
        -- intros q Hq. rewrite Go.
           ++ destruct (Hq k info) as [? ?]; [apply elem_of_cons; auto|].
              by apply Ho.
           ++ intros k' info' Hin. apply (Hq k' info'), elem_of_cons. auto.
      * simpl. by rewrite Hlines.
    + assert (f !! src_of k = None) as Hnone.
      { unfold has_source in Hsrc. by destruct (f !! src_of k). }
      rewrite (step_files_skip _ _ _ _ Hnone) in Es. injection Es as <- <-.
      split; [lia|]. split; [done|]. split; [done|].
      simpl. by rewrite Hlines.
Qed.

Lemma run_files_succeeds (table : list (str * module_info)) (n : nat)
    (f : gmap path node) :
  NoDup table.*1 ->
  (forall k info, (k, info) ∈ with_source f table -> can_generate f k) ->
  exists m f1 lines, run_files to_upper_full table n f = (Return m, f1, lines).
Proof.
  revert n f.
  induction table as [|[k info] table IH]; intros n f Hnd Hcan; simpl.
  - by do 3 eexists.
  - apply NoDup_cons in Hnd as [Hk Hnd]. cbn [fst] in Hk.
    assert (exists b f', step_files to_upper_full k info f = (Return b, f'))
      as (b & f' & Es).
    { destruct (has_source f k) eqn:Hsrc.
      - destruct (step_files_succeeds to_upper_full k info f) as [f' ?].
        + by apply has_source_true.
        + apply (Hcan k info), elem_of_with_source.
          split; [apply elem_of_cons; auto | done].
        + by exists true, f'.
      - exists false, f. apply step_files_skip.
        unfold has_source in Hsrc. by destruct (f !! src_of k). }
    rewrite Es.
    destruct (IH (if b then n + 1 else n)%nat f' Hnd) as (m & f1 & lines & ->).
    + rewrite (step_with_source _ _ _ _ _ Es). intros k' info' Hin.
      apply (step_can_generate _ _ _ _ _ Es).
      * intros ->. apply elem_of_with_source in Hin as [Hin _]. apply Hk.
        apply list_elem_of_fmap. by exists (k, info').
      * apply (Hcan k' info'). apply elem_of_with_source.
        apply elem_of_with_source in Hin as [Hin Hs].
        split; [apply elem_of_cons; auto | done].
    + by do 3 eexists.
Qed.

End Run_result.

(** ** The driver on the files *)

Lemma eqb_str_eq (a b : str) : eqb_str a b = true -> a = b.
Proof.
  revert b; induction a as [|x a IH]; intros [|y b]; simpl; try done.
  intros [Hxy Hab]%andb_prop. apply N.eqb_eq in Hxy as ->.
  f_equal. by apply IH.
Qed.

Lemma distinct_NoDup (keys : list str) : distinct keys = true -> NoDup keys.
Proof.
  induction keys as [|key keys IH]; cbn [distinct]; [constructor|].
  intros [Hkey Hkeys]%andb_prop. apply NoDup_cons. split; [|by apply IH].
  intros Hin. clear IH Hkeys.
  induction keys as [|key' keys IH]; [by apply elem_of_nil in Hin|].
  cbn [forallb] in Hkey. apply andb_prop in Hkey as [Hne Hkey].
  apply elem_of_cons in Hin as [<-|Hin]; [|by apply IH].
  assert (eqb_str key key = true) as E.
  { clear. induction key as [|x key IH]; simpl; [done|].
    by rewrite N.eqb_refl, IH. }
  by rewrite E in Hne.
Qed.

Lemma well_keyed_check (table : list (str * module_info)) :
  forallb (fun entry => simple_name entry.1) table && distinct table.*1 = true ->
  well_keyed table.
Proof.
  intros [Hs Hd]%andb_prop. split; [|by apply distinct_NoDup].
  clear Hd. induction table as [|entry table IH]; [constructor|].
  cbn [forallb] in Hs. apply andb_prop in Hs as [? ?].
  constructor; [done | by apply IH].
Qed.

Lemma MODULE_MAPPING_well_keyed : well_keyed MODULE_MAPPING.
Proof. apply well_keyed_check. vm_compute. reflexivity. Qed.

Lemma well_keyed_Permutation (table table' : list (str * module_info)) :
  Permutation table table' -> well_keyed table -> well_keyed table'.
Proof.
  intros Hp [Hs Hd]. split.
  - by rewrite <- Hp.
  - by rewrite <- Hp.
Qed.

Section Driver.

Variable to_upper_full : char -> str.

Lemma generate_modules_run (table : list (str * module_info)) (n : nat)
    (w : world) :
  Forall (fun entry => simple_name entry.1 = true) table ->
  generate_modules to_upper_full table n w
  = let '(r, f1, lines) := run_files to_upper_full table n (files w) in
    (r, World f1 (stdout w ++ lines)).
Proof.
  revert n w; induction table as [|[k info] table IH]; intros n w Hs.
  - destruct w as [f out]. simpl. unfold ret. by rewrite app_nil_r.
  - apply Forall_cons in Hs as [Hk Hs]. cbn [fst] in Hk.
    rewrite generate_modules_cons, module_step_simple by done.
    cbn [run_files].
    destruct (step_files to_upper_full k info (files w)) as [[b|e] f'].
    + rewrite IH by done. cbn [files stdout].
      destruct (run_files to_upper_full table _ f') as [[r f2] lines].
      by rewrite <- app_assoc.
    + reflexivity.
Qed.

Lemma main_on_run (table : list (str * module_info)) (w : world) :
  Forall (fun entry => simple_name entry.1 = true) table ->
  main_on to_upper_full table w
  = match run_files to_upper_full table 0 (files w) with
    | (Return m, f1, lines) =>
        (Return tt,
         World f1 (stdout w ++ opening_lines ++ lines ++ closing_lines m))
    | (Raise e, f1, lines) =>
        (Raise e, World f1 (stdout w ++ opening_lines ++ lines))
    end.
Proof.
  intros Hs. unfold main_on, bind, print. cbn [files stdout].
  rewrite generate_modules_run by done. cbn [files stdout].
  destruct (run_files to_upper_full table 0 (files w)) as [[[m|e] f1] lines];
    cbn [files stdout]; rewrite <- ?app_assoc; reflexivity.
Qed.

End Driver.

(** ** What a completed run leaves behind *)

Lemma classify_path (gen : list (str * module_info)) (q : path) :
  (exists k info, (k, info) ∈ gen /\ q = page_path k)
  \/ (exists k info, (k, info) ∈ gen /\ q ∈ dirs k)
  \/ (forall k info, (k, info) ∈ gen -> (q ∉ dirs k) /\ q <> page_path k).
Proof.
  induction gen as [|[k info] gen IH].
  - right; right. by intros ? ? ?%elem_of_nil.
  - destruct (decide (q = page_path k)) as [->|Hp].
    { left. exists k, info. split; [apply elem_of_cons; auto | done]. }
    destruct (decide (q ∈ dirs k)) as [Hd|Hd].
    { right; left. exists k, info. split; [apply elem_of_cons; auto | done]. }
    destruct IH as [(k' & i' & ? & ?)|[(k' & i' & ? & ?)|IH]].
    + left. exists k', i'. split; [apply elem_of_cons; auto | done].
    + right; left. exists k', i'. split; [apply elem_of_cons; auto | done].
    + right; right. intros k' i' [[= -> ->]|Hin]%elem_of_cons; [done|].
      by eapply IH.
Qed.

Lemma generated_unique (to_upper_full : char -> str)
    (f f1 f2 : gmap path node) (gen gen' : list (str * module_info)) :
  (forall entry, entry ∈ gen <-> entry ∈ gen') ->
  generated to_upper_full f gen f1 ->
  generated to_upper_full f gen' f2 ->
  f1 = f2.
Proof.
  intros Hiff (Gd & Gp & Go) (Gd' & Gp' & Go'). apply map_eq. intros q.
  destruct (classify_path gen q)
    as [(k & info & Hin & ->)|[(k & info & Hin & Hq)|Hnone]].
  - rewrite (Gp _ _ Hin). symmetry. by apply Gp', Hiff.
  - rewrite (Gd _ _ _ Hin Hq). symmetry. eapply Gd'; [by apply Hiff | done].
  - rewrite (Go q Hnone). symmetry. apply Go'.
    intros k info Hin. by apply (Hnone k info), Hiff.
Qed.

Lemma with_source_Permutation (f : gmap path node)
    (table table' : list (str * module_info)) (entry : str * module_info) :
  Permutation table table' ->
  entry ∈ with_source f table <-> entry ∈ with_source f table'.
Proof. intros Hp. rewrite !elem_of_with_source. by rewrite Hp. Qed.

(** C2, as amended: when the run completes, every module of the table
    whose source folder exists has its page at
    [<output_root>/<module_id>/index.html]; for every module whose source
    folder is absent the page path is left as it was, and the loop body, on
    any files without that folder, returns without raising and without
    touching a file; apart from the pages, the run only creates directories
    on the way to the output directories; and the run prints, between its
    opening lines and its closing lines, one line per module in table
    order, the success line or the warning line, and in the summary line
    the number of modules generated. *)
Theorem main_generates (to_upper_full : char -> str) (w w' : world) :
  main to_upper_full w = (Return tt, w') ->
  (forall k info, (k, info) ∈ MODULE_MAPPING -> has_source (files w) k = true ->
     files w' !! page_path k
     = Some (File (Some (page_of_content to_upper_full info
                           (document (files w) k)))))
  /\ (forall k info, (k, info) ∈ MODULE_MAPPING ->
        has_source (files w) k = false ->
        files w' !! page_path k = files w !! page_path k)
  /\ (forall k info w0, (k, info) ∈ MODULE_MAPPING ->
        has_source (files w0) k = false ->
        module_step to_upper_full k info w0
        = (Return false, World (files w0) (stdout w0 ++ [missing_line k])))
  /\ (forall q, files w' !! q <> files w !! q ->
        exists k info, (k, info) ∈ MODULE_MAPPING
                       /\ has_source (files w) k = true
                       /\ (q = page_path k
                           \/ (q ∈ dirs k /\ files w' !! q = Some Dir)))
  /\ stdout w'
     = stdout w ++ opening_lines
       ++ map (progress_line (files w)) MODULE_MAPPING
       ++ closing_lines (length (with_source (files w) MODULE_MAPPING)).
Proof.
  destruct MODULE_MAPPING_well_keyed as [Hs Hnd].
  unfold main. rewrite main_on_run by done.
  destruct (run_files to_upper_full MODULE_MAPPING 0 (files w))
    as [[[m|e] f1] lines] eqn:Er; [|done].
  intros Hw.
  assert (w' = World f1 (stdout w ++ opening_lines ++ lines
                         ++ closing_lines m)) as -> by congruence.
  clear Hw. cbn [files stdout].
  destruct (run_files_Return _ _ _ _ _ _ _ Hnd Er)
    as (-> & _ & (Gd & Gp & Go) & ->).
  split; [|split; [|split; [|split]]].
  - intros k info Hin Hsrc. apply Gp, elem_of_with_source. by split.
  - intros k info Hin Hsrc.
    apply Go. intros k' info' [Hin' Hsrc']%elem_of_with_source.
    split; [apply page_not_dir|]. intros ->%page_path_inj.
    cbn [fst] in Hsrc'. congruence.
  - intros k info w0 Hin Hsrc.
    assert (simple_name k = true) as Hk
      by (apply (proj1 (Forall_forall _ _) Hs (k, info)); done).
    rewrite (module_step_simple k Hk).
    rewrite step_files_skip; [done|].
    unfold has_source in Hsrc. by destruct (files w0 !! src_of k).
  - intros q Hq.
    destruct (classify_path (with_source (files w) MODULE_MAPPING) q)
      as [(k & info & [Hin Hsrc]%elem_of_with_source & ->)
         |[(k & info & Hin & Hd)|Hnone]].
    + exists k, info. auto.
    + exists k, info. pose proof Hin as [Hin' Hsrc]%elem_of_with_source.
      repeat split; try done. right. split; [done|]. by eapply Gd.
    + by rewrite (Go q Hnone) in Hq.
  - reflexivity.
Qed.

Lemma run_eta {A} (run : outcome A * world) (r : outcome A) :
  run.1 = r -> run = (r, run.2).
Proof. destruct run. simpl. by intros ->. Qed.

(** The page a completed run leaves for a module with a source folder. *)
Lemma main_page (to_upper_full : char -> str) (w w' : world)
    (k : str) (info : module_info) :
  main to_upper_full w = (Return tt, w') ->
  (k, info) ∈ MODULE_MAPPING -> has_source (files w) k = true ->
  files w' !! page_path k
  = Some (File (Some (page_of_content to_upper_full info
                        (document (files w) k)))).
Proof.
  destruct MODULE_MAPPING_well_keyed as [Hs Hnd].
  unfold main. rewrite main_on_run by done.
  destruct (run_files to_upper_full MODULE_MAPPING 0 (files w))
    as [[[m|e] f1] lines] eqn:Er; [|done].
  intros Hw Hin Hsrc.
  assert (files w' = f1) as -> by (injection Hw as <-; reflexivity).
  destruct (run_files_Return _ _ _ _ _ _ _ Hnd Er) as (_ & _ & (_ & Gp & _) & _).
  apply Gp, elem_of_with_source. by split.
Qed.

(** C7: running the generator again on the files the first run left, with
    nothing else changed, ends the same way, leaves every file as it is and
    prints the same lines; and two completed runs, on whatever files, that
    read the same document for a module write the same page for it.  The
    extractors and the page are functions of the document text and the
    module descriptor alone. *)
Theorem main_twice (to_upper_full : char -> str) :
  (forall w,
     main to_upper_full (World (files (main to_upper_full w).2) (stdout w))
     = main to_upper_full w)
  /\ (forall w1 w2 w1' w2' k info,
        main to_upper_full w1 = (Return tt, w1') ->
        main to_upper_full w2 = (Return tt, w2') ->
        (k, info) ∈ MODULE_MAPPING ->
        has_source (files w1) k = true -> has_source (files w2) k = true ->
        document (files w1) k = document (files w2) k ->
        files w1' !! page_path k = files w2' !! page_path k).
Proof.
  split.
  - intros w. destruct MODULE_MAPPING_well_keyed as [Hs Hnd].
    unfold main. rewrite !main_on_run by done. cbn [files stdout].
    destruct (run_files to_upper_full MODULE_MAPPING 0 (files w))
      as [[r f1] lines] eqn:Er.
    assert (files (match r with
                   | Return m =>
                       (Return tt, World f1 (stdout w ++ opening_lines ++ lines
                                             ++ closing_lines m))
                   | Raise e =>
                       (Raise e, World f1 (stdout w ++ opening_lines ++ lines))
                   end).2 = f1) as -> by (by destruct r).
    by rewrite (run_files_replay _ _ _ _ _ _ _ Hnd Er).
  - intros w1 w2 w1' w2' k info H1 H2 Hin Hs1 Hs2 Hdoc.
    rewrite (main_page _ _ _ _ _ H1 Hin Hs1), (main_page _ _ _ _ _ H2 Hin Hs2).
    by rewrite Hdoc.
Qed.

Lemma main_twice_witness :
  let w1 := two_modules in
  let w2 := World (files (main ascii_to_upper w1).2) (stdout w1) in
  let k := lit "02-toolkit" in
  let info := {| title := lit "Development Toolkit";
                 description := lit "Comprehensive development tools and utilities for PARVYOM Metanode ecosystem";
                 icon := lit "fas fa-toolbox";
                 category := lit "development" |} in
  (main ascii_to_upper w1).1 = Return tt
  /\ (main ascii_to_upper w2).1 = Return tt
  /\ (k, info) ∈ MODULE_MAPPING
  /\ has_source (files w1) k = true /\ has_source (files w2) k = true
  /\ document (files w1) k = document (files w2) k
  /\ main ascii_to_upper w2 = main ascii_to_upper w1
  /\ files (main ascii_to_upper w1).2 !! page_path k
     = files (main ascii_to_upper w2).2 !! page_path k.
Proof.
  intros w1 w2 k info.
  assert ((main ascii_to_upper w1).1 = Return tt) as H1
    by (vm_compute; reflexivity).
  assert ((main ascii_to_upper w2).1 = Return tt) as H2
    by (vm_compute; reflexivity).
  assert ((k, info) ∈ MODULE_MAPPING) as Hin
    by (vm_compute; apply list_elem_of_further, list_elem_of_here).
  assert (has_source (files w1) k = true) as Hs1 by (vm_compute; reflexivity).
  assert (has_source (files w2) k = true) as Hs2 by (vm_compute; reflexivity).
  assert (document (files w1) k = document (files w2) k) as Hdoc
    by (vm_compute; reflexivity).
  split; [exact H1|]. split; [exact H2|]. split; [exact Hin|].
  split; [exact Hs1|]. split; [exact Hs2|]. split; [exact Hdoc|]. split.
  - exact (proj1 (main_twice ascii_to_upper) w1).
  - exact (proj2 (main_twice ascii_to_upper) w1 w2
             (main ascii_to_upper w1).2 (main ascii_to_upper w2).2 k info
             (run_eta _ _ H1) (run_eta _ _ H2) Hin Hs1 Hs2 Hdoc).
Defined.

(** C9, as amended: when the run over the table completes, the run over
    any reordering of the table, from the same files, completes as well and
    leaves exactly the same files with the same contents. *)
Theorem main_on_permutation (to_upper_full : char -> str)
    (table' : list (str * module_info)) (w w' : world) :
  Permutation MODULE_MAPPING table' ->
  main_on to_upper_full MODULE_MAPPING w = (Return tt, w') ->
  exists w'', main_on to_upper_full table' w = (Return tt, w'')
              /\ files w'' = files w'.
Proof.
  intros Hp.
  pose proof MODULE_MAPPING_well_keyed as Hwk.
  pose proof (well_keyed_Permutation _ _ Hp Hwk) as [Hs' Hnd'].
  destruct Hwk as [Hs Hnd].
  rewrite !main_on_run by done.
  destruct (run_files to_upper_full MODULE_MAPPING 0 (files w))
    as [[[m|e] f1] lines] eqn:Er; [|done].
  intros [= <-]. cbn [files].
  destruct (run_files_Return _ _ _ _ _ _ _ Hnd Er) as (_ & Hcan & Hgen & _).
  destruct (run_files_succeeds to_upper_full table' 0 (files w) Hnd')
    as (m' & f1' & lines' & Er').
  { intros k info Hin. apply (Hcan k info).
    by apply (with_source_Permutation _ _ _ _ Hp). }
  rewrite Er'. eexists. split; [reflexivity|]. cbn [files].
  destruct (run_files_Return _ _ _ _ _ _ _ Hnd' Er') as (_ & _ & Hgen' & _).
  eapply generated_unique; [|exact Hgen'|exact Hgen].
  intros entry. symmetry. by apply with_source_Permutation.
Qed.

Lemma main_generates_witness :
  let w := two_modules in
  (main ascii_to_upper w).1 = Return tt
  /\ let w' := (main ascii_to_upper w).2 in
     (forall k info, (k, info) ∈ MODULE_MAPPING ->
        has_source (files w) k = true ->
        files w' !! page_path k
        = Some (File (Some (page_of_content ascii_to_upper info
                              (document (files w) k)))))
     /\ (forall k info, (k, info) ∈ MODULE_MAPPING ->
           has_source (files w) k = false ->
           files w' !! page_path k = files w !! page_path k)
     /\ (forall k info w0, (k, info) ∈ MODULE_MAPPING ->
           has_source (files w0) k = false ->
           module_step ascii_to_upper k info w0
           = (Return false, World (files w0) (stdout w0 ++ [missing_line k])))
     /\ (forall q, files w' !! q <> files w !! q ->
           exists k info, (k, info) ∈ MODULE_MAPPING
                          /\ has_source (files w) k = true
                          /\ (q = page_path k
                              \/ (q ∈ dirs k /\ files w' !! q = Some Dir)))
     /\ stdout w'
        = stdout w ++ opening_lines
          ++ map (progress_line (files w)) MODULE_MAPPING
          ++ closing_lines (length (with_source (files w) MODULE_MAPPING)).
Proof.
  intros w.
  assert ((main ascii_to_upper w).1 = Return tt) as H
    by (vm_compute; reflexivity).
  split; [exact H|].
  exact (main_generates ascii_to_upper w (main ascii_to_upper w).2
           (run_eta _ _ H)).
Defined.

(** C2, as stated, fails: the source folder of the first module exists,
    but a regular file stands at its output directory; the run stops with
    [FileExistsError], no page is written and no summary is printed. *)
Lemma blocked_run_no_page :
  has_source (files blocked) (lit "01-firstuse") = true
  /\ (main ascii_to_upper blocked).1 = Raise FileExistsError
  /\ files (main ascii_to_upper blocked).2 !! page_path (lit "01-firstuse")
     = None
  /\ stdout (main ascii_to_upper blocked).2 = opening_lines.
Proof. repeat split; vm_compute; reflexivity. Qed.

Lemma main_on_permutation_witness :
  let w := two_modules in
  Permutation MODULE_MAPPING (rev MODULE_MAPPING)
  /\ (main_on ascii_to_upper MODULE_MAPPING w).1 = Return tt
  /\ exists w'', main_on ascii_to_upper (rev MODULE_MAPPING) w = (Return tt, w'')
                 /\ files w'' = files (main_on ascii_to_upper MODULE_MAPPING w).2.
Proof.
  intros w.
  assert (Permutation MODULE_MAPPING (rev MODULE_MAPPING)) as Hp
    by apply Permutation_rev.
  assert ((main_on ascii_to_upper MODULE_MAPPING w).1 = Return tt) as H
    by (vm_compute; reflexivity).
  split; [exact Hp|]. split; [exact H|].
  exact (main_on_permutation ascii_to_upper (rev MODULE_MAPPING) w
           (main_on ascii_to_upper MODULE_MAPPING w).2 Hp (run_eta _ _ H)).
Defined.

(** C9, as stated, fails: on the blocked files the table order stops at
    the first module before anything is written, while the reversed table
    writes the page of the second module before it stops. *)
Lemma reordering_changes_files :
  Permutation MODULE_MAPPING (rev MODULE_MAPPING)
  /\ files (main_on ascii_to_upper MODULE_MAPPING blocked).2
       !! page_path (lit "02-toolkit") = None
  /\ files (main_on ascii_to_upper (rev MODULE_MAPPING) blocked).2
       !! page_path (lit "02-toolkit") <> None.
Proof.
  split; [apply Permutation_rev|]. split; vm_compute; [reflexivity | discriminate].
Qed.

(** * Further properties *)

(** ** [extract_features] *)

(** X1: [extract_features] returns the fragment for documented features
    exactly when the text contains [## Key Features] or [### Features],
    letter for letter, and the fallback fragment exactly when it contains
    neither. *)
Theorem extract_features_iff (content : str) :
  (extract_features content = features_advanced
   <-> occurs_in (lit "## Key Features") content
       \/ occurs_in (lit "### Features") content)
  /\ (extract_features content = features_fallback
      <-> ~ occurs_in (lit "## Key Features") content
          /\ ~ occurs_in (lit "### Features") content).
Proof.
  split; [apply extract_features_advanced|].
  rewrite <- !contains_false, extract_features_cases.
  pose proof features_advanced_not_fallback as Hne.
  destruct (contains (lit "## Key Features") content);
    destruct (contains (lit "### Features") content); cbn [orb];
    intuition congruence.
Qed.

(** X2: text added before or after a document never loses a finding:
    when [extract_features] or [extract_api_endpoints] reports documented
    features or a documented API for a text, it does so for every text
    that contains it. *)
Theorem found_fragments_persist (to_upper_full : char -> str)
    (pre content post : str) :
  (extract_features content = features_advanced ->
   extract_features (pre ++ content ++ post) = features_advanced)
  /\ (extract_api_endpoints to_upper_full content = api_documented ->
      extract_api_endpoints to_upper_full (pre ++ content ++ post)
      = api_documented).
Proof.
  rewrite !extract_features_advanced, !extract_api_endpoints_documented.
  split; (intros [H|H]; [left|right]);
    auto using occurs_in_app_l, occurs_in_app_r, occurs_in_upper.
Qed.

(** X3: on a text whose characters Python upper-cases like ASCII, one
    code point each, the API test is a case-insensitive substring search:
    the documented fragment is returned exactly when some substring of the
    text reads [API] or [ENDPOINT] once its small letters are capitalised,
    inside a longer word as well. *)
Theorem extract_api_endpoints_ascii_text (to_upper_full : char -> str)
    (content : str) :
  Forall (fun c => to_upper_full c = [ascii_upper c]) content ->
  extract_api_endpoints to_upper_full content = api_documented
  <-> exists w, occurs_in w content
                /\ (ascii_upper <$> w = lit "API"
                    \/ ascii_upper <$> w = lit "ENDPOINT").
Proof.
  intros H.
  assert (extract_api_endpoints to_upper_full content
          = extract_api_endpoints ascii_to_upper content) as ->.
  { rewrite !extract_api_endpoints_cases.
    by rewrite (upper_ascii_text _ _ H), upper_ascii_map. }
  rewrite extract_api_endpoints_ascii.
  split; intros (w & Hw & Hu); exists w; (split; [done|]);
    by rewrite upper_ascii_map in *.
Qed.

Lemma extract_api_endpoints_ascii_text_witness :
  let content := lit "A rapid start." in
  Forall (fun c => ascii_to_upper c = [ascii_upper c]) content
  /\ (extract_api_endpoints ascii_to_upper content = api_documented
      <-> exists w, occurs_in w content
                    /\ (ascii_upper <$> w = lit "API"
                        \/ ascii_upper <$> w = lit "ENDPOINT")).
Proof.
  intros content.
  assert (Forall (fun c => ascii_to_upper c = [ascii_upper c]) content) as H
    by (apply Forall_forall; intros c _; reflexivity).
  split; [exact H|].
  exact (extract_api_endpoints_ascii_text ascii_to_upper content H).
Defined.

(** ** Lines *)

(** X4: the two header substitutions of [markdown_to_html], run one after
    the other on the whole text, amount to one pass over its lines: a line
    that begins with [### ] becomes an [h3] heading, any other line that
    begins with [## ] an [h2] heading, and every other line is kept.  The
    second substitution never rewrites a heading the first one made. *)
Theorem convert_headers_linewise (text : str) :
  convert_headers text = join NL (map convert_line (split NL text)).
Proof.
  unfold convert_headers, re_sub_heading.
  rewrite (split_join_char 10%N).
  - rewrite map_map. f_equal. apply map_ext. intros line.
    apply convert_line_passes.
  - pose proof (split_go_nonempty NL 0 [] text) as H. unfold split.
    by destruct (split_go NL 0 [] text).
  - apply Forall_forall. intros l Hl.
    apply list_elem_of_In, List.in_map_iff in Hl as (l0 & <- & Hl0%list_elem_of_In).
    apply heading_line_no_newline; [no_newline | no_newline |].
    pose proof (split_char_pieces 10%N text) as H.
    rewrite Forall_forall in H. by apply H.
Qed.

(** ** Trimming and joining keep the text *)

Lemma lstrip_suffix (s : str) : exists ws, s = ws ++ lstrip s.
Proof.
  induction s as [|c s [ws IH]]; [by exists []|]. simpl.
  destruct (isspace c); [|by exists []].
  exists (c :: ws). simpl. by rewrite <- IH.
Qed.

Lemma rstrip_prefix (s : str) : exists ws, s = rstrip s ++ ws.
Proof.
  unfold rstrip. destruct (lstrip_suffix (rev s)) as [ws H].
  exists (rev ws). rewrite <- rev_app_distr, <- H. by rewrite rev_involutive.
Qed.

Lemma strip_occurs (s : str) : occurs_in (strip s) s.
Proof.
  unfold strip. destruct (lstrip_suffix s) as [ws H].
  destruct (rstrip_prefix (lstrip s)) as [ws' H'].
  exists ws, ws'. by rewrite <- H', <- H.
Qed.

Lemma join_occurs (sep p : str) (pieces : list str) :
  p ∈ pieces -> occurs_in p (join sep pieces).
Proof.
  induction pieces as [|p' pieces IH]; [by intros ?%elem_of_nil|].
  intros H. destruct pieces as [|p'' pieces].
  - apply list_elem_of_singleton in H as ->. apply occurs_in_refl.
  - rewrite join_cons by done. apply elem_of_cons in H as [->|H].
    + apply occurs_in_app_r, occurs_in_refl.
    + by apply occurs_in_app_l, occurs_in_app_l, IH.
Qed.

Lemma split_occurs (sep p s : str) :
  sep <> [] -> p ∈ split sep s -> occurs_in p s.
Proof.
  intros Hsep H. rewrite <- (join_split sep s Hsep). by apply join_occurs.
Qed.

(** ** Texts without [##] *)

Lemma no_hashes_no_heading_lines (text : str) :
  ~ occurs_in (lit "##") text -> no_heading_lines text.
Proof.
  intros H. apply Forall_forall. intros line Hline.
  apply (split_occurs NL) in Hline; [|done].
  split; intros [r ->]; apply H;
    (eapply occurs_in_trans; [|exact Hline]).
  - by exists [], (lit "# " ++ r).
  - by exists [], (lit " " ++ r).
Qed.

Lemma markdown_to_html_no_hashes (text : str) :
  ~ occurs_in (lit "##") text ->
  markdown_to_html text = join NL (map html_paragraph (split (NL ++ NL) text)).
Proof.
  intros H. unfold markdown_to_html.
  by rewrite convert_headers_id by by apply no_hashes_no_heading_lines.
Qed.

Lemma index_of_hashes_none (body rest : str) :
  ~ occurs_in (lit "##") (body ++ take 1 rest) ->
  index_of (lit "##") (body ++ rest)
  = (fun i => length body + i)%nat <$> index_of (lit "##") rest.
Proof.
  induction body as [|c body IH]; simpl app.
  - intros _. by destruct (index_of _ rest).
  - intros H.
    assert (startswith (lit "##") (c :: body ++ rest) = false) as E.
    { destruct (startswith (lit "##") (c :: body ++ rest)) eqn:E; [|done].
      exfalso. apply H. apply startswith_iff in E as [r E].
      injection E as -> E. exists [].
      destruct body as [|c' body]; simpl in E.
      - destruct rest as [|c' rest]; [done|]. injection E as -> _.
        by exists [].
      - injection E as -> _. by exists (body ++ take 1 rest). }
    change (index_of (lit "##") (c :: body ++ rest))
      with (if startswith (lit "##") (c :: body ++ rest) then Some O
            else S <$> index_of (lit "##") (body ++ rest)).
    rewrite E, IH.
    + simpl. by destruct (index_of _ rest).
    + intros Hocc. apply H. by apply (occurs_in_app_l _ [c]).
Qed.

Lemma replace_go_no_occurrence (a : N) (old new s : str) :
  ~ occurs_in (a :: old) s -> replace_go (a :: old) new 0 s = s.
Proof.
  induction s as [|x s IH]; [done|]. intros H.
  change (replace_go (a :: old) new 0 (x :: s))
    with (if startswith (a :: old) (x :: s)
          then new ++ replace_go (a :: old) new (length (a :: old) - 1) s
          else x :: replace_go (a :: old) new 0 s).
  destruct (startswith (a :: old) (x :: s)) eqn:E.
  - exfalso. apply H. apply startswith_iff in E as [r ->]. by exists [], r.
  - rewrite IH; [done|]. intros Hocc. apply H.
    by apply (occurs_in_app_l _ [x]).
Qed.

(** The overview of a document cut at its first marker and at the next
    [##] after it. *)
Lemma extract_overview_cut (pre body rest : str) :
  first_after pre overview_marker (pre ++ overview_marker ++ body ++ rest) ->
  ~ occurs_in (lit "##") (body ++ take 1 rest) ->
  rest = [] \/ starts_with (lit "##") rest ->
  extract_overview (pre ++ overview_marker ++ body ++ rest)
  = markdown_to_html (strip body).
Proof.
  intros Hfirst Hbody Hrest.
  set (content := pre ++ overview_marker ++ body ++ rest).
  assert (length content
          = (length pre + 11 + length body + length rest)%nat) as Hlen.
  { unfold content. rewrite !length_app.
    change (length overview_marker) with 11%nat. lia. }
  assert (find overview_marker content 0 = Z.of_nat (length pre)) as Hstart.
  { unfold find. change (0 <? 0) with false. cbv iota.
    destruct (Z.ltb_spec (Z.of_nat (length content)) 0); [lia|].
    change (drop (Z.to_nat 0) content) with content.
    by rewrite (index_of_first_after pre). }
  assert ((if find (lit "##") content (Z.of_nat (length pre) + 1) =? -1
           then Z.of_nat (length content)
           else find (lit "##") content (Z.of_nat (length pre) + 1))
          = Z.of_nat (length pre + length (overview_marker ++ body))) as Hend.
  { unfold find.
    destruct (Z.ltb_spec (Z.of_nat (length pre) + 1) 0); [lia|].
    destruct (Z.ltb_spec (Z.of_nat (length content))
                (Z.of_nat (length pre) + 1)); [lia|].
    replace (Z.to_nat (Z.of_nat (length pre) + 1))
      with (length (pre ++ [35%N])) by (rewrite length_app; simpl; lia).
    replace content
      with ((pre ++ [35%N]) ++ lit "# Overview" ++ body ++ rest)
      by (unfold content; by rewrite <- app_assoc).
    rewrite drop_app_length, index_of_hashes_after_marker,
      index_of_hashes_none by done.
    rewrite !length_app. change (length overview_marker) with 11%nat.
    change (length (lit "# Overview")) with 10%nat.
    destruct Hrest as [->|[r ->]].
    - simpl. lia.
    - rewrite (index_of_here (lit "##")) by apply startswith_app. simpl.
      match goal with
      | |- context [?a =? -1] => destruct (Z.eqb_spec a (-1))
      end; lia. }
  unfold extract_overview.
  replace (contains overview_marker content) with true
    by (symmetry; apply contains_occurs; by do 2 eexists).
  rewrite Hstart, Hend. unfold content.
  rewrite (app_assoc overview_marker body rest), slice_middle.
  unfold replace. change overview_marker with (35%N :: lit "# Overview").
  rewrite replace_go_here, replace_go_no_occurrence; [reflexivity|].
  intros Hocc. apply Hbody, occurs_in_app_r.
  eapply occurs_in_trans; [|exact Hocc]. by exists [], (lit " Overview").
Qed.

Lemma no_hashes_strip (body tail : str) :
  ~ occurs_in (lit "##") (body ++ tail) -> ~ occurs_in (lit "##") (strip body).
Proof.
  intros H Hocc. apply H, occurs_in_app_r.
  eapply occurs_in_trans; [exact Hocc | apply strip_occurs].
Qed.

(** X5: the overview section runs from the first [## Overview] to the
    next [##] after it, a [###] heading included, or to the end of the
    text.  What stands between the two is trimmed and handed to
    [markdown_to_html]; as it holds no [##], no line of it is turned into a
    heading, and the result is its paragraphs. *)
Theorem extract_overview_between (pre body rest : str) :
  first_after pre overview_marker (pre ++ overview_marker ++ body ++ rest) ->
  ~ occurs_in (lit "##") (body ++ take 1 rest) ->
  rest = [] \/ starts_with (lit "##") rest ->
  extract_overview (pre ++ overview_marker ++ body ++ rest)
  = markdown_to_html (strip body)
  /\ markdown_to_html (strip body)
     = join NL (map html_paragraph (split (NL ++ NL) (strip body))).
Proof.
  intros Hfirst Hbody Hrest. split.
  - by apply extract_overview_cut.
  - apply markdown_to_html_no_hashes. by eapply no_hashes_strip.
Qed.

Lemma extract_overview_between_witness :
  let pre := lit "# Title" ++ NL ++ lit "#" in
  let body := NL ++ lit "Issue #1 & <b>more</b>." ++ NL ++ NL ++ lit "Next." ++ NL in
  let rest := lit "### Details" ++ NL ++ lit "## Overview" in
  first_after pre overview_marker (pre ++ overview_marker ++ body ++ rest)
  /\ ~ occurs_in (lit "##") (body ++ take 1 rest)
  /\ (rest = [] \/ starts_with (lit "##") rest)
  /\ extract_overview (pre ++ overview_marker ++ body ++ rest)
     = markdown_to_html (strip body)
  /\ markdown_to_html (strip body)
     = join NL (map html_paragraph (split (NL ++ NL) (strip body))).
Proof.
  intros pre body rest.
  assert (first_after pre overview_marker
            (pre ++ overview_marker ++ body ++ rest)) as H1
    by (apply first_after_check; vm_compute; reflexivity).
  assert (~ occurs_in (lit "##") (body ++ take 1 rest)) as H2
    by (apply contains_false; vm_compute; reflexivity).
  assert (rest = [] \/ starts_with (lit "##") rest) as H3
    by (right; apply startswith_iff; vm_compute; reflexivity).
  split; [exact H1|]. split; [exact H2|]. split; [exact H3|].
  exact (extract_overview_between pre body rest H1 H2 H3).
Defined.

Lemma first_after_index_of (sub s : str) (i : nat) :
  index_of sub s = Some i -> first_after (take i s) sub s.
Proof.
  intros H. split.
  - eexists. by apply index_of_Some.
  - intros pre' post' E. rewrite E in H. apply index_of_le in H.
    rewrite length_take. lia.
Qed.

(** Every text splits at its first [##]. *)
Lemma cut_at_hashes (tail : str) :
  exists body rest,
    tail = body ++ rest
    /\ ~ occurs_in (lit "##") (body ++ take 1 rest)
    /\ (rest = [] \/ starts_with (lit "##") rest).
Proof.
  destruct (index_of (lit "##") tail) as [j|] eqn:E.
  - pose proof (index_of_Some _ _ _ E) as Heq.
    exists (take j tail), (lit "##" ++ drop (j + length (lit "##")) tail).
    split; [done|]. split; [|right; by eexists].
    change (take 1 (lit "##" ++ _)) with [35%N].
    intros (p & q & Hocc).
    assert (length (take j tail) = j) as Hj.
    { apply length_take_le. apply (f_equal length) in Heq.
      rewrite !length_app, length_take, length_drop in Heq.
      change (length (lit "##")) with 2%nat in Heq. lia. }
    rewrite Heq in E.
    replace (take j tail ++ lit "##" ++ drop (j + length (lit "##")) tail)
      with (p ++ lit "##" ++ q ++ [35%N] ++ drop (j + length (lit "##")) tail)
      in E.
    + apply index_of_le in E. apply (f_equal length) in Hocc.
      rewrite !length_app in Hocc. simpl in Hocc. lia.
    + trans ((take j tail ++ [35%N]) ++ [35%N]
               ++ drop (j + length (lit "##")) tail).
      * rewrite Hocc. by rewrite <- !app_assoc.
      * by rewrite <- app_assoc.
  - exists tail, []. split; [by rewrite app_nil_r|]. split; [|by left].
    rewrite app_nil_r. apply contains_false. unfold contains. by rewrite E.
Qed.

(** X6: on every text [extract_overview] returns the fallback sentence,
    when the marker does not occur, or the paragraphs of the trimmed text
    between the first marker and the next [##]: the text splits in exactly
    that way, and the header conversion never applies to an overview. *)
Theorem extract_overview_shape (content : str) :
  (~ occurs_in overview_marker content
   /\ extract_overview content = overview_fallback)
  \/ exists pre body rest,
       content = pre ++ overview_marker ++ body ++ rest
       /\ first_after pre overview_marker content
       /\ ~ occurs_in (lit "##") (body ++ take 1 rest)
       /\ (rest = [] \/ starts_with (lit "##") rest)
       /\ extract_overview content
          = join NL (map html_paragraph (split (NL ++ NL) (strip body))).
Proof.
  destruct (index_of overview_marker content) as [i|] eqn:E.
  - right. pose proof (first_after_index_of _ _ _ E) as Hfirst.
    pose proof (index_of_Some _ _ _ E) as Heq.
    destruct (cut_at_hashes (drop (i + length overview_marker) content))
      as (body & rest & Htail & Hbody & Hrest).
    rewrite Htail in Heq.
    exists (take i content), body, rest. split; [done|]. split; [done|].
    split; [done|]. split; [done|].
    clear E Htail. revert Hfirst Heq. generalize (take i content) as pre.
    intros pre Hfirst ->.
    rewrite extract_overview_cut by done.
    apply markdown_to_html_no_hashes. by eapply no_hashes_strip.
  - left. assert (contains overview_marker content = false) as Hc
      by (unfold contains; by rewrite E).
    split; [by apply contains_false|].
    unfold extract_overview. by rewrite Hc.
Qed.

(** ** Paragraphs and the page *)

Lemma html_paragraph_keeps (p : str) : occurs_in (strip p) (html_paragraph p).
Proof.
  unfold html_paragraph.
  destruct (truthy (strip p) && negb (startswith (lit "<") p)).
  - exists (lit "<p>"), (lit "</p>"). done.
  - apply strip_occurs.
Qed.

(** X7: [markdown_to_html] escapes nothing and drops no text: the
    trimmed text of every paragraph of the converted text occurs in the
    output as it is. *)
Theorem markdown_to_html_verbatim (text : str) :
  Forall (fun p => occurs_in (strip p) (markdown_to_html text))
         (split (NL ++ NL) (convert_headers text)).
Proof.
  apply Forall_forall. intros p Hp. unfold markdown_to_html.
  eapply occurs_in_trans; [apply html_paragraph_keeps|].
  apply join_occurs, list_elem_of_In, List.in_map, list_elem_of_In, Hp.
Qed.

Lemma startswith_app_l (p x y : str) :
  startswith p x = true -> startswith p (x ++ y) = true.
Proof.
  intros H. apply startswith_inv in H. rewrite H, <- app_assoc.
  apply startswith_app.
Qed.

Lemma occurs_between (open close a mid b : str) :
  endswith open a = true -> startswith close b = true ->
  occurs_in (open ++ mid ++ close) (a ++ mid ++ b).
Proof.
  intros [pre ->]%endswith_inv [post ->]%startswith_iff.
  exists pre, post. by rewrite <- !app_assoc.
Qed.

Tactic Notation "slot" integer(n) :=
  do n apply occurs_in_app_l;
  apply occurs_between; [|apply startswith_app_l || idtac];
  vm_compute; reflexivity.

(** X8: whatever the descriptor and the document, the page begins with
    the doctype and ends with the closing [html] tag, carries the title,
    the description, the category and the icon of the descriptor unescaped
    in the head, the navigation bar and the hero section, and holds the
    features fragment and the API fragment in the content blocks of their
    sections. *)
Theorem page_slots (to_upper_full : char -> str) (info : module_info)
    (content : str) :
  let page := page_of_content to_upper_full info content in
  starts_with (lit "<!DOCTYPE html>") page
  /\ ends_with (lit "</html>") page
  /\ occurs_in (lit "<title>" ++ title info ++ lit " - PARVYOM Metanode</title>")
       page
  /\ occurs_in (lit "<meta name=`description` content=`" ++ description info
                ++ lit "`>") page
  /\ occurs_in (lit "<span class=`nav-subtitle`>" ++ title info ++ lit "</span>")
       page
  /\ occurs_in (lit "<div class=`module-icon " ++ category info
                ++ lit "-icon large`>") page
  /\ occurs_in (lit "<i class=`" ++ icon info ++ lit "`></i>") page
  /\ occurs_in (lit "<h1>" ++ title info ++ lit "</h1>") page
  /\ occurs_in (lit "<p>" ++ description info ++ lit "</p>") page
  /\ occurs_in (features_open ++ extract_features content ++ overview_close)
       page
  /\ occurs_in (api_open ++ extract_api_endpoints to_upper_full content
                ++ overview_close) page.
Proof.
  intros page. unfold page, page_of_content, html_content, page_upto_overview.
  rewrite <- !app_assoc.
  split; [|split].
  - apply startswith_iff, startswith_app_l. vm_compute. reflexivity.
  - apply endswith_inv.
    repeat lazymatch goal with
           | |- endswith _ (_ ++ _) = true => apply endswith_app
           end.
    vm_compute. reflexivity.
  - repeat split.
    + slot 0.
    + slot 2.
    + slot 4.
    + slot 6.
    + slot 8.
    + slot 10.
    + slot 12.
    + slot 16.
    + slot 18.
Qed.

Lemma page_of_empty (to_upper_full : char -> str) (info : module_info) :
  page_of_content to_upper_full info []
  = html_content info overview_fallback features_fallback api_fallback.
Proof. reflexivity. Qed.

(** ** The driver on every outcome *)

Lemma blocked_by_cannot_generate (f : gmap path node) (k : str) (e : exn) :
  blocked_by f k e -> ~ can_generate f k.
Proof.
  intros Hb (Hdirs & [text Htext] & Hpage). unfold readme_text in Htext.
  destruct Hb as [(d & Hf & _)|[(q & d & Hq & _ & Hf & _)
                 |[[Hf _]|[[Hf _]|[Hf _]]]]].
  - destruct (Hdirs _ (dir_of_in_dirs k)); congruence.
  - destruct (Hdirs _ Hq); congruence.
  - by rewrite Hf in Htext.
  - by rewrite Hf in Htext.
  - done.
Qed.

Lemma main_run (to_upper_full : char -> str) (w : world) :
  main to_upper_full w
  = match run_files to_upper_full MODULE_MAPPING 0 (files w) with
    | (Return m, f1, lines) =>
        (Return tt,
         World f1 (stdout w ++ opening_lines ++ lines ++ closing_lines m))
    | (Raise e, f1, lines) =>
        (Raise e, World f1 (stdout w ++ opening_lines ++ lines))
    end.
Proof.
  destruct MODULE_MAPPING_well_keyed as [Hs _].
  unfold main. by rewrite main_on_run by done.
Qed.

(** ** Runs under an environment *)

(** ** Creating directories under an environment *)

Lemma faulty_walk_Return (E : Faulty.env) (a b : path)
    (f f1 : gmap path node) :
  Faulty.makedirs_walk E a b f = (Return tt, f1) ->
  makedirs_walk a b f = (Return tt, f1).
Proof.
  revert a f; induction b as [|c b IH]; intros a f; simpl; [done|].
  destruct (f !! (a ++ [c])) as [[|d]|]; [apply IH | |].
  - by destruct (Faulty.mkdir_fault E (a ++ [c])).
  - destruct (Faulty.mkdir_fault E (a ++ [c])); [done | apply IH].
Qed.

Lemma faulty_walk_effect (E : Faulty.env) (a b : path)
    (f f1 : gmap path node) (r : outcome unit) :
  Faulty.makedirs_walk E a b f = (r, f1) ->
  forall q, f1 !! q = f !! q
            \/ (q ∈ dirs_of a b /\ f !! q = None /\ f1 !! q = Some Dir).
Proof.
  revert a f; induction b as [|c b IH]; intros a f; simpl.
  - intros [= <- <-] q. by left.
  - destruct (f !! (a ++ [c])) as [[|data]|] eqn:Ef.
    + intros H q. destruct (IH _ _ H q) as [?|(? & ? & ?)]; [by left|].
      right. by rewrite elem_of_cons; auto.
    + destruct (Faulty.mkdir_fault E (a ++ [c]));
        intros [= <- <-] q; by left.
    + destruct (Faulty.mkdir_fault E (a ++ [c]));
        [intros [= <- <-] q; by left|].
      intros H q. destruct (decide (q = a ++ [c])) as [->|Hq].
      * destruct (IH _ _ H (a ++ [c])) as [E1|(_ & E1 & _)].
        -- rewrite lookup_insert_eq in E1. right.
           by rewrite elem_of_cons; auto.
        -- by rewrite lookup_insert_eq in E1.
      * destruct (IH _ _ H q) as [E1|(? & E1 & ?)];
          rewrite lookup_insert_ne in E1 by done; [by left|].
        right. by rewrite elem_of_cons; auto.
Qed.

(** A walk that raises met a [mkdir] that the environment failed, or a
    regular file, which the files show. *)
Lemma faulty_walk_Raise (E : Faulty.env) (a b : path)
    (f f1 : gmap path node) (e : exn) :
  Faulty.makedirs_walk E a b f = (Raise e, f1) ->
  (exists q, q ∈ dirs_of a b /\ f !! q <> Some Dir
             /\ Faulty.mkdir_fault E q = Some e)
  \/ (exists q d, q ∈ dirs_of a b /\ f !! q = Some (File d)
                  /\ (q = a ++ b /\ e = FileExistsError
                      \/ q <> a ++ b /\ e = NotADirectoryError)).
Proof.
  revert a f; induction b as [|c b IH]; intros a f; simpl; [done|].
  assert (forall q, q ∈ dirs_of (a ++ [c]) b -> q <> a ++ [c]) as Hne
    by (intros q Hq ->; by apply dirs_of_not_above in Hq).
  destruct (f !! (a ++ [c])) as [[|d]|] eqn:Ef.
  - intros H. destruct (IH _ _ H) as [(q & Hq & Hf & He)|(q & d & Hq & Hf & He)].
    + left. exists q. split; [by apply list_elem_of_further | done].
    + right. exists q, d. split; [by apply list_elem_of_further|].
      split; [done|]. by rewrite <- app_assoc in He.
  - destruct (Faulty.mkdir_fault E (a ++ [c])) as [e'|] eqn:Em.
    { intros [= <- <-]. left. exists (a ++ [c]).
      split; [apply list_elem_of_here|]. by rewrite Ef. }
    intros [= <- <-]. right. exists (a ++ [c]), d.
    split; [apply list_elem_of_here|]. split; [done|].
    destruct b as [|c' b]; [by left|right]. split; [|done].
    intros H%(f_equal length). rewrite !length_app in H. simpl in H. lia.
  - destruct (Faulty.mkdir_fault E (a ++ [c])) as [e'|] eqn:Em.
    + intros [= <- <-]. left. exists (a ++ [c]).
      split; [apply list_elem_of_here|]. by rewrite Ef.
    + intros H.
      destruct (IH _ _ H) as [(q & Hq & Hf & He)|(q & d & Hq & Hf & He)].
      * left. exists q. split; [by apply list_elem_of_further|].
        rewrite lookup_insert_ne in Hf by (apply not_eq_sym; by apply Hne).
        done.
      * right. exists q, d. split; [by apply list_elem_of_further|].
        rewrite lookup_insert_ne in Hf by (apply not_eq_sym; by apply Hne).
        split; [done|]. by rewrite <- app_assoc in He.
Qed.

(** Without a failing [mkdir] the walk does what the files say. *)
Lemma faulty_walk_quiet (E : Faulty.env) (a b : path) (f : gmap path node) :
  (forall q, q ∈ dirs_of a b -> f !! q <> Some Dir ->
             Faulty.mkdir_fault E q = None) ->
  Faulty.makedirs_walk E a b f = makedirs_walk a b f.
Proof.
  revert a f; induction b as [|c b IH]; intros a f Hq; simpl; [done|].
  assert (forall q, q ∈ dirs_of (a ++ [c]) b -> q <> a ++ [c]) as Hne
    by (intros q Hin ->; by apply dirs_of_not_above in Hin).
  destruct (f !! (a ++ [c])) as [[|d]|] eqn:Ef.
  - apply IH. intros q Hin. apply Hq. by apply list_elem_of_further.
  - rewrite (Hq (a ++ [c])); [done | apply list_elem_of_here | by rewrite Ef].
  - rewrite (Hq (a ++ [c])); [| apply list_elem_of_here | by rewrite Ef].
    apply IH. intros q Hin Hf. apply Hq; [by apply list_elem_of_further|].
    by rewrite lookup_insert_ne in Hf by (apply not_eq_sym; by apply Hne).
Qed.

(** ** One module under an environment *)

Section Faulty_paths.

Variable E : Faulty.env.
Variable to_upper_full : char -> str.
Variable k : str.
Hypothesis k_simple : simple_name k = true.

Lemma faulty_module_step_simple (info : module_info) (w : world) :
  Faulty.module_step E to_upper_full k info w
  = let '(r, f1, lines) :=
      Faulty.step_files E to_upper_full k info (files w) (length (stdout w)) in
    (r, World f1 (stdout w ++ lines)).
Proof.
  unfold Faulty.module_step, Faulty.step_files.
  rewrite (doc_path_simple k), (module_dir_simple k), !(file_in_simple k)
    by done.
  unfold bind, os_path_exists, Faulty.os_makedirs, Faulty.create_module_page,
    bind, os_path_exists, Faulty.read_text, read_text, Faulty.write_text,
    write_text, Faulty.print, print, ret.
  rewrite !(file_in_simple k) by done.
  rewrite (components_src k), (components_dir k), (components_readme k),
    (components_page k) by done.
  rewrite (parent_page_path k).
  rewrite !truthy_app by (rewrite ?truthy_app by reflexivity; reflexivity).
  unfold Faulty.readme_text, readme_text, src_of, readme_of, page_path, dir_of.
  destruct w as [f out]; cbn [files stdout]. rewrite stat_app_cons.
  destruct (f !! (docs_path ++ [k])); cbn [andb files stdout].
  2:{ destruct (Faulty.print_fault E (length out));
        [by rewrite app_nil_r | reflexivity]. }
  destruct (Faulty.makedirs_walk E [] (out_path ++ [k]) f) as [[[]|e] f1];
    cbn [files stdout]; [|by rewrite app_nil_r].
  rewrite !stat_app_cons.
  destruct (f1 !! (docs_path ++ [k; lit "README.md"])) as [nd|] eqn:Er;
    cbn [andb files stdout].
  - destruct (Faulty.read_fault E (docs_path ++ [k; lit "README.md"]));
      [by rewrite app_nil_r|].
    rewrite ?stat_app_cons, ?Er.
    destruct nd as [|[text|]]; try (by rewrite app_nil_r).
    destruct (Faulty.open_fault E (out_path ++ [k; lit "index.html"]));
      [by rewrite app_nil_r|].
    cbn [files stdout]. rewrite ?stat_app_cons.
    destruct (f1 !! (out_path ++ [k; lit "index.html"])) as [[|?]|];
      [by rewrite app_nil_r| |];
      (destruct (f1 !! (out_path ++ [k])) as [[|?]|];
       [|by rewrite app_nil_r|by rewrite app_nil_r]);
      (destruct (Faulty.write_fault E (out_path ++ [k; lit "index.html"]))
         as [[e d]|]; [by rewrite app_nil_r|]);
      cbn [files stdout];
      (destruct (Faulty.print_fault E (length out));
       [by rewrite app_nil_r | reflexivity]).
  - destruct (Faulty.open_fault E (out_path ++ [k; lit "index.html"]));
      [by rewrite app_nil_r|].
    cbn [files stdout]. rewrite ?stat_app_cons.
    destruct (f1 !! (out_path ++ [k; lit "index.html"])) as [[|?]|];
      [by rewrite app_nil_r| |];
      (destruct (f1 !! (out_path ++ [k])) as [[|?]|];
       [|by rewrite app_nil_r|by rewrite app_nil_r]);
      (destruct (Faulty.write_fault E (out_path ++ [k; lit "index.html"]))
         as [[e d]|]; [by rewrite app_nil_r|]);
      cbn [files stdout];
      (destruct (Faulty.print_fault E (length out));
       [by rewrite app_nil_r | reflexivity]).
Qed.

End Faulty_paths.

Lemma faulty_generate_modules_cons (E : Faulty.env)
    (to_upper_full : char -> str) (k : str) (info : module_info)
    (table : list (str * module_info)) (n : nat) (w : world) :
  Faulty.generate_modules E to_upper_full ((k, info) :: table) n w
  = match Faulty.module_step E to_upper_full k info w with
    | (Return b, w') =>
        Faulty.generate_modules E to_upper_full table
          (if b : bool then n + 1 else n)%nat w'
    | (Raise e, w') => (Raise e, w')
    end.
Proof.
  cbn [Faulty.generate_modules]. unfold Faulty.module_step, bind, ret.
  destruct (os_path_exists (os_path_join docs_dir k) w) as [[[]|e] w1];
    [| |reflexivity].
  - destruct (Faulty.os_makedirs _ _ w1) as [[[]|e] w2]; [|reflexivity].
    destruct (Faulty.create_module_page _ _ _ _ _ w2) as [[html|e] w3];
      [|reflexivity].
    destruct (Faulty.write_text _ _ _ w3) as [[[]|e] w4]; [|reflexivity].
    destruct (Faulty.print _ _ w4) as [[[]|e] w5]; reflexivity.
  - destruct (Faulty.print _ _ w1) as [[[]|e] w2]; reflexivity.
Qed.

Section Faulty_step.

Variable E : Faulty.env.
Variable to_upper_full : char -> str.
Variables (k : str) (info : module_info).

Lemma faulty_readme_Return (f : gmap path node) (text : str) :
  Faulty.readme_text E f k = Return text -> readme_text f k = Return text.
Proof.
  unfold Faulty.readme_text, readme_text.
  destruct (f !! readme_of k); [|done].
  by destruct (Faulty.read_fault E (readme_of k)).
Qed.

Lemma faulty_readme_Raise (f : gmap path node) (e : exn) :
  Faulty.readme_text E f k = Raise e ->
  (f !! readme_of k <> None /\ Faulty.read_fault E (readme_of k) = Some e)
  \/ (f !! readme_of k = Some Dir /\ e = IsADirectoryError)
  \/ (f !! readme_of k = Some (File None) /\ e = UnicodeDecodeError).
Proof.
  unfold Faulty.readme_text, readme_text.
  destruct (f !! readme_of k) as [nd|]; [|done].
  destruct (Faulty.read_fault E (readme_of k)) as [e'|].
  - intros [= <-]. by left.
  - destruct nd as [|[text|]]; [|done|]; intros [= <-]; auto.
Qed.

(** A step that returns under the environment is the step of the files
    alone. *)
Lemma faulty_step_Return (f f1 : gmap path node) (n : nat) (b : bool)
    (lines : list str) :
  Faulty.step_files E to_upper_full k info f n = (Return b, f1, lines) ->
  step_files to_upper_full k info f = (Return b, f1)
  /\ lines = step_lines k info (Return b).
Proof.
  unfold Faulty.step_files, step_files.
  destruct (f !! src_of k).
  2:{ destruct (Faulty.print_fault E n); [done|]. by intros [= <- <- <-]. }
  destruct (Faulty.makedirs_walk E [] (dir_of k) f) as [[[]|e] f'] eqn:Ew;
    [|done].
  rewrite (faulty_walk_Return _ _ _ _ _ Ew).
  destruct (Faulty.readme_text E f' k) as [text|e] eqn:Et; [|done].
  rewrite (faulty_readme_Return _ _ Et).
  destruct (Faulty.open_fault E (page_path k)); [done|].
  destruct (f' !! page_path k) as [[|?]|]; [done| |];
    (destruct (f' !! dir_of k) as [[|?]|]; [|done|done]);
    (destruct (Faulty.write_fault E (page_path k)) as [[e d]|]; [done|]);
    (destruct (Faulty.print_fault E n); [done|]);
    by intros [= <- <- <-].
Qed.

(** A step that raises under the environment failed at its last call, the
    [print], after the step of the files alone; or at an earlier call, for
    what the files show or by a fault of the environment, and then it made
    directories at most, or left the page with what a failed writing
    leaves. *)
Lemma faulty_step_Raise (f f1 : gmap path node) (n : nat) (e : exn)
    (lines : list str) :
  Faulty.step_files E to_upper_full k info f n = (Raise e, f1, lines) ->
  lines = []
  /\ ((Faulty.print_fault E n = Some e
       /\ exists b, step_files to_upper_full k info f = (Return b, f1))
      \/ (has_source f k = true
          /\ (blocked_by f k e \/ faulted_by E f k e)
          /\ forall q,
               f1 !! q = f !! q
               \/ (q ∈ dirs k /\ f !! q = None /\ f1 !! q = Some Dir)
               \/ (q = page_path k
                   /\ exists d, Faulty.write_fault E q = Some (e, d)
                                /\ f1 !! q = Some (File d)))).
Proof.
  unfold Faulty.step_files, step_files, has_source.
  destruct (f !! src_of k) as [nd|].
  2:{ destruct (Faulty.print_fault E n) as [e'|] eqn:Ep; [|done].
      intros [= <- <- <-]. split; [done|]. left. split; [done|]. by exists false. }
  destruct (Faulty.makedirs_walk E [] (dir_of k) f) as [[[]|e'] f'] eqn:Ew.
  2:{ intros [= <- <- <-]. split; [done|]. right. split; [done|]. split.
      - destruct (faulty_walk_Raise _ _ _ _ _ _ Ew)
          as [(q & Hq & Hf & He)|(q & d & Hq & Hf & He)].
        + right. left. by exists q.
        + left. change ([] ++ dir_of k) with (dir_of k) in He.
          destruct He as [[-> ->]|[Hne ->]].
          * left. exists d. split; [exact Hf | reflexivity].
          * right; left. exists q, d. repeat split; assumption.
      - intros q.
        destruct (faulty_walk_effect _ _ _ _ _ _ Ew q) as [?|?]; auto. }
  pose proof (faulty_walk_effect _ _ _ _ _ _ Ew) as Heff.
  pose proof (faulty_walk_Return _ _ _ _ _ Ew) as Ew'. rewrite Ew'.
  assert (forall q, q ∉ dirs k -> f' !! q = f !! q) as Hsame.
  { intros q Hq. by destruct (Heff q) as [?|[? _]]. }
  pose proof (Hsame _ (readme_not_dir k k)) as Hreadme.
  pose proof (Hsame _ (page_not_dir k k)) as Hpage.
  destruct (makedirs_walk_Return _ _ _ _ Ew' (dir_of k) (dir_of_in_dirs k))
    as [Hdir _].
  assert (forall q, f' !! q = f !! q
                    \/ (q ∈ dirs k /\ f !! q = None /\ f' !! q = Some Dir)
                    \/ (q = page_path k
                        /\ exists d, Faulty.write_fault E q = Some (e, d)
                                     /\ f' !! q = Some (File d))) as Hfoot.
  { intros q. destruct (Heff q) as [?|?]; auto. }
  destruct (Faulty.readme_text E f' k) as [text|e'] eqn:Et.
  2:{ intros [= <- <- <-]. split; [done|]. right. split; [done|].
      split; [|done]. unfold blocked_by, faulted_by.
      destruct (faulty_readme_Raise _ _ Et) as [[H1 H2]|[[H1 H2]|[H1 H2]]];
        rewrite Hreadme in H1; tauto. }
  rewrite (faulty_readme_Return _ _ Et).
  destruct (Faulty.open_fault E (page_path k)) as [e'|] eqn:Eo.
  { intros [= <- <- <-]. split; [done|]. right. split; [done|].
    split; [|done]. right. unfold faulted_by. tauto. }
  rewrite Hdir.
  assert (f' !! page_path k <> Some Dir ->
          (match Faulty.write_fault E (page_path k) with
           | Some (e0, d) => (Raise e0, <[page_path k := File d]> f', [])
           | None =>
               match Faulty.print_fault E n with
               | Some e0 =>
                   (Raise e0,
                    <[page_path k :=
                        File (Some (page_of_content to_upper_full info text))]> f',
                    [])
               | None =>
                   (Return true,
                    <[page_path k :=
                        File (Some (page_of_content to_upper_full info text))]> f',
                    [generated_line info])
               end
           end = (Raise e, f1, lines)) ->
          lines = []
          /\ ((Faulty.print_fault E n = Some e
               /\ exists b,
                    (Return true,
                     <[page_path k :=
                         File (Some (page_of_content to_upper_full info text))]> f')
                    = (Return b, f1))
              \/ (true = true
                  /\ (blocked_by f k e \/ faulted_by E f k e)
                  /\ forall q,
                       f1 !! q = f !! q
                       \/ (q ∈ dirs k /\ f !! q = None /\ f1 !! q = Some Dir)
                       \/ (q = page_path k
                           /\ exists d, Faulty.write_fault E q = Some (e, d)
                                        /\ f1 !! q = Some (File d))))) as Hwrite.
  { intros _. destruct (Faulty.write_fault E (page_path k)) as [[e' d]|] eqn:Ewr.
    - intros [= <- <- <-]. split; [done|]. right. split; [done|].
      split; [right; unfold faulted_by; eauto 6|].
      intros q. destruct (decide (q = page_path k)) as [->|Hq].
      + right; right. split; [done|]. exists d. by rewrite lookup_insert_eq.
      + rewrite lookup_insert_ne by done. destruct (Heff q) as [?|?]; auto.
    - destruct (Faulty.print_fault E n) as [e'|] eqn:Ep; [|done].
      intros [= <- <- <-]. split; [done|]. left. split; [done|]. by eexists. }
  destruct (f' !! page_path k) as [[|dd]|] eqn:Epg.
  - intros [= <- <- <-]. split; [done|]. right. split; [done|].
    split; [|done]. left. unfold blocked_by. rewrite <- Hpage. tauto.
  - by apply Hwrite.
  - by apply Hwrite.
Qed.

(** What a step does to a path, whatever its outcome. *)
Lemma faulty_step_effect (f f1 : gmap path node) (n : nat)
    (r : outcome bool) (lines : list str) :
  Faulty.step_files E to_upper_full k info f n = (r, f1, lines) ->
  forall q,
    f1 !! q = f !! q
    \/ (q ∈ dirs k /\ f !! q = None /\ f1 !! q = Some Dir
        /\ has_source f k = true)
    \/ (q = page_path k /\ has_source f k = true
        /\ (f1 !! q
            = Some (File (Some (page_of_content to_upper_full info
                                  (document f k))))
            \/ exists e d, Faulty.write_fault E q = Some (e, d)
                           /\ f1 !! q = Some (File d))).
Proof.
  intros H q.
  assert (forall b, step_files to_upper_full k info f = (Return b, f1) ->
            f1 !! q = f !! q
            \/ (q ∈ dirs k /\ f !! q = None /\ f1 !! q = Some Dir
                /\ has_source f k = true)
            \/ (q = page_path k /\ has_source f k = true
                /\ (f1 !! q
                    = Some (File (Some (page_of_content to_upper_full info
                                          (document f k))))
                    \/ exists e d, Faulty.write_fault E q = Some (e, d)
                                   /\ f1 !! q = Some (File d)))) as Hideal.
  { intros b Hs. destruct (has_source f k) eqn:Hsrc.
    - pose proof Hsrc as Hsrc'. apply has_source_true in Hsrc'.
      destruct (step_files_Return _ _ _ _ _ _ Hsrc' Hs)
        as (_ & (Hdirs & _ & _) & Hd & Hp & Ho).
      destruct (decide (q = page_path k)) as [->|Hne].
      { right; right. split; [done|]. split; [done|]. by left. }
      destruct (decide (q ∈ dirs k)) as [Hin|Hout]; [|left; by apply Ho].
      destruct (Hdirs q Hin) as [Hn|Hdir].
      + right; left. by rewrite (Hd q Hin).
      + left. by rewrite (Hd q Hin).
    - assert (f !! src_of k = None) as Hnone.
      { unfold has_source in Hsrc. by destruct (f !! src_of k). }
      rewrite (step_files_skip _ _ _ _ Hnone) in Hs. injection Hs as <- <-.
      by left. }
  destruct r as [b|e].
  - apply (Hideal b). by destruct (faulty_step_Return _ _ _ _ _ H).
  - destruct (faulty_step_Raise _ _ _ _ _ H)
      as (_ & [(_ & b & Hs)|(Hsrc & _ & Hfoot)]); [by apply (Hideal b)|].
    destruct (Hfoot q) as [?|[(? & ? & ?)|(-> & d & ? & ?)]]; [by left | |].
    + right; left. done.
    + right; right. split; [done|]. split; [done|]. right. by exists e, d.
Qed.

End Faulty_step.

(** ** The page of one module *)




(** ** The whole table under an environment *)

Lemma generate_modules_app (to_upper_full : char -> str)
    (done rest : list (str * module_info)) (n : nat) (w : world) :
  generate_modules to_upper_full (done ++ rest) n w
  = match generate_modules to_upper_full done n w with
    | (Return n1, w1) => generate_modules to_upper_full rest n1 w1
    | (Raise e, w1) => (Raise e, w1)
    end.
Proof.
  revert n w; induction done as [|[k info] done IH]; intros n w; [done|].
  rewrite <- app_comm_cons, !generate_modules_cons.
  destruct (module_step to_upper_full k info w) as [[b|e] w1]; [|done].
  apply IH.
Qed.

Section Faulty_run.

Variable E : Faulty.env.
Variable to_upper_full : char -> str.

(** The step of a module with a plain name, on worlds. *)
Lemma faulty_module_step_Return (k : str) (info : module_info) (w w' : world)
    (b : bool) :
  simple_name k = true ->
  Faulty.module_step E to_upper_full k info w = (Return b, w') ->
  module_step to_upper_full k info w = (Return b, w').
Proof.
  intros Hk. rewrite (faulty_module_step_simple _ _ _ Hk),
    (module_step_simple _ Hk).
  destruct (Faulty.step_files E to_upper_full k info (files w)
              (length (stdout w))) as [[r f1] lines] eqn:Es.
  intros [= -> <-].
  destruct (faulty_step_Return _ _ _ _ _ _ _ _ _ Es) as [-> ->]. done.
Qed.

(** A loop that returns under the environment is the loop of the files
    alone. *)
Lemma faulty_run_Return (table : list (str * module_info)) (n m : nat)
    (w w' : world) :
  Forall (fun entry => simple_name entry.1 = true) table ->
  Faulty.generate_modules E to_upper_full table n w = (Return m, w') ->
  generate_modules to_upper_full table n w = (Return m, w').
Proof.
  revert n w; induction table as [|[k info] table IH]; intros n w Hs; [done|].
  apply Forall_cons in Hs as [Hk Hs]. cbn [fst] in Hk.
  rewrite faulty_generate_modules_cons, generate_modules_cons.
  destruct (Faulty.module_step E to_upper_full k info w) as [[b|e] w1] eqn:Es;
    [|done].
  rewrite (faulty_module_step_Return _ _ _ _ _ Hk Es). by apply IH.
Qed.

(** A loop that raises under the environment ran, as the loop of the files
    alone, over the entries before one entry, whose step raised. *)
Lemma faulty_run_Raise (table : list (str * module_info)) (n : nat)
    (w w' : world) (e : exn) :
  Forall (fun entry => simple_name entry.1 = true) table ->
  Faulty.generate_modules E to_upper_full table n w = (Raise e, w') ->
  exists done k info rest n1 w1,
    table = done ++ (k, info) :: rest
    /\ generate_modules to_upper_full done n w = (Return n1, w1)
    /\ Faulty.step_files E to_upper_full k info (files w1) (length (stdout w1))
       = (Raise e, files w', [])
    /\ stdout w' = stdout w1.
Proof.
  revert n w; induction table as [|[k info] table IH]; intros n w Hs; [done|].
  apply Forall_cons in Hs as [Hk Hs]. cbn [fst] in Hk.
  rewrite faulty_generate_modules_cons.
  destruct (Faulty.module_step E to_upper_full k info w) as [[b|e'] w1] eqn:Es.
  - intros H.
    destruct (IH _ _ Hs H) as (done & k' & info' & rest & n1 & w2 & -> & Hd & Hf).
    exists ((k, info) :: done), k', info', rest, n1, w2. split; [done|].
    split; [|done].
    rewrite generate_modules_cons.
    by rewrite (faulty_module_step_Return _ _ _ _ _ Hk Es).
  - intros [= <- <-]. exists [], k, info, table, n, w. split; [done|].
    split; [done|].
    rewrite (faulty_module_step_simple _ _ _ Hk) in Es.
    destruct (Faulty.step_files E to_upper_full k info (files w)
                (length (stdout w))) as [[r f1] lines] eqn:Ef.
    injection Es as -> <-.
    destruct (faulty_step_Raise _ _ _ _ _ _ _ _ _ Ef) as [-> _].
    cbn [files stdout]. by rewrite app_nil_r.
Qed.

(** ** Printing *)

Lemma faulty_prints (lines : list str) (w w' : world) (r : outcome unit) :
  Faulty.prints E lines w = (r, w') ->
  files w' = files w
  /\ exists j,
       stdout w' = stdout w ++ take j lines
       /\ match r with
          | Return _ => j = length lines
          | Raise e =>
              (j < length lines)%nat
              /\ Faulty.print_fault E (length (stdout w')) = Some e
          end.
Proof.
  revert w; induction lines as [|line lines IH]; intros w.
  - intros [= <- <-]. split; [done|]. exists O. by rewrite app_nil_r.
  - cbn [Faulty.prints]. unfold bind, Faulty.print, print.
    destruct (Faulty.print_fault E (length (stdout w))) as [e|] eqn:Ep.
    + intros [= <- <-]. split; [done|]. exists O.
      rewrite take_0, app_nil_r. split; [done|]. simpl. split; [lia | done].
    + intros H. destruct (IH _ H) as (Hf & j & Hout & Hr).
      cbn [files stdout] in Hf, Hout. split; [done|]. exists (S j).
      split; [by rewrite Hout, <- app_assoc|].
      destruct r; simpl; [lia|]. destruct Hr. split; [lia | done].
Qed.

Lemma faulty_main_on_prints (table : list (str * module_info)) (w : world) :
  Faulty.main_on E to_upper_full table w
  = match Faulty.prints E opening_lines w with
    | (Return _, w1) =>
        match Faulty.generate_modules E to_upper_full table 0 w1 with
        | (Return c, w2) => Faulty.prints E (closing_lines c) w2
        | (Raise e, w2) => (Raise e, w2)
        end
    | (Raise e, w1) => (Raise e, w1)
    end.
Proof.
  unfold Faulty.main_on, opening_lines, closing_lines, Faulty.prints, bind, ret.
  destruct (Faulty.print E _ w) as [[[]|?] w1]; [|reflexivity].
  destruct (Faulty.print E _ w1) as [[[]|?] w2]; [|reflexivity].
  destruct (Faulty.generate_modules E to_upper_full table 0 w2)
    as [[c|?] w3]; [|reflexivity].
  destruct (Faulty.print E _ w3) as [[[]|?] w4]; [|reflexivity].
  destruct (Faulty.print E _ w4) as [[[]|?] w5]; [|reflexivity].
  destruct (Faulty.print E _ w5) as [[[]|?] w6]; [|reflexivity].
  destruct (Faulty.print E _ w6) as [[[]|?] w7]; [|reflexivity].
  destruct (Faulty.print E _ w7) as [[[]|?] w8]; [|reflexivity].
  destruct (Faulty.print E _ w8) as [[[]|?] w9]; reflexivity.
Qed.

End Faulty_run.

(** ** Without faults *)

Lemma faulty_quiet_step (to_upper_full : char -> str) (k : str)
    (info : module_info) (w : world) :
  Faulty.module_step Faulty.quiet to_upper_full k info w
  = module_step to_upper_full k info w.
Proof.
  unfold Faulty.module_step, module_step, bind.
  destruct (os_path_exists (os_path_join docs_dir k) w) as [[[]|e] w1];
    [| |reflexivity].
  - assert (forall name w0, Faulty.os_makedirs Faulty.quiet name w0
                            = os_makedirs name w0) as ->.
    { intros name w0. unfold Faulty.os_makedirs, os_makedirs.
      by rewrite faulty_walk_quiet. }
    destruct (os_makedirs _ w1) as [[[]|e] w2]; [|reflexivity].
    unfold Faulty.create_module_page, create_module_page, bind,
      Faulty.read_text. cbn [Faulty.read_fault Faulty.quiet].
    destruct (os_path_exists _ w2) as [[[]|e] w3]; try reflexivity.
    + destruct (read_text _ w3) as [[content|e] w4]; [|reflexivity].
      unfold ret, Faulty.write_text, Faulty.print.
      cbn [Faulty.open_fault Faulty.write_fault Faulty.print_fault
           Faulty.quiet].
      destruct (write_text _ _ w4) as [[[]|e] w5]; reflexivity.
    + unfold ret, Faulty.write_text, Faulty.print.
      cbn [Faulty.open_fault Faulty.write_fault Faulty.print_fault
           Faulty.quiet].
      destruct (write_text _ _ w3) as [[[]|e] w5]; reflexivity.
  - reflexivity.
Qed.

Lemma faulty_quiet_run (to_upper_full : char -> str)
    (table : list (str * module_info)) (n : nat) (w : world) :
  Faulty.generate_modules Faulty.quiet to_upper_full table n w
  = generate_modules to_upper_full table n w.
Proof.
  revert n w; induction table as [|[k info] table IH]; intros n w; [done|].
  rewrite faulty_generate_modules_cons, generate_modules_cons,
    faulty_quiet_step.
  destruct (module_step to_upper_full k info w) as [[b|e] w1]; [|done].
  apply IH.
Qed.

Lemma faulty_quiet_main_on (to_upper_full : char -> str)
    (table : list (str * module_info)) (w : world) :
  Faulty.main_on Faulty.quiet to_upper_full table w
  = main_on to_upper_full table w.
Proof.
  unfold Faulty.main_on, main_on, bind.
  change (Faulty.print Faulty.quiet) with print.
  destruct (print _ w) as [[[]|?] w1]; [|reflexivity].
  destruct (print _ w1) as [[[]|?] w2]; [|reflexivity].
  by rewrite faulty_quiet_run.
Qed.

(** ** What a run leaves, whatever its outcome *)

Lemma table_split_keys (done rest : list (str * module_info)) (k : str)
    (info : module_info) :
  NoDup ((done ++ (k, info) :: rest).*1) ->
  NoDup (done.*1)
  /\ (k ∉ done.*1)
  /\ (forall k' info', (k', info') ∈ done -> k' <> k)
  /\ (forall k' info', (k', info') ∈ rest -> k' <> k /\ k' ∉ (done.*1)).
Proof.
  rewrite fmap_app, fmap_cons. cbn [fst].
  intros (Hd & Hdis & [Hk Hr]%NoDup_cons)%NoDup_app.
  assert (forall k' info' (l : list (str * module_info)),
            (k', info') ∈ l -> k' ∈ l.*1) as Hkey.
  { intros k' info' l Hin. apply list_elem_of_fmap. by exists (k', info'). }
  split; [done|]. split; [|split].
  - intros Hin. apply (Hdis k Hin), list_elem_of_here.
  - intros k' info' Hin ->. apply (Hdis k (Hkey _ _ _ Hin)), list_elem_of_here.
  - intros k' info' Hin. split.
    + intros ->. apply Hk. by eapply Hkey.
    + intros Hin'. apply (Hdis k' Hin'), list_elem_of_further. by eapply Hkey.
Qed.

Lemma touched_weaken (E : Faulty.env) (to_upper_full : char -> str)
    (f f1 : gmap path node) (table table' : list (str * module_info))
    (q : path) :
  (forall entry, entry ∈ table -> entry ∈ table') ->
  touched E to_upper_full f f1 table q ->
  touched E to_upper_full f f1 table' q.
Proof.
  intros Hsub [H|[(H1 & H2 & k & info & Hin & H)|(k & info & Hin & H)]].
  - by left.
  - right; left. split; [done|]. split; [done|]. exists k, info. auto.
  - right; right. exists k, info. auto.
Qed.

(** The pages and directories of a completed loop. *)
Lemma run_files_touched (E : Faulty.env) (to_upper_full : char -> str)
    (table : list (str * module_info)) (n m : nat) (f f1 : gmap path node)
    (lines : list str) (q : path) :
  NoDup (table.*1) ->
  run_files to_upper_full table n f = (Return m, f1, lines) ->
  touched E to_upper_full f f1 table q.
Proof.
  intros Hnd Hr.
  destruct (run_files_Return _ _ _ _ _ _ _ Hnd Hr)
    as (_ & Hcan & (Gd & Gp & Go) & _).
  destruct (classify_path (with_source f table) q)
    as [(k & info & Hin & ->)|[(k & info & Hin & Hq)|Hnone]].
  - pose proof Hin as [Hin' Hsrc]%elem_of_with_source.
    right; right. exists k, info. split; [done|]. split; [done|].
    split; [done|]. left. by apply Gp.
  - pose proof Hin as [Hin' Hsrc]%elem_of_with_source.
    destruct (Hcan k info Hin) as (Hdirs & _).
    destruct (Hdirs q Hq) as [Hn|Hd].
    + right; left. split; [done|]. split; [by eapply Gd|]. by exists k, info.
    + left. rewrite Hd. by eapply Gd.
  - left. by apply Go.
Qed.

(** The lines of a complete run, by where a run stops. *)
Lemma all_lines_length (f : gmap path node)
    (table : list (str * module_info)) :
  length (all_lines f table) = (2 + length table + 6)%nat.
Proof.
  unfold all_lines. rewrite !length_app, length_map. simpl. lia.
Qed.

Lemma all_lines_opening (f : gmap path node)
    (table : list (str * module_info)) (j : nat) :
  (j <= 2)%nat -> take j (all_lines f table) = take j opening_lines.
Proof. intros Hj. unfold all_lines. by rewrite take_app_le. Qed.

Lemma all_lines_loop (f : gmap path node)
    (done rest : list (str * module_info)) :
  take (2 + length done) (all_lines f (done ++ rest))
  = opening_lines ++ map (progress_line f) done.
Proof.
  unfold all_lines. rewrite map_app, <- app_assoc.
  change (2 + length done)%nat with (length opening_lines + length done)%nat.
  rewrite take_app_add. f_equal. apply take_app_length'.
  by rewrite length_map.
Qed.

Lemma all_lines_closing (f : gmap path node)
    (table : list (str * module_info)) (j c : nat) :
  c = length (with_source f table) ->
  take (2 + length table + j) (all_lines f table)
  = opening_lines ++ map (progress_line f) table ++ take j (closing_lines c).
Proof.
  intros ->. unfold all_lines.
  replace (2 + length table + j)%nat
    with (length opening_lines
          + (length (map (progress_line f) table) + j))%nat
    by (rewrite length_map; simpl; lia).
  by rewrite !take_app_add.
Qed.

Section Faulty_main.

Variable E : Faulty.env.
Variable to_upper_full : char -> str.

(** A loop that raises: the entries before the failing one were run as by
    the files alone. *)
Lemma faulty_loop_Raise (table : list (str * module_info)) (w w' : world)
    (e : exn) :
  well_keyed table ->
  Faulty.generate_modules E to_upper_full table 0 w = (Raise e, w') ->
  exists done k info rest f1,
    table = done ++ (k, info) :: rest
    /\ run_files to_upper_full done 0 (files w)
       = (Return (length (with_source (files w) done)), f1,
          map (progress_line (files w)) done)
    /\ stdout w' = stdout w ++ map (progress_line (files w)) done
    /\ Faulty.step_files E to_upper_full k info f1 (length (stdout w'))
       = (Raise e, files w', []).
Proof.
  intros [Hs Hnd] H.
  destruct (faulty_run_Raise _ _ _ _ _ _ _ Hs H)
    as (done & k & info & rest & n1 & w1 & -> & Hd & Hf & Hout).
  apply Forall_app in Hs as [Hs _].
  destruct (table_split_keys _ _ _ _ Hnd) as (Hnd' & _).
  rewrite generate_modules_run in Hd by done.
  destruct (run_files to_upper_full done 0 (files w)) as [[r f1] lines] eqn:Er.
  injection Hd as -> <-. cbn [files stdout] in *.
  destruct (run_files_Return _ _ _ _ _ _ _ Hnd' Er) as (-> & _ & _ & ->).
  exists done, k, info, rest, f1. rewrite Hout. done.
Qed.

(** The three places where a run can end. *)
Lemma faulty_main_cases (w w' : world) (r : outcome unit) :
  Faulty.main E to_upper_full w = (r, w') ->
  (exists e j, r = Raise e /\ (j < 2)%nat /\ files w' = files w
               /\ stdout w' = stdout w ++ take j opening_lines
               /\ Faulty.print_fault E (length (stdout w')) = Some e)
  \/ (exists e, r = Raise e
                /\ Faulty.generate_modules E to_upper_full MODULE_MAPPING 0
                     (World (files w) (stdout w ++ opening_lines))
                   = (Raise e, w'))
  \/ (exists f1 j,
        run_files to_upper_full MODULE_MAPPING 0 (files w)
        = (Return (length (with_source (files w) MODULE_MAPPING)), f1,
           map (progress_line (files w)) MODULE_MAPPING)
        /\ files w' = f1
        /\ stdout w'
           = stdout w ++ opening_lines
             ++ map (progress_line (files w)) MODULE_MAPPING
             ++ take j (closing_lines
                          (length (with_source (files w) MODULE_MAPPING)))
        /\ match r with
           | Return _ => j = 6%nat
           | Raise e =>
               (j < 6)%nat
               /\ Faulty.print_fault E (length (stdout w')) = Some e
           end).
Proof.
  destruct MODULE_MAPPING_well_keyed as [Hs Hnd].
  unfold Faulty.main. rewrite faulty_main_on_prints.
  destruct (Faulty.prints E opening_lines w) as [[[]|e] w1] eqn:Ep.
  2:{ intros [= <- <-]. left.
      destruct (faulty_prints _ _ _ _ _ Ep) as (Hf & j & Hout & Hj & Hp).
      exists e, j. done. }
  destruct (faulty_prints _ _ _ _ _ Ep) as (Hf & j & Hout & ->).
  rewrite take_ge in Hout by done.
  assert (w1 = World (files w) (stdout w ++ opening_lines)) as ->
    by (destruct w1; cbn [files stdout] in *; congruence).
  destruct (Faulty.generate_modules E to_upper_full MODULE_MAPPING 0 _)
    as [[c|e] w2] eqn:Eg.
  2:{ intros [= <- <-]. right; left. by exists e. }
  apply faulty_run_Return in Eg; [|done].
  rewrite generate_modules_run in Eg by done. cbn [files stdout] in Eg.
  destruct (run_files to_upper_full MODULE_MAPPING 0 (files w))
    as [[r' f1] lines] eqn:Er.
  injection Eg as -> <-.
  destruct (run_files_Return _ _ _ _ _ _ _ Hnd Er) as (-> & _ & _ & ->).
  intros Hc. right; right.
  destruct (faulty_prints _ _ _ _ _ Hc) as (Hf' & j' & Hout' & Hr).
  cbn [files stdout] in Hf', Hout'. exists f1, j'.
  split; [done|]. split; [done|]. split; [by rewrite Hout', <- !app_assoc|].
  destruct r; [done|]. done.
Qed.

(** What was true of the files after the entries that ran holds of the
    files before them. *)
Lemma run_files_transfer (done : list (str * module_info)) (n m : nat)
    (f f1 : gmap path node) (lines : list str) (k : str) (e : exn) :
  run_files to_upper_full done n f = (Return m, f1, lines) ->
  k ∉ (done.*1) ->
  has_source f1 k = has_source f k
  /\ document f1 k = document f k
  /\ (blocked_by f1 k e -> blocked_by f k e)
  /\ (faulted_by E f1 k e -> faulted_by E f k e).
Proof.
  intros Hr Hk.
  pose proof (run_files_src _ _ _ _ _ _ _ k Hr) as Hsrc.
  pose proof (run_files_readme _ _ _ _ _ _ _ k Hr) as Hreadme.
  pose proof (run_files_keeps_page _ _ _ _ _ _ _ k Hr Hk) as Hpage.
  assert (forall q, q ∈ dirs k -> f1 !! q <> Some Dir -> f !! q = f1 !! q)
    as Hdir.
  { intros q Hq Hf.
    destruct (run_files_effect _ _ _ _ _ _ _ Hr q)
      as [E1|[(_ & E1 & _)|(k' & i' & _ & ->)]]; [congruence | congruence |].
    by apply page_not_dir in Hq. }
  split; [unfold has_source; by rewrite Hsrc|].
  split; [unfold document, readme_text; by rewrite Hreadme|].
  unfold blocked_by, faulted_by. rewrite Hreadme, Hpage. split.
  - intros [(d & Hf & ->)|[(q & d & Hq & Hqn & Hf & ->)|Hb]]; [| |tauto].
    + left. exists d. split; [|done].
      rewrite Hdir; [done | apply dir_of_in_dirs | by rewrite Hf].
    + right; left. exists q, d. split; [done|]. split; [done|].
      split; [|done]. rewrite Hdir; [done | done | by rewrite Hf].
  - intros [(q & Hq & Hf & He)|Hb]; [|tauto].
    left. exists q. split; [done|]. split; [|done].
    by rewrite Hdir.
Qed.

(** What a failing step adds to the pages and directories of the entries
    before it. *)
Lemma touched_failing_step (done rest : list (str * module_info)) (k : str)
    (info : module_info) (f f1 f2 : gmap path node) (n : nat) (e : exn)
    (q : path) :
  NoDup ((done ++ (k, info) :: rest).*1) ->
  run_files to_upper_full done 0 f
  = (Return (length (with_source f done)), f1, map (progress_line f) done) ->
  Faulty.step_files E to_upper_full k info f1 n = (Raise e, f2, []) ->
  touched E to_upper_full f f2 (done ++ (k, info) :: rest) q.
Proof.
  intros Hnd Hr Hstep.
  destruct (table_split_keys _ _ _ _ Hnd) as (Hnd' & Hk & _).
  destruct (run_files_transfer _ _ _ _ _ _ k e Hr Hk) as (Hsrc & Hdoc & _).
  assert (touched E to_upper_full f f1 (done ++ (k, info) :: rest) q) as Ht.
  { eapply touched_weaken; [|by eapply run_files_touched].
    intros entry Hin. apply elem_of_app. by left. }
  assert ((k, info) ∈ done ++ (k, info) :: rest) as Hin
    by (apply elem_of_app; right; apply list_elem_of_here).
  destruct (faulty_step_effect _ _ _ _ _ _ _ _ _ Hstep q)
    as [E1|[(Hq & E1 & E2 & Hs)|(-> & Hs & Hp)]].
  - unfold touched in *. by rewrite E1.
  - rewrite Hsrc in Hs. right; left.
    assert (f !! q = None) as Hn.
    { destruct Ht as [E3|[(_ & E3 & _)|(k' & i' & _ & _ & _ & [E3|(? & ? & _ & E3)])]];
        congruence. }
    split; [done|]. split; [done|]. by exists k, info.
  - rewrite Hsrc in Hs. rewrite Hdoc in Hp.
    right; right. by exists k, info.
Qed.

(** Why a step after the entries that ran raised, in terms of the files
    before them. *)
Lemma faulty_step_cause (done : list (str * module_info)) (k : str)
    (info : module_info) (f f1 f2 : gmap path node) (n : nat) (e : exn) :
  k ∉ (done.*1) ->
  run_files to_upper_full done 0 f
  = (Return (length (with_source f done)), f1, map (progress_line f) done) ->
  Faulty.step_files E to_upper_full k info f1 n = (Raise e, f2, []) ->
  Faulty.print_fault E n = Some e
  \/ (has_source f k = true /\ (blocked_by f k e \/ faulted_by E f k e)).
Proof.
  intros Hk Hr Hstep.
  destruct (run_files_transfer _ _ _ _ _ _ k e Hr Hk) as (Hsrc & _ & Hb & Hf).
  destruct (faulty_step_Raise _ _ _ _ _ _ _ _ _ Hstep)
    as (_ & [(Hp & _)|(Hs & Hc & _)]); [by left|].
  right. rewrite <- Hsrc. split; [done|]. tauto.
Qed.

(** What the failing step leaves at the pages. *)
Lemma faulty_step_pages (done : list (str * module_info)) (k : str)
    (info : module_info) (f f1 f2 : gmap path node) (n : nat) (e : exn) :
  k ∉ (done.*1) ->
  run_files to_upper_full done 0 f
  = (Return (length (with_source f done)), f1, map (progress_line f) done) ->
  Faulty.step_files E to_upper_full k info f1 n = (Raise e, f2, []) ->
  (forall k', k' <> k -> f2 !! page_path k' = f1 !! page_path k')
  /\ (f2 !! page_path k = f !! page_path k
      \/ f2 !! page_path k
         = Some (File (Some (page_of_content to_upper_full info (document f k))))
      \/ exists d, Faulty.write_fault E (page_path k) = Some (e, d)
                   /\ f2 !! page_path k = Some (File d)).
Proof.
  intros Hk Hr Hstep.
  destruct (run_files_transfer _ _ _ _ _ _ k e Hr Hk) as (Hsrc & Hdoc & _).
  pose proof (run_files_keeps_page _ _ _ _ _ _ _ k Hr Hk) as Hpage.
  split.
  - intros k' Hne.
    destruct (faulty_step_effect _ _ _ _ _ _ _ _ _ Hstep (page_path k'))
      as [?|[(Hq & _)|(Hq & _)]]; [done | |].
    + by apply page_not_dir in Hq.
    + by apply page_path_inj in Hq.
  - destruct (faulty_step_Raise _ _ _ _ _ _ _ _ _ Hstep)
      as (_ & [(_ & b & Hs)|(_ & _ & Hfoot)]).
    + destruct (has_source f1 k) eqn:Hs1.
      * pose proof Hs1 as Hs1'. apply has_source_true in Hs1'.
        destruct (step_files_Return _ _ _ _ _ _ Hs1' Hs) as (_ & _ & _ & Hp & _).
        right; left. by rewrite <- Hdoc.
      * assert (f1 !! src_of k = None) as Hnone.
        { unfold has_source in Hs1. by destruct (f1 !! src_of k). }
        rewrite (step_files_skip _ _ _ _ Hnone) in Hs. injection Hs as _ <-.
        by left.
    + destruct (Hfoot (page_path k)) as [E1|[(Hq & _)|(_ & d & Hw & Hd)]].
      * left. congruence.
      * by apply page_not_dir in Hq.
      * right; right. by exists d.
Qed.

(** A run that raises stops before the loop, in the loop, or after it;
    [j] is the number of lines it has printed. *)
Lemma faulty_main_Raise (w w' : world) (e : exn) :
  Faulty.main E to_upper_full w = (Raise e, w') ->
  exists j,
    (j < length (all_lines (files w) MODULE_MAPPING))%nat
    /\ stdout w' = stdout w ++ take j (all_lines (files w) MODULE_MAPPING)
    /\ ((files w' = files w /\ (j < 2)%nat
         /\ Faulty.print_fault E (length (stdout w')) = Some e)
        \/ (exists done k info rest f1,
              MODULE_MAPPING = done ++ (k, info) :: rest
              /\ j = (2 + length done)%nat
              /\ run_files to_upper_full done 0 (files w)
                 = (Return (length (with_source (files w) done)), f1,
                    map (progress_line (files w)) done)
              /\ Faulty.step_files E to_upper_full k info f1
                   (length (stdout w'))
                 = (Raise e, files w', []))
        \/ (run_files to_upper_full MODULE_MAPPING 0 (files w)
            = (Return (length (with_source (files w) MODULE_MAPPING)),
               files w', map (progress_line (files w)) MODULE_MAPPING)
            /\ (2 + length MODULE_MAPPING <= j)%nat
            /\ Faulty.print_fault E (length (stdout w')) = Some e)).
Proof.
  intros H.
  destruct (faulty_main_cases _ _ _ H)
    as [(e' & j & [= <-] & Hj & Hf & Hout & Hp)
       |[(e' & [= <-] & Hg)|(f1 & j & Hr & <- & Hout & Hj & Hp)]].
  - exists j. rewrite all_lines_length. split; [lia|].
    split; [by rewrite all_lines_opening by lia|]. by left.
  - destruct (faulty_loop_Raise _ _ _ _ MODULE_MAPPING_well_keyed Hg)
      as (done & k & info & rest & f1 & Htab & Hr & Hout & Hstep).
    cbn [files stdout] in Hr, Hout.
    exists (2 + length done)%nat. rewrite all_lines_length.
    split; [rewrite Htab, length_app; simpl; lia|].
    split; [rewrite Htab at 1; by rewrite all_lines_loop, Hout, <- app_assoc|].
    right; left. by exists done, k, info, rest, f1.
  - exists (2 + length MODULE_MAPPING + j)%nat. rewrite all_lines_length.
    split; [lia|]. split; [by rewrite (all_lines_closing _ _ _ _ eq_refl)|].
    right; right. split; [done|]. split; [lia | done].
Qed.

End Faulty_main.

(** X10: under an environment that fails calls (a missing permission, a
    full disk, a closed console), a run of [main] that completes does
    what the run of the files alone does, and then nothing stood in the
    way of any module with a source folder; [main] completes whenever
    nothing stands in the way of these modules, the environment fails no
    [mkdir], reading, opening or writing of theirs, and fails none of the
    [print]s of the run; and without faults [main] is the run of the files
    alone. *)
Theorem main_completes (E : Faulty.env) (to_upper_full : char -> str)
    (w : world) :
  (forall w', Faulty.main E to_upper_full w = (Return tt, w') ->
     main to_upper_full w = (Return tt, w')
     /\ forall k info, (k, info) ∈ MODULE_MAPPING ->
          has_source (files w) k = true -> can_generate (files w) k)
  /\ ((forall k info, (k, info) ∈ MODULE_MAPPING ->
         has_source (files w) k = true ->
         can_generate (files w) k /\ forall e, ~ faulted_by E (files w) k e) ->
      (forall j, (j < length (all_lines (files w) MODULE_MAPPING))%nat ->
         Faulty.print_fault E (length (stdout w) + j) = None) ->
      exists w', Faulty.main E to_upper_full w = (Return tt, w'))
  /\ Faulty.main Faulty.quiet to_upper_full w = main to_upper_full w.
Proof.
  destruct MODULE_MAPPING_well_keyed as [Hs Hnd].
  split; [|split].
  - intros w' H.
    destruct (faulty_main_cases _ _ _ _ _ H)
      as [(e' & j & [=] & _)|[(e' & [=] & _)|(f1 & j & Hr & Hf & Hout & ->)]].
    rewrite take_ge in Hout by done. split.
    + rewrite main_run, Hr. destruct w' as [f' out'].
      cbn [files stdout] in Hf, Hout. by rewrite Hf, Hout.
    + intros k info Hin Hsrc.
      destruct (run_files_Return _ _ _ _ _ _ _ Hnd Hr) as (_ & Hcan & _).
      apply (Hcan k info), elem_of_with_source. by split.
  - intros Hcan Hprint.
    destruct (Faulty.main E to_upper_full w) as [[[]|e] w'] eqn:Hm;
      [by exists w'|exfalso].
    destruct (faulty_main_Raise _ _ _ _ _ Hm) as (j & Hj & Hout & Hcase).
    assert (Faulty.print_fault E (length (stdout w')) = None) as Hnone.
    { rewrite Hout, length_app, length_take, Nat.min_l by lia.
      by apply Hprint. }
    destruct Hcase as [(_ & _ & Hp)
      |[(done & k & info & rest & f1 & Htab & _ & Hr & Hstep)|(_ & _ & Hp)]];
      [congruence | | congruence].
    pose proof Hnd as Hnd'. rewrite Htab in Hnd'.
    destruct (table_split_keys _ _ _ _ Hnd') as (_ & Hk & _).
    destruct (faulty_step_cause _ _ _ _ _ _ _ _ _ _ Hk Hr Hstep)
      as [Hp|(Hsrc & Hc)]; [congruence|].
    assert ((k, info) ∈ MODULE_MAPPING) as Hin.
    { rewrite Htab. apply elem_of_app. right. apply list_elem_of_here. }
    destruct (Hcan k info Hin Hsrc) as [Hg Hq].
    destruct Hc as [Hb|Hf]; [|by apply (Hq e)].
    by apply (blocked_by_cannot_generate _ _ _ Hb).
  - unfold Faulty.main, main. apply faulty_quiet_main_on.
Qed.

(** X11: whatever the environment, and whether [main] completes or
    aborts, every path is left as it was, or was absent and is now a
    directory on the way to the page of a module with a source folder, or
    is the page path of such a module and holds its page or what a failed
    writing left there.  Nothing is deleted, no source folder and no
    README is touched, and the console holds what it held, followed by
    the first lines of a complete run. *)
Theorem main_footprint (E : Faulty.env) (to_upper_full : char -> str)
    (w : world) :
  let w' := (Faulty.main E to_upper_full w).2 in
  (forall q, touched E to_upper_full (files w) (files w') MODULE_MAPPING q)
  /\ (forall q, files w !! q <> None -> files w' !! q <> None)
  /\ (forall k, files w' !! src_of k = files w !! src_of k
                /\ files w' !! readme_of k = files w !! readme_of k)
  /\ exists j, stdout w'
               = stdout w ++ take j (all_lines (files w) MODULE_MAPPING).
Proof.
  destruct MODULE_MAPPING_well_keyed as [Hs Hnd].
  destruct (Faulty.main E to_upper_full w) as [r w'] eqn:Hm. cbn [snd].
  assert ((forall q, touched E to_upper_full (files w) (files w')
                       MODULE_MAPPING q)
          /\ exists j, stdout w'
                       = stdout w ++ take j (all_lines (files w) MODULE_MAPPING))
    as [Ht Hout].
  { destruct r as [[]|e].
    - destruct (faulty_main_cases _ _ _ _ _ Hm)
        as [(e' & j & [=] & _)|[(e' & [=] & _)|(f1 & j & Hr & <- & Hout & ->)]].
      split; [intros q; by eapply run_files_touched|].
      exists (2 + length MODULE_MAPPING + 6)%nat.
      by rewrite (all_lines_closing _ _ _ _ eq_refl).
    - destruct (faulty_main_Raise _ _ _ _ _ Hm) as (j & _ & Hout & Hcase).
      split; [|by exists j].
      destruct Hcase as [(Hf & _)
        |[(done & k & info & rest & f1 & Htab & _ & Hr & Hstep)|(Hr & _)]].
      + intros q. left. by rewrite Hf.
      + intros q. rewrite Htab. eapply touched_failing_step; [|done..].
        by rewrite <- Htab.
      + intros q. by eapply run_files_touched. }
  split; [done|]. split; [|split; [|done]].
  - intros q Hq.
    destruct (Ht q) as [E1|[(_ & E1 & _)
      |(k & info & _ & _ & _ & [E1|(e & d & _ & E1)])]]; congruence.
  - intros k. split.
    + destruct (Ht (src_of k)) as [E1|[(_ & _ & k' & i' & _ & _ & Hq)
        |(k' & i' & _ & _ & Hq & _)]]; [done | |].
      * by apply src_not_dir in Hq.
      * by apply src_not_page in Hq.
    + destruct (Ht (readme_of k)) as [E1|[(_ & _ & k' & i' & _ & _ & Hq)
        |(k' & i' & _ & _ & Hq & _)]]; [done | |].
      * by apply readme_not_dir in Hq.
      * by apply readme_not_page in Hq.
Qed.

(** X12: a run that aborts, for what the files show or by a fault of
    the environment, stops after [j] of the lines of a complete run, and
    nothing is rolled back.  With [i = j - 2] the place in the table where
    it stopped, the first one when it stopped in the two opening lines:
    the pages of the modules before [i] that have a source folder are
    written; the page of the module at [i] is as it was, or written, or
    holds what the failed writing left (an empty file when the disk was
    full); the pages of the modules after [i] are as they were; and the
    last line of a complete run is never printed. *)
Theorem main_abort (E : Faulty.env) (to_upper_full : char -> str)
    (w w' : world) (e : exn) :
  Faulty.main E to_upper_full w = (Raise e, w') ->
  exists j,
    (j < length (all_lines (files w) MODULE_MAPPING))%nat
    /\ stdout w' = stdout w ++ take j (all_lines (files w) MODULE_MAPPING)
    /\ (forall k info, (k, info) ∈ take (j - 2) MODULE_MAPPING ->
          has_source (files w) k = true ->
          files w' !! page_path k
          = Some (File (Some (page_of_content to_upper_full info
                                (document (files w) k)))))
    /\ (forall k info, MODULE_MAPPING !! (j - 2)%nat = Some (k, info) ->
          files w' !! page_path k = files w !! page_path k
          \/ files w' !! page_path k
             = Some (File (Some (page_of_content to_upper_full info
                                   (document (files w) k))))
          \/ exists d, Faulty.write_fault E (page_path k) = Some (e, d)
                       /\ files w' !! page_path k = Some (File d))
    /\ (forall k info, (k, info) ∈ drop (S (j - 2)) MODULE_MAPPING ->
          files w' !! page_path k = files w !! page_path k).
Proof.
  destruct MODULE_MAPPING_well_keyed as [Hs Hnd]. intros Hm.
  destruct (faulty_main_Raise _ _ _ _ _ Hm) as (j & Hj & Hout & Hcase).
  exists j. split; [done|]. split; [done|].
  destruct Hcase as [(Hf & Hj2 & _)
    |[(done & k & info & rest & f1 & Htab & -> & Hr & Hstep)|(Hr & Hj2 & _)]].
  - replace (j - 2)%nat with 0%nat by lia. rewrite Hf.
    split; [by intros k info ?%elem_of_nil|]. split; [by left | done].
  - replace (2 + length done - 2)%nat with (length done) by lia.
    pose proof Hnd as Hnd'. rewrite Htab in Hnd'.
    destruct (table_split_keys _ _ _ _ Hnd') as (Hnd0 & Hk & Hdone & Hrest).
    destruct (run_files_Return _ _ _ _ _ _ _ Hnd0 Hr)
      as (_ & _ & (_ & Gp & _) & _).
    destruct (faulty_step_pages _ _ _ _ _ _ _ _ _ _ Hk Hr Hstep)
      as [Hother Hthis].
    rewrite Htab. split; [|split].
    + rewrite take_app_length. intros k' info' Hin Hsrc.
      rewrite (Hother k') by by eapply Hdone.
      apply (Gp k' info'), elem_of_with_source. by split.
    + rewrite list_lookup_middle by done. by intros k' info' [= <- <-].
    + rewrite cons_middle, app_assoc, drop_app_length'
        by (rewrite length_app; simpl; lia).
      intros k' info' Hin. destruct (Hrest k' info' Hin) as [Hne Hnot].
      rewrite (Hother k') by done.
      by eapply run_files_keeps_page.
  - destruct (run_files_Return _ _ _ _ _ _ _ Hnd Hr)
      as (_ & _ & (_ & Gp & _) & _).
    split; [|split].
    + rewrite take_ge by lia. intros k info Hin Hsrc.
      apply (Gp k info), elem_of_with_source. by split.
    + intros k info Hl. apply lookup_lt_Some in Hl. lia.
    + rewrite drop_ge by lia. by intros k info ?%elem_of_nil.
Qed.

Lemma blocked_by_exn (f : gmap path node) (k : str) (e : exn) :
  blocked_by f k e ->
  e = FileExistsError \/ e = NotADirectoryError \/ e = IsADirectoryError
  \/ e = UnicodeDecodeError.
Proof.
  intros [(d & _ & ->)|[(q & d & _ & _ & _ & ->)
         |[[_ ->]|[[_ ->]|[_ ->]]]]]; auto.
Qed.

(** X13: the exception of an aborted run is the one of a [print] that
    the environment failed, or comes from a module with a source folder:
    from what stands in its way in the files ([FileExistsError],
    [NotADirectoryError], [IsADirectoryError], [UnicodeDecodeError]), or
    from the environment, which failed the [mkdir] of a directory on the
    way to its page, the reading of its README, or the opening or the
    writing of its page, with whatever exception it chose.  Any exception
    other than the four, [PermissionError], [OSError] and
    [FileNotFoundError] among them, comes from the environment. *)
Theorem main_raises (E : Faulty.env) (to_upper_full : char -> str)
    (w w' : world) (e : exn) :
  Faulty.main E to_upper_full w = (Raise e, w') ->
  (Faulty.print_fault E (length (stdout w')) = Some e
   \/ exists k info, (k, info) ∈ MODULE_MAPPING
                     /\ has_source (files w) k = true
                     /\ (blocked_by (files w) k e
                         \/ faulted_by E (files w) k e))
  /\ (e <> FileExistsError -> e <> NotADirectoryError ->
      e <> IsADirectoryError -> e <> UnicodeDecodeError ->
      Faulty.print_fault E (length (stdout w')) = Some e
      \/ exists k info, (k, info) ∈ MODULE_MAPPING
                        /\ has_source (files w) k = true
                        /\ faulted_by E (files w) k e).
Proof.
  destruct MODULE_MAPPING_well_keyed as [Hs Hnd]. intros Hm.
  assert (Faulty.print_fault E (length (stdout w')) = Some e
          \/ exists k info, (k, info) ∈ MODULE_MAPPING
                            /\ has_source (files w) k = true
                            /\ (blocked_by (files w) k e
                                \/ faulted_by E (files w) k e)) as Hcause.
  { destruct (faulty_main_Raise _ _ _ _ _ Hm) as (j & _ & _ & Hcase).
    destruct Hcase as [(_ & _ & Hp)
      |[(done & k & info & rest & f1 & Htab & _ & Hr & Hstep)|(_ & _ & Hp)]];
      [by left | | by left].
    pose proof Hnd as Hnd'. rewrite Htab in Hnd'.
    destruct (table_split_keys _ _ _ _ Hnd') as (_ & Hk & _).
    destruct (faulty_step_cause _ _ _ _ _ _ _ _ _ _ Hk Hr Hstep)
      as [Hp|(Hsrc & Hc)]; [by left|].
    right. exists k, info. split; [|done].
    rewrite Htab. apply elem_of_app. right. apply list_elem_of_here. }
  split; [done|]. intros H1 H2 H3 H4.
  destruct Hcause as [Hp|(k & info & Hin & Hsrc & [Hb|Hf])]; [by left | |].
  - destruct (blocked_by_exn _ _ _ Hb) as [?|[?|[?|?]]]; done.
  - right. by exists k, info.
Qed.

Lemma main_abort_witness :
  let E := disk_full_at (lit "02-toolkit") in
  let w := two_modules in
  let w' := (Faulty.main E ascii_to_upper w).2 in
  (Faulty.main E ascii_to_upper w).1 = Raise OSError
  /\ files w' !! page_path (lit "02-toolkit") = Some (File (Some []))
  /\ exists j,
       (j < length (all_lines (files w) MODULE_MAPPING))%nat
       /\ stdout w' = stdout w ++ take j (all_lines (files w) MODULE_MAPPING)
       /\ (forall k info, (k, info) ∈ take (j - 2) MODULE_MAPPING ->
             has_source (files w) k = true ->
             files w' !! page_path k
             = Some (File (Some (page_of_content ascii_to_upper info
                                   (document (files w) k)))))
       /\ (forall k info, MODULE_MAPPING !! (j - 2)%nat = Some (k, info) ->
             files w' !! page_path k = files w !! page_path k
             \/ files w' !! page_path k
                = Some (File (Some (page_of_content ascii_to_upper info
                                      (document (files w) k))))
             \/ exists d, Faulty.write_fault E (page_path k)
                          = Some (OSError, d)
                          /\ files w' !! page_path k = Some (File d))
       /\ (forall k info, (k, info) ∈ drop (S (j - 2)) MODULE_MAPPING ->
             files w' !! page_path k = files w !! page_path k).
Proof.
  intros E w w'.
  assert ((Faulty.main E ascii_to_upper w).1 = Raise OSError) as H
    by (vm_compute; reflexivity).
  split; [exact H|]. split; [vm_compute; reflexivity|].
  exact (main_abort E ascii_to_upper w w' OSError (run_eta _ _ H)).
Defined.

Lemma main_raises_witness :
  let w := two_modules in
  let w' := (Faulty.main read_only ascii_to_upper w).2 in
  (Faulty.main read_only ascii_to_upper w).1 = Raise PermissionError
  /\ (Faulty.print_fault read_only (length (stdout w')) = Some PermissionError
      \/ exists k info, (k, info) ∈ MODULE_MAPPING
                        /\ has_source (files w) k = true
                        /\ (blocked_by (files w) k PermissionError
                            \/ faulted_by read_only (files w) k
                                 PermissionError))
  /\ (PermissionError <> FileExistsError ->
      PermissionError <> NotADirectoryError ->
      PermissionError <> IsADirectoryError ->
      PermissionError <> UnicodeDecodeError ->
      Faulty.print_fault read_only (length (stdout w')) = Some PermissionError
      \/ exists k info, (k, info) ∈ MODULE_MAPPING
                        /\ has_source (files w) k = true
                        /\ faulted_by read_only (files w) k PermissionError).
Proof.
  intros w w'.
  assert ((Faulty.main read_only ascii_to_upper w).1 = Raise PermissionError)
    as H by (vm_compute; reflexivity).
  split; [exact H|].
  exact (main_raises read_only ascii_to_upper w w' PermissionError
           (run_eta _ _ H)).
Defined.

(** ** A module without a README *)

(** X14: a module whose source folder holds no README still gets a page
    when the run completes: the page of the empty document, made of the
    template, the descriptor and the three fallback fragments. *)
Theorem main_page_without_readme (to_upper_full : char -> str) (w w' : world)
    (k : str) (info : module_info) :
  main to_upper_full w = (Return tt, w') ->
  (k, info) ∈ MODULE_MAPPING ->
  has_source (files w) k = true ->
  files w !! readme_of k = None ->
  files w' !! page_path k
  = Some (File (Some (html_content info overview_fallback features_fallback
                        api_fallback))).
Proof.
  intros Hrun Hin Hsrc Hreadme.
  rewrite (main_page _ _ _ _ _ Hrun Hin Hsrc).
  unfold document, readme_text. rewrite Hreadme.
  by rewrite page_of_empty.
Qed.

Lemma main_page_without_readme_witness :
  let w := two_modules in
  let k := lit "01-firstuse" in
  let info := {| title := lit "First Use Guide";
                 description := lit "Complete getting started guide for PARVYOM Metanode deployment and initial setup";
                 icon := lit "fas fa-play-circle";
                 category := lit "getting-started" |} in
  (main ascii_to_upper w).1 = Return tt
  /\ (k, info) ∈ MODULE_MAPPING
  /\ has_source (files w) k = true
  /\ files w !! readme_of k = None
  /\ files (main ascii_to_upper w).2 !! page_path k
     = Some (File (Some (html_content info overview_fallback features_fallback
                           api_fallback))).
Proof.
  intros w k info.
  assert ((main ascii_to_upper w).1 = Return tt) as H
    by (vm_compute; reflexivity).
  assert ((k, info) ∈ MODULE_MAPPING) as Hin
    by (vm_compute; apply list_elem_of_here).
  assert (has_source (files w) k = true) as Hsrc by (vm_compute; reflexivity).
  assert (files w !! readme_of k = None) as Hreadme
    by (vm_compute; reflexivity).
  split; [exact H|]. split; [exact Hin|]. split; [exact Hsrc|].
  split; [exact Hreadme|].
  exact (main_page_without_readme ascii_to_upper w (main ascii_to_upper w).2
           k info (run_eta _ _ H) Hin Hsrc Hreadme).
Defined.
